(** * Coaching dashboard metrics: a shallow embedding of the aggregation code

    The development follows the TypeScript sources of the dashboard:
    - [lib/dataFetcher]            (ingestion of competency scores, roster
                                     names, basic session statistics),
    - [components/SessionDashboard] (per-person rollup, survey metrics,
                                     adoption rate, KPI totals, detail
                                     modal, monthly trend),
    - [components/HomeDashboard]    (cohort list and KPIs, quote extraction,
                                     recent activity),
    - [components/ImpactDashboard]  (per-competency growth, interpretation),
    - [components/ExecutiveSignals] (phase of the program),
    - [App]                         (programs of the navigation).

    Conventions of the embedding.
    - A JavaScript string is a [string] of code units; the tables of the
      program (status words, keywords, program codes) are ASCII, and
      [toLowerCase] folds the ASCII letters only.
    - A JavaScript number is a [JsNum]: [NaN], an infinity, or a rational.
      The percentages that the program rounds to an integer or compares with
      a threshold are computed as the program computes them, in binary64:
      every operation ([sub64], [mul64], [div64]) is the exact one followed
      by rounding to the nearest double, ties to even ([round64]).  Sums and
      averages of scores are kept exact.  The sign of zero is not
      represented.
    - An optional field is an [option]; [None] stands for [undefined]/[null].
    - A [Map] is an insertion-ordered association list ([JsMap]), a [Set] of
      strings is a [gset string], a plain object used as a counter table is a
      [gmap string nat].
    - [new Date(x)] is represented by what the program observes of it: its
      time value, [getFullYear()] and [getMonth()]. *)

From Stdlib Require Import ZArith QArith Qcanon Qround Qabs Qpower.
From Stdlib Require Import Ascii String List Lia Lqa SpecFloat.
From Stdlib Require Import DecimalString DecimalZ DecimalPos.
From stdpp Require Import base decidable option list sorting strings numbers gmap.

Local Open Scope string_scope.
Local Open Scope list_scope.

(** ** JavaScript primitives used by the dashboard code *)

Module Js.

(** *** Strings *)

Definition truthy (o : option string) : bool :=
  match o with
  | Some s => negb (String.eqb s "")
  | None => false
  end.

(** [a || b] on optional strings. *)
Definition or (a b : option string) : option string :=
  if truthy a then a else b.

(** [a || 'literal']. *)
Definition or_lit (a : option string) (d : string) : string :=
  match a with
  | Some s => if String.eqb s "" then d else s
  | None => d
  end.

Definition lower_char (c : ascii) : ascii :=
  let n := nat_of_ascii c in
  if (65 <=? n)%nat && (n <=? 90)%nat then ascii_of_nat (n + 32) else c.

Fixpoint toLowerCase (s : string) : string :=
  match s with
  | EmptyString => EmptyString
  | String c s' => String (lower_char c) (toLowerCase s')
  end.

Fixpoint trimStart (s : string) : string :=
  match s with
  | EmptyString => EmptyString
  | String c s' => if Ascii.is_space c then trimStart s' else s
  end.

Definition trimEnd (s : string) : string :=
  String.rev (trimStart (String.rev s)).

Definition trim (s : string) : string := trimEnd (trimStart s).

(** [s.includes(sub)]. *)
Fixpoint includes (s sub : string) : bool :=
  String.prefix sub s ||
  match s with
  | EmptyString => false
  | String _ s' => includes s' sub
  end.

(** [words.some(w => s.includes(w))]. *)
Definition includes_any (s : string) (words : list string) : bool :=
  existsb (includes s) words.

(** *** Numbers *)

Inductive JsNum : Type :=
| NaN
| Inf (negative : bool)
| Fin (q : Qc).

Definition of_Z (z : Z) : JsNum := Fin (Qc_of_Z z).
Definition of_nat (n : nat) : JsNum := of_Z (Z.of_nat n).

Definition isNaN (x : JsNum) : bool :=
  match x with NaN => true | _ => false end.

(** Truthiness of a number: [0] and [NaN] are falsy. *)
Definition num_truthy (x : JsNum) : bool :=
  match x with
  | NaN => false
  | Inf _ => true
  | Fin q => negb (bool_decide (q = 0%Qc))
  end.

Definition is_neg (q : Qc) : bool := bool_decide (q < 0)%Qc.

Definition neg (x : JsNum) : JsNum :=
  match x with
  | NaN => NaN
  | Inf s => Inf (negb s)
  | Fin q => Fin (- q)%Qc
  end.

Definition add (x y : JsNum) : JsNum :=
  match x, y with
  | NaN, _ | _, NaN => NaN
  | Inf s, Inf t => if Bool.eqb s t then Inf s else NaN
  | Inf s, Fin _ | Fin _, Inf s => Inf s
  | Fin a, Fin b => Fin (a + b)%Qc
  end.

Definition sub (x y : JsNum) : JsNum := add x (neg y).

Definition mul (x y : JsNum) : JsNum :=
  match x, y with
  | NaN, _ | _, NaN => NaN
  | Inf s, Inf t => Inf (xorb s t)
  | Inf s, Fin q | Fin q, Inf s =>
      if bool_decide (q = 0%Qc) then NaN else Inf (xorb s (is_neg q))
  | Fin a, Fin b => Fin (a * b)%Qc
  end.

(** Division; a zero divisor is taken as [+0]. *)
Definition div (x y : JsNum) : JsNum :=
  match x, y with
  | NaN, _ | _, NaN => NaN
  | Inf _, Inf _ => NaN
  | Inf s, Fin q => Inf (xorb s (is_neg q))
  | Fin _, Inf _ => Fin 0%Qc
  | Fin a, Fin b =>
      if bool_decide (b = 0%Qc)
      then (if bool_decide (a = 0%Qc) then NaN else Inf (is_neg a))
      else Fin (a / b)%Qc
  end.

(** [x < y]; every comparison with [NaN] is false. *)
Definition ltb (x y : JsNum) : bool :=
  match x, y with
  | NaN, _ | _, NaN => false
  | Inf s, Inf t => s && negb t
  | Inf s, Fin _ => s
  | Fin _, Inf t => negb t
  | Fin a, Fin b => bool_decide (a < b)%Qc
  end.

Definition eqb (x y : JsNum) : bool :=
  match x, y with
  | Inf s, Inf t => Bool.eqb s t
  | Fin a, Fin b => bool_decide (a = b)
  | _, _ => false
  end.

Definition gtb (x y : JsNum) : bool := ltb y x.
Definition leb (x y : JsNum) : bool := ltb x y || eqb x y.
Definition geb (x y : JsNum) : bool := leb y x.

(** [Math.round] on a rational: the nearest integer, halves upwards. *)
Definition round_half_up (q : Qc) : Z := Qfloor (this q + (1 # 2)).

Definition Math_round (x : JsNum) : JsNum :=
  match x with
  | Fin q => of_Z (round_half_up q)
  | _ => x
  end.

Definition Math_min (x y : JsNum) : JsNum :=
  match x, y with
  | NaN, _ | _, NaN => NaN
  | _, _ => if ltb y x then y else x
  end.

Definition Math_max (x y : JsNum) : JsNum :=
  match x, y with
  | NaN, _ | _, NaN => NaN
  | _, _ => if ltb x y then y else x
  end.

(** *** Binary64 arithmetic *)

(** The integer nearest to [x], a tie going to the even one. *)
Definition nearest_even (x : Q) : Z :=
  let f := Qfloor x in
  match (x - inject_Z f ?= 1 # 2)%Q with
  | Lt => f
  | Gt => (f + 1)%Z
  | Eq => if Z.even f then f else (f + 1)%Z
  end.

(** The exponent [b] with [2 ^ b <= x < 2 ^ (b + 1)], for a positive [x]. *)
Definition binade (x : Q) : Z :=
  let e0 := (Z.log2 (Qnum x) - Z.log2 (Z.pos (Qden x)))%Z in
  if Qle_bool (2 ^ e0) x then e0 else (e0 - 1)%Z.

(** The double nearest to [q]: 53 significant bits, the last of them worth
    [2 ^ -1074] at least, and an infinity once the rounded magnitude reaches
    [2 ^ 1024]. *)
Definition round64 (q : Qc) : JsNum :=
  if Qeq_bool q 0 then Fin q
  else
    let a := Qabs q in
    let e := Z.max (binade a - 52) (-1074) in
    let r := (inject_Z (nearest_even (a / 2 ^ e)) * 2 ^ e)%Q in
    if Qle_bool (2 ^ 1024) r then Inf (is_neg q)
    else Fin (Q2Qc (if is_neg q then - r else r)).

Definition to_double (x : JsNum) : JsNum :=
  match x with
  | Fin q => round64 q
  | _ => x
  end.

(** [x - y], [x * y] and [x / y] on doubles. *)
Definition sub64 (x y : JsNum) : JsNum := to_double (sub x y).
Definition mul64 (x y : JsNum) : JsNum := to_double (mul x y).
Definition div64 (x y : JsNum) : JsNum := to_double (div x y).

(** The value of a number of the IEEE 754 reference model of the standard
    library, and the integers and operations of binary64 in that model. *)
Definition of_spec_float (x : spec_float) : JsNum :=
  match x with
  | S754_zero _ => Fin 0%Qc
  | S754_infinity s => Inf s
  | S754_nan => NaN
  | S754_finite s m e =>
      Fin (Q2Qc (inject_Z (if s then Z.neg m else Z.pos m) * 2 ^ e)%Q)
  end.

Definition spec_float_of_Z (z : Z) : spec_float := binary_normalize 53 1024 z 0 false.

(** [x || d] on numbers. *)
Definition num_or (x : option JsNum) (d : JsNum) : JsNum :=
  match x with
  | Some v => if num_truthy v then v else d
  | None => d
  end.

(** *** Integers as text *)

(** [String(n)] for an integer [n]. *)
Definition Z_to_string (n : Z) : string :=
  NilZero.string_of_int (Z.to_int n).

Fixpoint replicate_char (n : nat) (c : ascii) : string :=
  match n with
  | O => EmptyString
  | S n' => String c (replicate_char n' c)
  end.

(** [s.padStart(n, c)] for a one-character filler. *)
Definition padStart (s : string) (n : nat) (c : ascii) : string :=
  replicate_char (n - String.length s) c +:+ s.

(** [s.split(sep)] for a one-character separator. *)
Fixpoint split (sep : ascii) (s : string) : list string :=
  match s with
  | EmptyString => [EmptyString]
  | String c s' =>
      if Ascii.eqb c sep then EmptyString :: split sep s'
      else match split sep s' with
           | w :: ws => String c w :: ws
           | [] => [String c EmptyString]
           end
  end.

(** [s.split(sep)[0]] for a separator string: the text before its first
    occurrence, or all of [s]. *)
Fixpoint split_head (s sep : string) : string :=
  if String.prefix sep s then EmptyString
  else match s with
       | EmptyString => EmptyString
       | String c s' => String c (split_head s' sep)
       end.

Definition digit_val (radix : Z) (c : ascii) : option Z :=
  let n := Z.of_nat (nat_of_ascii c) in
  let v := if (48 <=? n)%Z && (n <=? 57)%Z then Some (n - 48)%Z
           else if (97 <=? n)%Z && (n <=? 122)%Z then Some (n - 87)%Z
           else if (65 <=? n)%Z && (n <=? 90)%Z then Some (n - 55)%Z
           else None in
  match v with
  | Some d => if (d <? radix)%Z then Some d else None
  | None => None
  end.

(** The longest run of digits at the head of [s]; [acc] is [None] until a
    digit has been read. *)
Fixpoint parse_digits (radix : Z) (acc : option Z) (s : string) : option Z :=
  match s with
  | EmptyString => acc
  | String c s' =>
      match digit_val radix c with
      | Some d => parse_digits radix (Some (radix * default 0%Z acc + d)%Z) s'
      | None => acc
      end
  end.

(** [parseInt(s)]; [None] is [NaN]. *)
Definition parseInt (s : string) : option Z :=
  let s1 := trimStart s in
  let '(sign, s2) :=
    match s1 with
    | String "-" r => ((-1)%Z, r)
    | String "+" r => (1%Z, r)
    | _ => (1%Z, s1)
    end in
  let '(radix, s3) :=
    match s2 with
    | String "0" (String "x" r) | String "0" (String "X" r) => (16%Z, r)
    | _ => (10%Z, s2)
    end in
  (λ v, (sign * v)%Z) <$> parse_digits radix None s3.

(** *** Untyped values and [Number(v)] *)

(** The values a fetched column can hold. *)
Inductive JsValue : Type :=
| VUndefined
| VNull
| VBool (b : bool)
| VNum (x : JsNum)
| VStr (s : string).

(** The digits of radix [radix] at the head of [s], and what follows. *)
Fixpoint span_digits (radix : Z) (s : string) : list Z * string :=
  match s with
  | EmptyString => ([], EmptyString)
  | String c s' =>
      match digit_val radix c with
      | Some d => let '(ds, rest) := span_digits radix s' in (d :: ds, rest)
      | None => ([], s)
      end
  end.

Definition digits_value (radix : Z) (ds : list Z) : Z :=
  fold_left (λ a d, (a * radix + d)%Z) ds 0%Z.

(** [0x..], [0o..], [0b..] after the prefix: digits only. *)
Definition nonDecimalLiteral (radix : Z) (s : string) : JsNum :=
  match span_digits radix s with
  | ((_ :: _) as ds, EmptyString) => of_Z (digits_value radix ds)
  | _ => NaN
  end.

Definition pow10 (e : Z) : Qc :=
  if (0 <=? e)%Z then Qc_of_Z (10 ^ e) else (1 / Qc_of_Z (10 ^ (- e)))%Qc.

(** [ExponentPart], or nothing, up to the end of the text. *)
Definition exponentPart (s : string) : option Z :=
  match s with
  | EmptyString => Some 0%Z
  | String "e" r | String "E" r =>
      let '(sign, r1) :=
        match r with
        | String "-" r' => ((-1)%Z, r')
        | String "+" r' => (1%Z, r')
        | _ => (1%Z, r)
        end in
      match span_digits 10 r1 with
      | ((_ :: _) as ds, EmptyString) => Some (sign * digits_value 10 ds)%Z
      | _ => None
      end
  | _ => None
  end.

(** [StrUnsignedDecimalLiteral]. *)
Definition unsignedDecimal (s : string) : JsNum :=
  if String.eqb s "Infinity" then Inf false
  else
    let '(ints, r1) := span_digits 10 s in
    let '(fracs, r2) :=
      match r1 with
      | String "." r => span_digits 10 r
      | _ => ([], r1)
      end in
    match ints, fracs with
    | [], [] => NaN
    | _, _ =>
        match exponentPart r2 with
        | Some e =>
            Fin ((Qc_of_Z (digits_value 10 ints)
                  + Qc_of_Z (digits_value 10 fracs) * pow10 (- Z.of_nat (length fracs)))
                 * pow10 e)%Qc
        | None => NaN
        end
    end.

(** [StringToNumber]: white space is trimmed, the empty text is [0], and
    anything that is not a numeric literal is [NaN]. *)
Definition StringToNumber (s : string) : JsNum :=
  match trim s with
  | EmptyString => of_Z 0
  | String "0" (String "x" r) | String "0" (String "X" r) => nonDecimalLiteral 16 r
  | String "0" (String "o" r) | String "0" (String "O" r) => nonDecimalLiteral 8 r
  | String "0" (String "b" r) | String "0" (String "B" r) => nonDecimalLiteral 2 r
  | String "-" r => neg (unsignedDecimal r)
  | String "+" r => unsignedDecimal r
  | t => unsignedDecimal t
  end.

(** [Number(v)] *)
Definition Number (v : JsValue) : JsNum :=
  match v with
  | VUndefined => NaN
  | VNull => of_Z 0
  | VBool b => of_Z (if b then 1 else 0)
  | VNum x => x
  | VStr s => StringToNumber s
  end.

(** *** Identifiers: [number | string], possibly absent *)

Inductive JsId : Type :=
| IdUndefined
| IdNum (n : Z)
| IdStr (s : string).

#[global] Instance JsId_eq_dec : EqDecision JsId.
Proof. solve_decision. Defined.

Definition id_truthy (i : JsId) : bool :=
  match i with
  | IdUndefined => false
  | IdNum n => negb (n =? 0)%Z
  | IdStr s => negb (String.eqb s "")
  end.

Definition id_or (a b : JsId) : JsId := if id_truthy a then a else b.

(** [String(id)]. *)
Definition id_to_string (i : JsId) : string :=
  match i with
  | IdUndefined => "undefined"
  | IdNum n => Z_to_string n
  | IdStr s => s
  end.

(** *** Dates *)

(** The observable part of a [Date]: [InvalidDate] has a [NaN] time value. *)
Inductive JsDate : Type :=
| InvalidDate
| Date (time : Z) (fullYear : Z) (month : Z).

(** [`${d.getFullYear()}-${String(d.getMonth() + 1).padStart(2, '0')}`];
    the accessors of an invalid date return [NaN]. *)
Definition monthKey (d : JsDate) : string :=
  match d with
  | Date _ y m => Z_to_string y +:+ "-" +:+ padStart (Z_to_string (m + 1)) 2 "0"
  | InvalidDate => "NaN" +:+ "-" +:+ padStart "NaN" 2 "0"
  end.

(** [a < b] on dates compares time values; [NaN] compares false. *)
Definition date_ltb (a b : JsDate) : bool :=
  match a, b with
  | Date ta _ _, Date tb _ _ => (ta <? tb)%Z
  | _, _ => false
  end.

(** [d < new Date()] where the clock reads [now]. *)
Definition before_now (d : JsDate) (now : Z) : bool :=
  match d with
  | Date t _ _ => (t <? now)%Z
  | InvalidDate => false
  end.

(** [d >= new Date()] where the clock reads [now]. *)
Definition not_before (d : JsDate) (now : Z) : bool :=
  match d with
  | Date t _ _ => (now <=? t)%Z
  | InvalidDate => false
  end.

(** [d.getTime()]. *)
Definition getTime (d : JsDate) : JsNum :=
  match d with
  | Date t _ _ => of_Z t
  | InvalidDate => NaN
  end.

(** *** Insertion-ordered maps with string keys *)

Section JsMap.
Context {V : Type}.

Definition JsMap := list (string * V).

Fixpoint get (k : string) (m : JsMap) : option V :=
  match m with
  | [] => None
  | (k', v) :: m' => if String.eqb k k' then Some v else get k m'
  end.

Definition has (k : string) (m : JsMap) : bool :=
  match get k m with Some _ => true | None => false end.

(** [m.set(k, v)]: an existing key keeps its position. *)
Fixpoint set (k : string) (v : V) (m : JsMap) : JsMap :=
  match m with
  | [] => [(k, v)]
  | (k', v') :: m' =>
      if String.eqb k k' then (k', v) :: m' else (k', v') :: set k v m'
  end.

(** [Array.from(m.values())]. *)
Definition values (m : JsMap) : list V := map snd m.
End JsMap.
Arguments JsMap : clear implicits.

End Js.

(** ** Data model ([types.ts]) *)

Module Employee.
Record t : Type := mk {
  id : Js.JsId;
  first_name : option string;
  last_name : option string;
  email : option string;
  program : option string;
  avatar_url : option string;
  full_name : option string;
  employee_name : option string;
  name : option string;
  program_name : option string;
  cohort : option string;
  company : option string;
  company_email : option string
}.
End Employee.

Module Session.
Record t : Type := mk {
  id : Js.JsId;
  employee_id : Js.JsId;
  (** the [Date] that [new Date(session_date)] builds *)
  session_date : Js.JsDate;
  status : option string;
  employee_manager : option Employee.t;
  program_name : option string;
  program : option string;
  cohort : option string;
  employee_name : option string
}.
End Session.

Module CompetencyScore.
Record t : Type := mk {
  email : option string;
  program : option string;
  competency : string;
  pre : Js.JsNum;
  post : Js.JsNum;
  feedback_learned : option string;
  feedback_insight : option string;
  feedback_suggestions : option string
}.
End CompetencyScore.

Module SurveyResponse.
Record t : Type := mk {
  email : option string;
  nps : option Js.JsNum;
  coach_satisfaction : option Js.JsNum;
  feedback_learned : option string;
  feedback_insight : option string;
  feedback_suggestions : option string
}.
End SurveyResponse.

Module ProgramConfig.
Record t : Type := mk {
  account_name : option string;
  sessions_per_employee : option Js.JsNum
}.
End ProgramConfig.

(** The three feedback fields shared by score and survey records, as read by
    the quote extractor. *)
Record Feedback : Type := mkFeedback {
  fb_learned : option string;
  fb_insight : option string;
  fb_suggestions : option string
}.

Definition score_feedback (c : CompetencyScore.t) : Feedback :=
  mkFeedback (CompetencyScore.feedback_learned c)
             (CompetencyScore.feedback_insight c)
             (CompetencyScore.feedback_suggestions c).

Definition survey_feedback (r : SurveyResponse.t) : Feedback :=
  mkFeedback (SurveyResponse.feedback_learned r)
             (SurveyResponse.feedback_insight r)
             (SurveyResponse.feedback_suggestions r).

(** ** Net promoter score, shared verbatim by both dashboards *)

(** [rs.filter(r => r.nps !== null && r.nps !== undefined).map(r => r.nps!)] *)
Definition npsScores (rs : list SurveyResponse.t) : list Js.JsNum :=
  omap SurveyResponse.nps rs.

Definition promoters (scores : list Js.JsNum) : nat :=
  length (filter (λ s, Js.geb s (Js.of_Z 9) = true) scores).

Definition detractors (scores : list Js.JsNum) : nat :=
  length (filter (λ s, Js.leb s (Js.of_Z 6) = true) scores).

(** [null] is [None]. *)
Definition nps (rs : list SurveyResponse.t) : option Js.JsNum :=
  let scores := npsScores rs in
  if (0 <? length scores)%nat
  then Some (Js.Math_round
               (Js.mul64 (Js.div64 (Js.sub64 (Js.of_nat (promoters scores))
                                             (Js.of_nat (detractors scores)))
                                   (Js.of_nat (length scores)))
                         (Js.of_Z 100)))
  else None.

(** ** [components/SessionDashboard.tsx] *)

Module SessionDashboard.

Inductive FilterType : Type := FProgram | FCohort | FAll.

Record Stat : Type := mkStat {
  id : Js.JsId;
  name : string;
  program : string;
  cohort : string;
  avatar_url : option string;
  completed : nat;
  noshow : nat;
  scheduled : nat;
  total : nat;
  latestSession : option Js.JsDate;
  email : option string
}.

(** Assignments to the fields of an entry. *)
Definition set_cohort (e : Stat) (c : string) : Stat :=
  mkStat (id e) (name e) (program e) c (avatar_url e)
         (completed e) (noshow e) (scheduled e) (total e) (latestSession e) (email e).
Definition set_program (e : Stat) (p : string) : Stat :=
  mkStat (id e) (name e) p (cohort e) (avatar_url e)
         (completed e) (noshow e) (scheduled e) (total e) (latestSession e) (email e).
Definition set_email (e : Stat) (m : option string) : Stat :=
  mkStat (id e) (name e) (program e) (cohort e) (avatar_url e)
         (completed e) (noshow e) (scheduled e) (total e) (latestSession e) m.
Definition set_counts (e : Stat) (c n s t : nat) : Stat :=
  mkStat (id e) (name e) (program e) (cohort e) (avatar_url e)
         c n s t (latestSession e) (email e).
Definition set_latestSession (e : Stat) (d : option Js.JsDate) : Stat :=
  mkStat (id e) (name e) (program e) (cohort e) (avatar_url e)
         (completed e) (noshow e) (scheduled e) (total e) d (email e).

Section Aggregation.
Variable hiddenEmployees : gset string.
Variable filterType : FilterType.
Variable filterValue : string.
(** the reading of the clock, [new Date()] *)
Variable now : Z.

(** [hiddenEmployees.has(String(i))] *)
Definition hidden (i : Js.JsId) : bool :=
  bool_decide (Js.id_to_string i ∈ hiddenEmployees).

(** *** 1. Initialize from the roster *)

(** [emp.full_name || emp.employee_name || emp.name || 'Unknown'] *)
Definition rosterName (emp : Employee.t) : string :=
  Js.or_lit (Js.or (Js.or (Employee.full_name emp) (Employee.employee_name emp))
                   (Employee.name emp))
            "Unknown".

(** The body of [employees.forEach(emp => ...)]; a [return] leaves the map
    as it is. *)
Definition seedEmployee (statsMap : Js.JsMap Stat) (emp : Employee.t) : Js.JsMap Stat :=
  let name := rosterName emp in
  if String.eqb (Js.toLowerCase name) "kimberly genes" then statsMap
  else if hidden (Employee.id emp) then statsMap
  else
    Js.set (Js.toLowerCase name)
      {| id := Employee.id emp;
         name := name;
         program := Js.or_lit (Js.or (Employee.program emp) (Employee.program_name emp))
                              "Unassigned";
         cohort := Js.or_lit (Js.or (Employee.cohort emp) (Employee.program_name emp)) "";
         avatar_url := Employee.avatar_url emp;
         completed := 0; noshow := 0; scheduled := 0; total := 0;
         latestSession := None;
         email := Js.or (Employee.email emp) (Employee.company_email emp) |}
      statsMap.

(** *** 2. Process sessions *)

(** A template literal prints a missing value as [undefined]. *)
Definition interpolate (o : option string) : string :=
  match o with Some s => s | None => "undefined" end.

(** [emp?.full_name || emp?.first_name ? `...`.trim() : (employee_name || ...)];
    the conditional binds weaker than [||]. *)
Definition sessionName (session : Session.t) : string :=
  match Session.employee_manager session with
  | Some emp =>
      if Js.truthy (Js.or (Employee.full_name emp) (Employee.first_name emp))
      then Js.trim (interpolate (Employee.first_name emp) +:+ " " +:+
                    Js.or_lit (Employee.last_name emp) "")
      else Js.or_lit (Session.employee_name session) "Unknown Employee"
  | None => Js.or_lit (Session.employee_name session) "Unknown Employee"
  end.

(** [session.program_name || session.program || ''] *)
Definition sessionProgram (session : Session.t) : string :=
  Js.or_lit (Js.or (Session.program_name session) (Session.program session)) "".

(** [session.cohort || session.program_name || ''] *)
Definition sessionCohort (session : Session.t) : string :=
  Js.or_lit (Js.or (Session.cohort session) (Session.program_name session)) "".

(** The flag [includeSession]: cleared when the filter is a program or a
    cohort and the field differs ([!==]) from the filter value. *)
Definition includeSession (session : Session.t) : bool :=
  match filterType with
  | FProgram => String.eqb (sessionProgram session) filterValue
  | FCohort => String.eqb (sessionCohort session) filterValue
  | FAll => true
  end.

(** [emp?.email || emp?.company_email] *)
Definition managerEmail (session : Session.t) : option string :=
  match Session.employee_manager session with
  | Some emp => Js.or (Employee.email emp) (Employee.company_email emp)
  | None => None
  end.

(** "Update entry metadata if missing". *)
Definition backfill (session : Session.t) (entry : Stat) : Stat :=
  let e1 := if String.eqb (cohort entry) "" && negb (String.eqb (sessionCohort session) "")
            then set_cohort entry (sessionCohort session) else entry in
  let e2 := if String.eqb (program e1) "Unassigned"
               && negb (String.eqb (sessionProgram session) "")
            then set_program e1 (sessionProgram session) else e1 in
  if negb (Js.truthy (email e2)) && Js.truthy (managerEmail session)
  then set_email e2 (managerEmail session) else e2.

(** [(session.status || '').toLowerCase()] *)
Definition statusRaw (session : Session.t) : string :=
  Js.toLowerCase (Js.or_lit (Session.status session) "").

(** "Only count the session stats if it passes the filter". *)
Definition countSession (session : Session.t) (entry : Stat) : Stat :=
  let status := statusRaw session in
  let sessionDate := Session.session_date session in
  let isPast := Js.before_now sessionDate now in
  let t := total entry + 1 in
  let e1 :=
    if Js.includes status "no show" || Js.includes status "noshow"
       || Js.includes status "late cancel"
    then set_counts entry (completed entry) (noshow entry + 1) (scheduled entry) t
    else if Js.includes status "completed" || (String.eqb status "" && isPast)
    then set_counts entry (completed entry + 1) (noshow entry) (scheduled entry) t
    else set_counts entry (completed entry) (noshow entry) (scheduled entry + 1) t in
  match latestSession e1 with
  | None => set_latestSession e1 (Some sessionDate)
  | Some latest =>
      if Js.date_ltb latest sessionDate
      then set_latestSession e1 (Some sessionDate) else e1
  end.

(** The body of [sessions.forEach(session => ...)].  The entry fetched with
    [statsMap.get(key)] is the object stored in the map, so its updates are
    written back under the same key. *)
Definition processSession (statsMap : Js.JsMap Stat) (session : Session.t)
  : Js.JsMap Stat :=
  let emp := Session.employee_manager session in
  let name := sessionName session in
  if String.eqb (Js.toLowerCase name) "kimberly genes" then statsMap
  else if Js.id_truthy (Session.employee_id session) && hidden (Session.employee_id session)
  then statsMap
  else
    let key := Js.toLowerCase name in
    let adHocId := Js.id_or (Session.employee_id session) (Session.id session) in
    if negb (Js.has key statsMap) && hidden adHocId then statsMap
    else
      let statsMap1 :=
        if Js.has key statsMap then statsMap
        else Js.set key
               {| id := adHocId;
                  name := name;
                  program := Js.or_lit (Some (sessionProgram session)) "Unassigned";
                  cohort := sessionCohort session;
                  avatar_url := emp ≫= Employee.avatar_url;
                  completed := 0; noshow := 0; scheduled := 0; total := 0;
                  latestSession := None;
                  email := managerEmail session |}
               statsMap in
      match Js.get key statsMap1 with
      | Some entry =>
          let entry1 := backfill session entry in
          let entry2 := if includeSession session
                        then countSession session entry1 else entry1 in
          Js.set key entry2 statsMap1
      | None => statsMap1
      end.

Definition statsMap (employees : list Employee.t) (sessions : list Session.t)
  : Js.JsMap Stat :=
  fold_left processSession sessions (fold_left seedEmployee employees []).

Definition aggregatedStats (employees : list Employee.t) (sessions : list Session.t)
  : list Stat :=
  Js.values (statsMap employees sessions).

(** *** Displayed employees *)

Variable searchTerm : string.

(** [matchesContext] of the row filter. *)
Definition matchesContext (stat : Stat) : bool :=
  if (0 <? total stat)%nat then true
  else match filterType with
       | FAll => true
       | FProgram => String.eqb (program stat) filterValue
       | FCohort => String.eqb (cohort stat) filterValue
       end.

Definition filteredData (stats : list Stat) : list Stat :=
  filter (λ stat, Js.includes (Js.toLowerCase (name stat)) (Js.toLowerCase searchTerm)
                  && matchesContext stat = true) stats.

(** *** Derived KPIs *)

Definition totalEmployees (rows : list Stat) : nat := length rows.

Definition engagedEmployees (rows : list Stat) : nat :=
  length (filter (λ e, (0 < total e)%nat) rows).

Definition adoptionRate (rows : list Stat) : Js.JsNum :=
  if (0 <? totalEmployees rows)%nat
  then Js.Math_round (Js.mul64 (Js.div64 (Js.of_nat (engagedEmployees rows))
                                         (Js.of_nat (totalEmployees rows)))
                               (Js.of_Z 100))
  else Js.of_Z 0.

(** *** Survey metrics *)

Definition lowerEmail (o : option string) : option string :=
  Js.toLowerCase <$> o.

Definition filteredSurveys (rows : list Stat) (surveys : list SurveyResponse.t)
  : list SurveyResponse.t :=
  let validEmails : list string :=
    omap (λ e, if Js.truthy (lowerEmail (email e)) then lowerEmail (email e) else None)
         rows in
  filter (λ s, match filterType with
               | FAll => true
               | _ => Js.truthy (SurveyResponse.email s) &&
                      bool_decide (Js.toLowerCase (Js.or_lit (SurveyResponse.email s) "")
                                   ∈ validEmails)
               end = true) surveys.

Definition surveyNps (rows : list Stat) (surveys : list SurveyResponse.t)
  : option Js.JsNum :=
  nps (filteredSurveys rows surveys).

(** [filteredData.reduce((acc, curr) => acc + curr.total, 0)] *)
Definition totalSessions (rows : list Stat) : nat :=
  fold_left (λ acc curr, acc + total curr) rows 0.

(** [filteredData.reduce((acc, curr) => acc + curr.completed, 0)] *)
Definition totalCompleted (rows : list Stat) : nat :=
  fold_left (λ acc curr, acc + completed curr) rows 0.

(** *** Sessions handed to the detail modal of a row *)

(** [s.employee_name || s.employee_manager?.full_name || ''] *)
Definition modalName (s : Session.t) : string :=
  Js.or_lit (Js.or (Session.employee_name s)
                   (Session.employee_manager s ≫= Employee.full_name)) "".

Definition nameMatch (selectedStat : Stat) (s : Session.t) : bool :=
  String.eqb (Js.trim (Js.toLowerCase (modalName s)))
             (Js.trim (Js.toLowerCase (name selectedStat))).

(** [s.employee_id && selectedStat.id
     && String(s.employee_id) === String(selectedStat.id)
     && !String(selectedStat.id).startsWith('gen-')] *)
Definition idMatch (selectedStat : Stat) (s : Session.t) : bool :=
  Js.id_truthy (Session.employee_id s) && Js.id_truthy (id selectedStat)
  && String.eqb (Js.id_to_string (Session.employee_id s)) (Js.id_to_string (id selectedStat))
  && negb (String.prefix "gen-" (Js.id_to_string (id selectedStat))).

(** The predicate of [sessions.filter(...)] passed to [EmployeeDetailModal];
    its [matchesFilter] repeats the test of [includeSession]. *)
Definition modalSessions (selectedStat : Stat) (sessions : list Session.t)
  : list Session.t :=
  filter (λ s, (nameMatch selectedStat s || idMatch selectedStat s)
               && includeSession s = true) sessions.

End Aggregation.

End SessionDashboard.

(** *** [SimpleTrendChart]: completed sessions per calendar month *)

Module SimpleTrendChart.
Import SessionDashboard.

Record Point : Type := mkPoint { label : string; value : nat }.

Section ChartData.
Variable filterType : FilterType.
Variable filterValue : string.
Variable now : Z.
(** [new Date(year, monthIndex).toLocaleString('default',
    { month: 'short', year: '2-digit' })]: the text is produced by the
    runtime for the locale of the browser.  [None] is [NaN]. *)
Variable monthYearLabel : option Z → option Z → string.

(** The predicate of [sessions.filter(...)]; [s.cohort || s.program_name]
    has no default here and is [undefined] when both are missing. *)
Definition passesFilter (s : Session.t) : bool :=
  match filterType with
  | FAll => true
  | FProgram =>
      String.eqb (Js.or_lit (Js.or (Session.program_name s) (Session.program s)) "")
                 filterValue
  | FCohort =>
      match Js.or (Session.cohort s) (Session.program_name s) with
      | Some c => String.eqb c filterValue
      | None => false
      end
  end.

Definition status (s : Session.t) : string :=
  Js.toLowerCase (Js.or_lit (Session.status s) "").

Definition isNoShow (s : Session.t) : bool :=
  Js.includes (status s) "no show" || Js.includes (status s) "noshow"
  || Js.includes (status s) "late cancel".

Definition countsAsCompleted (s : Session.t) : bool :=
  negb (isNoShow s)
  && (Js.includes (status s) "completed"
      || (String.eqb (status s) "" && Js.before_now (Session.session_date s) now)).

(** [monthlyCounts[key] = (monthlyCounts[key] || 0) + 1] for a session that
    counts as completed. *)
Definition bump (monthlyCounts : gmap string nat) (s : Session.t) : gmap string nat :=
  if countsAsCompleted s
  then let key := Js.monthKey (Session.session_date s) in
       <[key := default 0 (monthlyCounts !! key) + 1]> monthlyCounts
  else monthlyCounts.

Definition monthlyCounts (sessions : list Session.t) : gmap string nat :=
  fold_left bump (filter (λ s, passesFilter s = true) sessions) ∅.

(** [Object.keys(monthlyCounts).sort()] *)
Definition sortedKeys (counts : gmap string nat) : list string :=
  merge_sort String.le (map fst (map_to_list counts)).

(** [const [year, month] = key.split('-')] and the label of
    [new Date(parseInt(year), parseInt(month) - 1)]. *)
Definition keyLabel (key : string) : string :=
  let parts := Js.split "-" key in
  let year := parts !! 0 ≫= Js.parseInt in
  let month := parts !! 1 ≫= Js.parseInt in
  monthYearLabel year ((λ m, m - 1)%Z <$> month).

Definition chartData (sessions : list Session.t) : list Point :=
  if (length sessions =? 0)%nat then []
  else
    let counts := monthlyCounts sessions in
    map (λ key, {| label := keyLabel key; value := default 0 (counts !! key) |})
        (sortedKeys counts).
End ChartData.

(** The abbreviated month names of English. *)
Definition monthNames : list string :=
  ["Jan"; "Feb"; "Mar"; "Apr"; "May"; "Jun";
   "Jul"; "Aug"; "Sep"; "Oct"; "Nov"; "Dec"].

(** A month abbreviation, a separator and the last two digits of the year.
    [new Date(y, m)] carries a month index outside 0..11 into the year and
    reads a year 0..99 as 1900 + year; a [NaN] argument makes the date
    invalid. *)
Definition monthYearText (separator : string) (year month : option Z) : string :=
  match year, month with
  | Some y, Some m =>
      let y0 := if (0 <=? y)%Z && (y <=? 99)%Z then (1900 + y)%Z else y in
      let months := (y0 * 12 + m)%Z in
      let yy := ((months / 12) mod 100)%Z in
      default "" (monthNames !! Z.to_nat (months mod 12))
      +:+ separator +:+ Js.padStart (Js.Z_to_string yy) 2 "0"
  | _, _ => "Invalid Date"
  end.

(** [toLocaleString('default', { month: 'short', year: '2-digit' })] where
    the default locale of the runtime is en-US: the date pattern of that
    locale for an abbreviated month and a two-digit year is [MMM yy], as in
    [Jan 24]. *)
Definition toLocaleString_enUS : option Z → option Z → string :=
  monthYearText " ".

(** The text of a label in the words of the spec, which gives the shape
    [Mon 'YY], as in [Jan '24]; kept for the comparison with the label the
    program produces. *)
Definition shortMonthYear : option Z → option Z → string :=
  monthYearText " '".

End SimpleTrendChart.

(** ** [components/HomeDashboard.tsx] *)

Module HomeDashboard.

(** [(str || '').toLowerCase().trim()] *)
Definition normalize (str : option string) : string :=
  Js.trim (Js.toLowerCase (Js.or_lit str "")).

(** *** [getQualityQuotes] *)

Definition positiveKeywords : list string :=
  ["help"; "learn"; "better"; "insight"; "valu"; "support"; "guid"; "great";
   "lov"; "amaz"; "chang"; "grow"; "confiden"; "clarity"; "understand";
   "perspect"; "progress"; "thank"; "appreciat"; "impact"; "positive";
   "enjoy"; "goal"; "motivat"].

Definition negativeKeywords : list string :=
  ["i don't know"; "not sure"; "nothing"; "n/a"; "none"; "issue"; "problem";
   "waste"; "bad"; "difficult"; "boring"].

Definition actionWords : list string :=
  ["learned"; "now"; "started"; "stopped"; "realized"; "developed";
   "changed"; "improved"].

(** [d.feedback_learned || d.feedback_insight || d.feedback_suggestions] *)
Definition feedbackText (d : Feedback) : option string :=
  Js.or (Js.or (fb_learned d) (fb_insight d)) (fb_suggestions d).

(** The tests of the filter stage on a text that is present. *)
Definition acceptable (text : string) : bool :=
  if (String.length text <? 20)%nat then false
  else
    let lower := Js.toLowerCase text in
    if Js.includes_any lower negativeKeywords then false
    else if negb (Js.includes_any lower positiveKeywords) then false
    else true.

(** The predicate of [data.filter(...)]; [!text] rejects a missing or
    empty text. *)
Definition keeps (d : Feedback) : bool :=
  match feedbackText d with
  | Some text => if String.eqb text "" then false else acceptable text
  | None => false
  end.

(** [actionWords.filter(w => text.toLowerCase().includes(w)).length] *)
Definition actionScore (text : string) : nat :=
  length (filter (λ w, Js.includes (Js.toLowerCase text) w = true) actionWords).

(** [Array.prototype.sort] is stable: with the comparator
    [(a, b) => score b - score a] a text is placed behind every earlier
    text whose score is not smaller. *)
Fixpoint insertByScore (x : string) (sorted : list string) : list string :=
  match sorted with
  | [] => [x]
  | y :: rest =>
      if (actionScore y <? actionScore x)%nat then x :: y :: rest
      else y :: insertByScore x rest
  end.

Definition sortByScore (texts : list string) : list string :=
  fold_left (λ acc x, insertByScore x acc) texts [].

(** [data.filter(...).map(...).sort(...).slice(0, 3)] *)
Definition getQualityQuotes (data : list Feedback) : list string :=
  take 3 (sortByScore
            (omap feedbackText (filter (λ d, keeps d = true) data))).

(** *** [stats] *)

Record SkillAcc : Type := mkSkillAcc {
  skillSumPre : Js.JsNum;
  skillSumPost : Js.JsNum;
  skillCount : nat
}.

Record Skill : Type := mkSkill {
  skillName : string;
  skillAvgPre : Js.JsNum;
  skillAvgPost : Js.JsNum;
  pct : Js.JsNum
}.

(** Stable descending order on [pct], the comparator being
    [(a, b) => b.pct - a.pct]. *)
Fixpoint insertByPct (x : Skill) (sorted : list Skill) : list Skill :=
  match sorted with
  | [] => [x]
  | y :: rest =>
      if Js.ltb (pct y) (pct x) then x :: y :: rest
      else y :: insertByPct x rest
  end.

Section Stats.
Variable sessions : list Session.t.
Variable competencies : list CompetencyScore.t.
Variable surveys : list SurveyResponse.t.
Variable employees : list Employee.t.
Variable programConfig : list ProgramConfig.t.
Variable companyName : string.
Variable selectedCohort : string.
Variable now : Z.

Definition isAll : bool := String.eqb selectedCohort "All Cohorts".
Definition selNorm : string := normalize (Some selectedCohort).

(** "1. Filter sessions to the selected cohort" *)
Definition inCohort (s : Session.t) : bool :=
  if isAll then true
  else
    let pName := normalize (Session.program_name s) in
    let cName := normalize (Session.cohort s) in
    let pCode := normalize (Session.program s) in
    String.eqb pName selNorm || String.eqb cName selNorm || String.eqb pCode selNorm.

Definition cohortSessions : list Session.t :=
  filter (λ s, inCohort s = true) sessions.

(** [s.employee_id || s.employee_name || s.employee_manager?.full_name] *)
Definition participantKey (s : Session.t) : Js.JsId :=
  if Js.id_truthy (Session.employee_id s) then Session.employee_id s
  else if Js.truthy (Session.employee_name s)
  then Js.IdStr (Js.or_lit (Session.employee_name s) "")
  else match Session.employee_manager s ≫= Employee.full_name with
       | Some n => Js.IdStr n
       | None => Js.IdUndefined
       end.

(** "2. Identify employees who have sessions in this cohort (Active
    Participants)": the distinct truthy keys. *)
Definition cohortEmployeeIds : list Js.JsId :=
  remove_dups (filter (λ k, Js.id_truthy k = true) (map participantKey cohortSessions)).

Definition totalEmployeesCount : nat := length cohortEmployeeIds.

(** "3. Roster for Surveys/Other lookups" *)
Definition enrolled (e : Employee.t) : bool :=
  if isAll then true
  else
    let p := normalize (Employee.program e) in
    let pn := normalize (Employee.program_name e) in
    let c := normalize (Employee.cohort e) in
    String.eqb p selNorm || String.eqb pn selNorm || String.eqb c selNorm.

Definition enrolledEmployees : list Employee.t :=
  filter (λ e, enrolled e = true) employees.

(** The predicate of [completedSessionsCount]. *)
Definition countsAsCompleted (s : Session.t) : bool :=
  let status := Js.toLowerCase (Js.or_lit (Session.status s) "") in
  let isPast := Js.before_now (Session.session_date s) now in
  negb (Js.includes status "no show") && negb (Js.includes status "cancel")
  && (Js.includes status "completed" || (String.eqb status "" && isPast)).

Definition completedSessionsCount : nat :=
  length (filter (λ s, countsAsCompleted s = true) cohortSessions).

Definition scheduledSessionsCount : nat := length cohortSessions.

Definition cohortCompetencies : list CompetencyScore.t :=
  filter (λ c, (isAll || String.eqb (normalize (CompetencyScore.program c)) selNorm)
               = true) competencies.

(** "Determine if Cohort is Completed" *)
Definition participantCount : nat :=
  length (remove_dups (map CompetencyScore.email cohortCompetencies)).

Definition isCompleted : bool := negb isAll && (5 <=? participantCount)%nat.

(** "Get Session Count from Config" *)
Definition currentAccountName : string := Js.split_head companyName " - ".

Definition configMatches (p : ProgramConfig.t) : bool :=
  match ProgramConfig.account_name p with
  | Some a =>
      (negb (String.eqb a "") && String.eqb a currentAccountName)
      || (negb (String.eqb a "") && String.eqb a companyName)
  | None => false
  end.

Definition config : option ProgramConfig.t := find configMatches programConfig.

(** [config?.sessions_per_employee || 12] *)
Definition sessionsPerEmployee : Js.JsNum :=
  Js.num_or (config ≫= ProgramConfig.sessions_per_employee) (Js.of_Z 12).

Definition targetSessions : Js.JsNum :=
  Js.mul64 (Js.of_nat totalEmployeesCount) sessionsPerEmployee.

Definition progressPct : Js.JsNum :=
  if Js.gtb targetSessions (Js.of_Z 0)
  then Js.Math_min (Js.of_Z 100)
         (Js.Math_round
            (Js.mul64 (Js.div64 (Js.of_nat completedSessionsCount) targetSessions)
                      (Js.of_Z 100)))
  else Js.of_Z 0.

(** [reduce((acc, curr) => acc + (curr.pre || 0), 0)], and likewise for
    [post]. *)
Definition totalPre : Js.JsNum :=
  fold_left (λ acc curr, Js.add acc (Js.num_or (Some (CompetencyScore.pre curr))
                                               (Js.of_Z 0)))
            cohortCompetencies (Js.of_Z 0).

Definition totalPost : Js.JsNum :=
  fold_left (λ acc curr, Js.add acc (Js.num_or (Some (CompetencyScore.post curr))
                                               (Js.of_Z 0)))
            cohortCompetencies (Js.of_Z 0).

Definition growthPct : Js.JsNum :=
  if Js.gtb totalPre (Js.of_Z 0)
  then Js.mul (Js.div (Js.sub totalPost totalPre) totalPre) (Js.of_Z 100)
  else Js.of_Z 0.

(** [const utilizationRate = 100;] *)
Definition utilizationRate : Js.JsNum := Js.of_Z 100.

(** Per-competency growth of the home view ([topSkills]). *)
Definition addScore (compMap : Js.JsMap SkillAcc) (c : CompetencyScore.t)
  : Js.JsMap SkillAcc :=
  let key := CompetencyScore.competency c in
  let compMap1 :=
    if Js.has key compMap then compMap
    else Js.set key (mkSkillAcc (Js.of_Z 0) (Js.of_Z 0) 0) compMap in
  match Js.get key compMap1 with
  | Some entry =>
      Js.set key (mkSkillAcc (Js.add (skillSumPre entry) (CompetencyScore.pre c))
                             (Js.add (skillSumPost entry) (CompetencyScore.post c))
                             (skillCount entry + 1))
             compMap1
  | None => compMap1
  end.

Definition skillOf (kv : string * SkillAcc) : Skill :=
  let '(name, data) := kv in
  let avgPre := Js.div (skillSumPre data) (Js.of_nat (skillCount data)) in
  let avgPost := Js.div (skillSumPost data) (Js.of_nat (skillCount data)) in
  let pct := if Js.gtb avgPre (Js.of_Z 0)
             then Js.mul (Js.div (Js.sub avgPost avgPre) avgPre) (Js.of_Z 100)
             else Js.of_Z 0 in
  mkSkill name avgPre avgPost pct.

Definition topSkills : list Skill :=
  take 3 (fold_left (λ acc x, insertByPct x acc)
                    (map skillOf (fold_left addScore cohortCompetencies []))
                    []).

(** "Filter surveys" *)
Definition validEmails : list string :=
  omap (λ e, match Employee.email e with
             | Some m => if String.eqb (Js.toLowerCase m) "" then None
                         else Some (Js.toLowerCase m)
             | None => None
             end) enrolledEmployees.

Definition keepSurvey (s : SurveyResponse.t) : bool :=
  if negb (Js.truthy (SurveyResponse.email s)) then false
  else if isAll then true
  else if (length employees =? 0)%nat then true
  else if (length enrolledEmployees <? totalEmployeesCount)%nat then true
  else bool_decide (Js.toLowerCase (Js.or_lit (SurveyResponse.email s) "") ∈ validEmails).

Definition cohortSurveys : list SurveyResponse.t :=
  filter (λ s, keepSurvey s = true) surveys.

Definition homeNps : option Js.JsNum := nps cohortSurveys.

Definition quotes : list string :=
  if isCompleted
  then getQualityQuotes (map score_feedback cohortCompetencies)
  else getQualityQuotes (map survey_feedback cohortSurveys).

(** *** Derived cohort list *)

(** [s.program_name || s.cohort || s.program], kept when truthy. *)
Definition cohortLabel (s : Session.t) : option string :=
  let v := Js.or (Js.or (Session.program_name s) (Session.cohort s)) (Session.program s) in
  if Js.truthy v then v else None.

(** [['All Cohorts', ...Array.from(new Set(sessionCohorts)).sort()]] *)
Definition cohorts : list string :=
  "All Cohorts" :: merge_sort String.le (remove_dups (omap cohortLabel sessions)).

(** *** [getRecentActivity] *)

(** [status.includes('completed') || (!status && new Date(s.session_date) < new Date())] *)
Definition recentlyCompleted (s : Session.t) : bool :=
  let status := Js.toLowerCase (Js.or_lit (Session.status s) "") in
  Js.includes status "completed"
  || (String.eqb status "" && Js.before_now (Session.session_date s) now).

(** Stable order of [sort((a, b) => time b - time a)]: a session is placed
    behind every earlier one whose date is not older.  The order is the one
    of every stable sort when all dates are valid; with an invalid date the
    comparator yields [NaN] and the result of [Array.prototype.sort] is left
    to the runtime, of which this is one admissible choice. *)
Fixpoint insertByDate (x : Session.t) (sorted : list Session.t) : list Session.t :=
  match sorted with
  | [] => [x]
  | y :: rest =>
      if Js.date_ltb (Session.session_date y) (Session.session_date x)
      then x :: y :: rest
      else y :: insertByDate x rest
  end.

Definition sortByDate (l : list Session.t) : list Session.t :=
  fold_left (λ acc x, insertByDate x acc) l [].

(** The [for ... of] loop: [seen] holds the keys met so far, [n] is
    [deduped.length]; the loop stops once five sessions are kept. *)
Fixpoint dedupe (seen : list Js.JsId) (n : nat) (sorted : list Session.t)
  : list Session.t :=
  match sorted with
  | [] => []
  | session :: rest =>
      let key := participantKey session in
      if Js.id_truthy key && negb (bool_decide (key ∈ seen))
      then session :: (if (5 <=? n + 1)%nat then []
                       else dedupe (key :: seen) (n + 1) rest)
      else dedupe seen n rest
  end.

Definition getRecentActivity (l : list Session.t) : list Session.t :=
  dedupe [] 0 (sortByDate (filter (λ s, recentlyCompleted s = true) l)).

Definition recentSessions : list Session.t := getRecentActivity cohortSessions.

End Stats.

End HomeDashboard.

(** ** [components/ImpactDashboard.tsx] *)

Module ImpactDashboard.

Record Acc : Type := mkAcc {
  acc_name : string;
  sumPre : Js.JsNum;
  sumPost : Js.JsNum;
  count : nat
}.

Record CompetencyStat : Type := mkCompetencyStat {
  name : string;
  avgPre : Js.JsNum;
  avgPost : Js.JsNum;
  change : Js.JsNum;
  pctGrowth : Js.JsNum
}.

Definition normalize (str : option string) : string :=
  Js.trim (Js.toLowerCase (Js.or_lit str "")).

Definition filteredScores (selectedProgram : string) (scores : list CompetencyScore.t)
  : list CompetencyScore.t :=
  if String.eqb selectedProgram "All Programs" then scores
  else filter (λ s, String.eqb (normalize (CompetencyScore.program s))
                               (normalize (Some selectedProgram)) = true) scores.

(** [!isNaN(preVal) && !isNaN(postVal) && preVal > 0 && postVal > 0] *)
Definition valid (s : CompetencyScore.t) : bool :=
  negb (Js.isNaN (CompetencyScore.pre s)) && negb (Js.isNaN (CompetencyScore.post s))
  && Js.gtb (CompetencyScore.pre s) (Js.of_Z 0)
  && Js.gtb (CompetencyScore.post s) (Js.of_Z 0).

Definition accumulate (compMap : Js.JsMap Acc) (s : CompetencyScore.t) : Js.JsMap Acc :=
  if valid s then
    let key := CompetencyScore.competency s in
    let compMap1 :=
      if Js.has key compMap then compMap
      else Js.set key (mkAcc key (Js.of_Z 0) (Js.of_Z 0) 0) compMap in
    match Js.get key compMap1 with
    | Some entry =>
        Js.set key (mkAcc (acc_name entry)
                          (Js.add (sumPre entry) (CompetencyScore.pre s))
                          (Js.add (sumPost entry) (CompetencyScore.post s))
                          (count entry + 1))
               compMap1
    | None => compMap1
    end
  else compMap.

Definition compMap (scores : list CompetencyScore.t) : Js.JsMap Acc :=
  fold_left accumulate scores [].

Definition summarize (c : Acc) : CompetencyStat :=
  let avgPre := Js.div (sumPre c) (Js.of_nat (count c)) in
  let avgPost := Js.div (sumPost c) (Js.of_nat (count c)) in
  let change := Js.sub avgPost avgPre in
  let pctGrowth := if Js.gtb avgPre (Js.of_Z 0)
                   then Js.mul (Js.div change avgPre) (Js.of_Z 100)
                   else Js.of_Z 0 in
  mkCompetencyStat (acc_name c) avgPre avgPost change pctGrowth.

(** Stable descending order on [pctGrowth], the comparator being
    [(a, b) => b.pctGrowth - a.pctGrowth]. *)
Fixpoint insertByGrowth (x : CompetencyStat) (sorted : list CompetencyStat)
  : list CompetencyStat :=
  match sorted with
  | [] => [x]
  | y :: rest =>
      if Js.ltb (pctGrowth y) (pctGrowth x) then x :: y :: rest
      else y :: insertByGrowth x rest
  end.

Definition competencyStats (selectedProgram : string) (scores : list CompetencyScore.t)
  : list CompetencyStat :=
  fold_left (λ acc x, insertByGrowth x acc)
            (map summarize (Js.values (compMap (filteredScores selectedProgram scores))))
            [].

(** *** Interpretation of the leading competencies *)

(** [competencyStats.filter(c => c.change > 0).length] *)
Definition improvedCount (stats : list CompetencyStat) : nat :=
  length (filter (λ c, Js.gtb (change c) (Js.of_Z 0) = true) stats).

(** [competencyStats.slice(0, 2).map(c => c.name)] *)
Definition topCompetencies (stats : list CompetencyStat) : list string :=
  map name (take 2 stats).

(** [competencyStats.length > 0] *)
Definition hasImpactData (stats : list CompetencyStat) : bool :=
  (0 <? length stats)%nat.

Definition getInterpretation (topCompetencies : list string) : string :=
  match topCompetencies with
  | [] => ""
  | first :: _ =>
      let top := Js.toLowerCase first in
      if Js.includes top "delegation" || Js.includes top "accountability"
         || Js.includes top "feedback"
         || (Js.includes top "management" && negb (Js.includes top "change")
             && negb (Js.includes top "time"))
      then "These results suggest the program is particularly effective at building core management skills."
      else if Js.includes top "communication" || Js.includes top "influence"
              || Js.includes top "persuasion" || Js.includes top "relationship"
      then "These results suggest the program is particularly effective at enhancing interpersonal effectiveness."
      else if Js.includes top "strategic" || Js.includes top "planning"
              || Js.includes top "change management" || Js.includes top "execution"
      then "These results suggest the program is particularly effective at developing strategic leadership capabilities."
      else if Js.includes top "confidence" || Js.includes top "resilience"
              || Js.includes top "emotional" || Js.includes top "adaptability"
      then "These results suggest the program is particularly effective at strengthening personal effectiveness and resilience."
      else "These results suggest the program is effective at driving growth in key performance areas."
  end.

Definition interpretationText (selectedProgram : string) (scores : list CompetencyScore.t)
  : string :=
  getInterpretation (topCompetencies (competencyStats selectedProgram scores)).

End ImpactDashboard.

(** ** [lib/dataFetcher.ts]: ingestion of competency scores *)

Module DataFetcher.

(** A row of [competency_scores_grow] as the store returns it. *)
Record RawScore : Type := mkRawScore {
  raw_email : option string;
  raw_program : option string;
  raw_competency : string;
  raw_pre : Js.JsValue;
  raw_post : Js.JsValue;
  raw_feedback_learned : option string;
  raw_feedback_insight : option string;
  raw_feedback_suggestions : option string
}.

(** The [{ data, error }] pair of a query. *)
Inductive Response : Type :=
| Failed
| Rows (data : list RawScore).

(** [v !== null && v !== undefined ? Number(v) : 0] *)
Definition coerce (v : Js.JsValue) : Js.JsNum :=
  match v with
  | Js.VNull | Js.VUndefined => Js.of_Z 0
  | _ => Js.Number v
  end.

Definition ingest (d : RawScore) : CompetencyScore.t :=
  CompetencyScore.mk (raw_email d) (raw_program d) (raw_competency d)
                     (coerce (raw_pre d)) (coerce (raw_post d))
                     (raw_feedback_learned d) (raw_feedback_insight d)
                     (raw_feedback_suggestions d).

Definition getCompetencyScores (r : Response) : list CompetencyScore.t :=
  match r with
  | Failed => []
  | Rows data => map ingest data
  end.

(** *** [getEmployeeRoster] *)

(** The [{ data, error }] pair of the roster query. *)
Inductive RosterResponse : Type :=
| RosterFailed
| RosterRows (data : list Employee.t).

(** [d.first_name && d.last_name ? `${d.first_name} ${d.last_name}` : d.email] *)
Definition derivedName (d : Employee.t) : option string :=
  match Employee.first_name d, Employee.last_name d with
  | Some f, Some l =>
      if negb (String.eqb f "") && negb (String.eqb l "")
      then Some (f +:+ " " +:+ l) else Employee.email d
  | _, _ => Employee.email d
  end.

(** [{ ...d, full_name: ..., name: ..., employee_name: ... }] *)
Definition withDerivedNames (d : Employee.t) : Employee.t :=
  Employee.mk (Employee.id d) (Employee.first_name d) (Employee.last_name d)
              (Employee.email d) (Employee.program d) (Employee.avatar_url d)
              (derivedName d) (derivedName d) (derivedName d)
              (Employee.program_name d) (Employee.cohort d) (Employee.company d)
              (Employee.company_email d).

Definition getEmployeeRoster (r : RosterResponse) : list Employee.t :=
  match r with
  | RosterFailed => []
  | RosterRows data => map withDerivedNames data
  end.

(** *** [calculateStats] *)

Record DashboardStats : Type := mkDashboardStats {
  totalSessions : nat;
  completedSessions : nat;
  upcomingSessions : nat
}.

(** [(s.status || '').toLowerCase().includes('completed')] *)
Definition statsCompleted (s : Session.t) : bool :=
  Js.includes (Js.toLowerCase (Js.or_lit (Session.status s) "")) "completed".

(** [status === 'scheduled' && date >= now] *)
Definition statsUpcoming (now : Z) (s : Session.t) : bool :=
  String.eqb (Js.toLowerCase (Js.or_lit (Session.status s) "")) "scheduled"
  && Js.not_before (Session.session_date s) now.

Definition calculateStats (now : Z) (sessions : list Session.t) : DashboardStats :=
  {| totalSessions := length sessions;
     completedSessions := length (filter (λ s, statsCompleted s = true) sessions);
     upcomingSessions := length (filter (λ s, statsUpcoming now s = true) sessions) |}.

End DataFetcher.

(** ** [components/ExecutiveSignals.tsx]: phase of the program *)

Module ExecutiveSignals.

Inductive Phase : Type := Unknown | Early | Mid | Late.

(** [(1000 * 60 * 60 * 24)] *)
Definition msPerDay : Js.JsNum := Js.of_Z (1000 * 60 * 60 * 24).

Section ProgramPhase.
(** the time value of [today = new Date()] *)
Variable today : Z.

(** [Math.min(100, Math.max(0, (elapsedDays / totalDays) * 100))] *)
Definition progressPercent (startDate endDate : Js.JsDate) : Js.JsNum :=
  let totalDays :=
    Js.div64 (Js.sub64 (Js.getTime endDate) (Js.getTime startDate)) msPerDay in
  let elapsedDays :=
    Js.div64 (Js.sub64 (Js.of_Z today) (Js.getTime startDate)) msPerDay in
  Js.Math_min (Js.of_Z 100)
              (Js.Math_max (Js.of_Z 0)
                           (Js.mul64 (Js.div64 elapsedDays totalDays) (Js.of_Z 100))).

(** [startDate] and [endDate] are the results of
    [programConfig.program_start_date ? new Date(...) : null] and of its
    counterpart: [None] when the field is missing or empty. *)
Definition programPhase (startDate endDate : option Js.JsDate) : Phase :=
  match startDate, endDate with
  | Some s, Some e =>
      let p := progressPercent s e in
      if Js.leb p (Js.of_Z 33) then Early
      else if Js.leb p (Js.of_Z 66) then Mid
      else Late
  | _, _ => Unknown
  end.
End ProgramPhase.

End ExecutiveSignals.

(** ** [App.tsx]: the programs offered in the navigation *)

Module App.

(** The predicate of [.filter(p => p && p.trim().length > 0)]. *)
Definition keepsProgram (p : option string) : bool :=
  Js.truthy p && (0 <? String.length (Js.trim (Js.or_lit p "")))%nat.

(** [[...new Set(data.map(d => d.program_name).filter(...))].sort()] *)
Definition uniquePrograms (data : list (option string)) : list string :=
  merge_sort String.le
    (remove_dups (omap (λ p, if keepsProgram p then p else None) data)).

End App.

(** ** Vocabulary of the properties *)

Module Props.
Import SessionDashboard.

(** The counters of a rollup entry partition its total. *)
Definition partitioned (e : Stat) : Prop :=
  completed e + noshow e + scheduled e = total e.

(** The wording of the three status rules, on a lower-cased status. *)
Definition saysNoShow (status : string) : Prop :=
  Js.includes status "no show" = true ∨ Js.includes status "noshow" = true
  ∨ Js.includes status "late cancel" = true.

Definition saysCompleted (status : string) (isPast : bool) : Prop :=
  Js.includes status "completed" = true ∨ (status = "" ∧ isPast = true).

#[global] Instance saysNoShow_dec status : Decision (saysNoShow status).
Proof. unfold saysNoShow. apply _. Defined.

#[global] Instance saysCompleted_dec status isPast : Decision (saysCompleted status isPast).
Proof. unfold saysCompleted. apply _. Defined.

(** The utilization rate in the words of the spec: engaged people over
    the roster, times 100, rounded; 0 for an empty roster. *)
Definition spec_utilization (engaged roster : nat) : Js.JsNum :=
  if (roster =? 0)%nat then Js.of_Z 0
  else Js.of_Z (Js.round_half_up
                  (Qc_of_Z (Z.of_nat engaged) / Qc_of_Z (Z.of_nat roster) * Qc_of_Z 100)%Qc).

(** A displayed row with [t] counted sessions, all of them completed. *)
Definition rowWithTotal (t : nat) : Stat :=
  mkStat (Js.IdNum (Z.of_nat t)) "Row" "CP-0028" "CP-0028" None t 0 0 t None None.

(** Ten people, six of them with at least one session. *)
Definition tenRowsSixEngaged : list Stat :=
  map rowWithTotal [3; 1; 0; 2; 0; 5; 0; 1; 0; 4].

(** Thirty completed sessions spread over ten people. *)
Definition completedSessionOf (i : nat) : Session.t :=
  Session.mk (Js.IdNum (Z.of_nat i)) (Js.IdNum (Z.of_nat (1 + i mod 10)))
             (Js.Date 1704412800000 2024 0) (Some "Completed") None
             (Some "CP-0028") None None None.

Definition thirtySessionsTenPeople : list Session.t :=
  map completedSessionOf (seq 0 30).

(** What the quote extractor requires of a text it selects. *)
Definition selectable (text : string) : Prop :=
  (20 ≤ String.length text)%nat
  ∧ (∀ w, w ∈ HomeDashboard.negativeKeywords → Js.includes (Js.toLowerCase text) w = false)
  ∧ (∃ w, w ∈ HomeDashboard.positiveKeywords ∧ Js.includes (Js.toLowerCase text) w = true).

(** The cohort test in the words of the spec: the first populated field
    among program name, legacy program code and cohort is trimmed and
    compared, case-sensitively, with the filter value. *)
Definition spec_resolvedField (s : Session.t) : string :=
  Js.or_lit (Js.or (Js.or (Session.program_name s) (Session.program s))
                   (Session.cohort s)) "".

Definition spec_cohortMatch (s : Session.t) (value : string) : bool :=
  String.eqb (Js.trim (spec_resolvedField s)) (Js.trim value).

Definition sessionWith (program_name program cohort : option string) : Session.t :=
  Session.mk (Js.IdNum 1) (Js.IdNum 7) (Js.Date 1704412800000 2024 0)
             (Some "Completed") None program_name program cohort (Some "Ann Lee").

(** Only the cohort field is populated. *)
Definition sessionCohortOnly : Session.t := sessionWith None None (Some "CP-0028").

(** The program name carries surrounding blanks. *)
Definition sessionPadded : Session.t := sessionWith (Some " CP-0028 ") None None.

(** Program name and cohort differ. *)
Definition sessionTwoLabels : Session.t :=
  sessionWith (Some "CP-0028") None (Some "Spring").

Definition sessionExtra : Session.t := sessionWith (Some "CP-0028-extra") None None.

(** A fetched score row with the given raw pre and post values. *)
Definition rawScoreWith (pre post : Js.JsValue) : DataFetcher.RawScore :=
  DataFetcher.mkRawScore (Some "ann@example.com") (Some "CP-0028") "Strategic Thinking"
                         pre post None None None.

(** A score record of one participant for one competency. *)
Definition scoreOf (competency : string) (pre post : Z) : CompetencyScore.t :=
  CompetencyScore.mk (Some "ann@example.com") (Some "CP-0028") competency
                     (Js.of_Z pre) (Js.of_Z post) None None None.

(** Two records of one competency, pre 4 and post 5 each. *)
Definition bothAssessed : list CompetencyScore.t :=
  [scoreOf "Strategic Thinking" 4 5; scoreOf "Strategic Thinking" 4 5].

(** The same competency where the second participant has no post score yet:
    ingestion stores the missing value as 0. *)
Definition oneNotAssessed : list CompetencyScore.t :=
  [scoreOf "Strategic Thinking" 4 5; scoreOf "Strategic Thinking" 4 0].

(** A [JsNum] as the fraction it denotes. *)
Definition asFraction (x : Js.JsNum) : option Q :=
  match x with
  | Js.Fin q => Some (this q)
  | _ => None
  end.

(** The number of sessions that pass the cohort filter, count as completed
    for the trend chart and fall into the month [key]. *)
Definition completedInMonth (filterType : FilterType) (filterValue : string) (now : Z)
    (sessions : list Session.t) (key : string) : nat :=
  length (filter (λ s, SimpleTrendChart.passesFilter filterType filterValue s = true
                       ∧ SimpleTrendChart.countsAsCompleted now s = true
                       ∧ Js.monthKey (Session.session_date s) = key) sessions).

(** A session of cohort CP-0028 held on 2024-01-05, completed. *)
Definition januaryFifthCompleted : Session.t :=
  Session.mk (Js.IdNum 1) (Js.IdNum 7) (Js.Date 1704412800000 2024 0)
             (Some "Completed") None (Some "CP-0028") None None (Some "Ann Lee").

(** A session of the same cohort on 2024-01-20, a no-show. *)
Definition januaryTwentiethNoShow : Session.t :=
  Session.mk (Js.IdNum 2) (Js.IdNum 7) (Js.Date 1705708800000 2024 0)
             (Some "No Show") None (Some "CP-0028") None None (Some "Ann Lee").

(** Every month present in a table of counts has a positive count. *)
Definition positive (counts : gmap string nat) : Prop :=
  ∀ key n, counts !! key = Some n → (0 < n)%nat.

(** The valid records of one competency, and the left-to-right sum of a
    score over them. *)
Definition validRecords (competency : string) (scores : list CompetencyScore.t)
  : list CompetencyScore.t :=
  filter (λ s, ImpactDashboard.valid s = true ∧ CompetencyScore.competency s = competency)
         scores.

Definition sumOf (f : CompetencyScore.t → Js.JsNum) (records : list CompetencyScore.t)
  : Js.JsNum :=
  fold_left (λ acc s, Js.add acc (f s)) records (Js.of_Z 0).

(** What the accumulator of the impact view holds for a competency. *)
Definition expectedAcc (competency : string) (scores : list CompetencyScore.t)
  : option ImpactDashboard.Acc :=
  match validRecords competency scores with
  | [] => None
  | records =>
      Some (ImpactDashboard.mkAcc competency
              (sumOf CompetencyScore.pre records) (sumOf CompetencyScore.post records)
              (length records))
  end.

(** The program-progress formula in the words of the spec, over the size of
    the roster. *)
Definition spec_progress (completedCount rosterCount : nat) (sessionsPerPerson : Z)
  : Js.JsNum :=
  Js.Math_min (Js.of_Z 100)
    (Js.Math_round
       (Js.mul (Js.div (Js.of_nat completedCount)
                       (Js.mul (Js.of_nat rosterCount) (Js.of_Z sessionsPerPerson)))
               (Js.of_Z 100))).

(** A roster of ten people enrolled in CP-0028. *)
Definition rosterMember (i : nat) : Employee.t :=
  Employee.mk (Js.IdNum (Z.of_nat (1 + i))) (Some "Pat") (Some "Doe") None
              (Some "CP-0028") None (Some "Pat Doe") None None (Some "CP-0028") None
              (Some "Acme") None.

Definition tenEmployees : list Employee.t := map rosterMember (seq 0 10).

(** Thirty completed sessions held by six of them. *)
Definition completedSessionOfSix (i : nat) : Session.t :=
  Session.mk (Js.IdNum (Z.of_nat i)) (Js.IdNum (Z.of_nat (1 + i mod 6)))
             (Js.Date 1704412800000 2024 0) (Some "Completed") None
             (Some "CP-0028") None None None.

Definition thirtySessionsSixPeople : list Session.t :=
  map completedSessionOfSix (seq 0 30).

(** The program name is written in lower case. *)
Definition sessionLowerCase : Session.t := sessionWith (Some "cp-0028") None None.

(** *** Vocabulary of the rollup invariants *)

(** What holds of every entry [e] stored under [key] in the rollup map. *)
Definition rowInvariant (hiddenEmployees : gset string) (key : string) (e : Stat) : Prop :=
  key = Js.toLowerCase (name e)
  ∧ Js.toLowerCase (name e) ≠ "kimberly genes"
  ∧ (Js.id_to_string (id e) ∉ hiddenEmployees)
  ∧ (latestSession e = None ↔ total e = 0).

(** The identifier a session stands for: [session.employee_id || session.id]. *)
Definition personId (s : Session.t) : Js.JsId :=
  Js.id_or (Session.employee_id s) (Session.id s).

(** The session carries the suppressed name. *)
Definition suppressed (s : Session.t) : bool :=
  String.eqb (Js.toLowerCase (sessionName s)) "kimberly genes".

(** The sessions of a list that the rollup counts for the row stored under
    [key]: they resolve to that key and pass the filter. *)
Definition countedFor (filterType : FilterType) (filterValue : string) (key : string)
    (sessions : list Session.t) : list Session.t :=
  filter (λ s, Js.toLowerCase (sessionName s) = key
               ∧ includeSession filterType filterValue s = true) sessions.

Definition isNoShow (s : Session.t) : Prop := saysNoShow (statusRaw s).

Definition isCompleted (now : Z) (s : Session.t) : Prop :=
  ¬ saysNoShow (statusRaw s)
  ∧ saysCompleted (statusRaw s) (Js.before_now (Session.session_date s) now).

Definition isScheduled (now : Z) (s : Session.t) : Prop :=
  ¬ saysNoShow (statusRaw s)
  ∧ ¬ saysCompleted (statusRaw s) (Js.before_now (Session.session_date s) now).

#[global] Instance isNoShow_dec s : Decision (isNoShow s).
Proof. unfold isNoShow. apply _. Defined.

#[global] Instance isCompleted_dec now s : Decision (isCompleted now s).
Proof. unfold isCompleted. apply _. Defined.

#[global] Instance isScheduled_dec now s : Decision (isScheduled now s).
Proof. unfold isScheduled. apply _. Defined.

(** The counters of a row are the numbers of its counted sessions. *)
Definition rowCounts (now : Z) (mine : list Session.t) (e : Stat) : Prop :=
  total e = length mine
  ∧ noshow e = length (filter isNoShow mine)
  ∧ completed e = length (filter (isCompleted now) mine)
  ∧ scheduled e = length (filter (isScheduled now) mine).

(** The last-session date of a row: none without counted sessions, else the
    date of one of them that none of them exceeds. *)
Definition rowLatest (mine : list Session.t) (e : Stat) : Prop :=
  match latestSession e with
  | None => mine = []
  | Some d =>
      (∃ s, s ∈ mine ∧ Session.session_date s = d)
      ∧ ∀ s, s ∈ mine → Js.date_ltb d (Session.session_date s) = false
  end.

(** Nobody behind a session of the list is hidden. *)
Definition nobodyHidden (hiddenEmployees : gset string) (sessions : list Session.t) : Prop :=
  Forall (λ s, hidden hiddenEmployees (personId s) = false) sessions.

(** A roster of one and three of her sessions. *)
Definition annLee : Employee.t :=
  Employee.mk (Js.IdNum 7) (Some "Ann") (Some "Lee") (Some "ann@acme.test")
              (Some "CP-0028") None (Some "Ann Lee") None None (Some "CP-0028") None
              (Some "Acme") None.

Definition februaryScheduled : Session.t :=
  Session.mk (Js.IdNum 3) (Js.IdNum 7) (Js.Date 1707091200000 2024 1)
             (Some "Scheduled") None (Some "CP-0028") None None (Some "ann lee").

Definition annLeeSessions : list Session.t :=
  [januaryFifthCompleted; februaryScheduled; januaryTwentiethNoShow].

(** What the rollup map [m] holds once the sessions [l] are processed:
    every session that is not suppressed has its key in the map, and every
    entry is named by its key and counts the sessions of that key. *)
Definition rollupInvariant (filterType : FilterType) (filterValue : string) (now : Z)
    (l : list Session.t) (m : Js.JsMap Stat) : Prop :=
  (∀ s, s ∈ l → suppressed s = false → Js.has (Js.toLowerCase (sessionName s)) m = true)
  ∧ ∀ k e, Js.get k m = Some e →
      (k = Js.toLowerCase (name e) ∧ k ≠ "kimberly genes")
      ∧ rowCounts now (countedFor filterType filterValue k l) e
      ∧ rowLatest (countedFor filterType filterValue k l) e.

(** An entry without counted sessions. *)
Definition untouched (e : Stat) : Prop :=
  total e = 0 ∧ noshow e = 0 ∧ completed e = 0 ∧ scheduled e = 0
  ∧ latestSession e = None.

(** *** Vocabulary of the home view *)

(** The session has a valid date. *)
Definition dated (s : Session.t) : Prop := Session.session_date s ≠ Js.InvalidDate.

(** A session that [getRecentActivity] may show: completed, with a person
    to attribute it to. *)
Definition eligible (now : Z) (s : Session.t) : Prop :=
  HomeDashboard.recentlyCompleted now s = true
  ∧ Js.id_truthy (HomeDashboard.participantKey s) = true.

(** Completed sessions of two people, in no particular order: Ann Lee on
    2024-01-05 and on 2024-01-12, Bob Ray on 2024-01-09; and a no-show of
    Ann Lee on 2024-01-20. *)
Definition januaryTwelfthCompleted : Session.t :=
  Session.mk (Js.IdNum 4) (Js.IdNum 7) (Js.Date 1705017600000 2024 0)
             (Some "Completed") None (Some "CP-0028") None None (Some "Ann Lee").

Definition januaryNinthCompleted : Session.t :=
  Session.mk (Js.IdNum 5) (Js.IdNum 8) (Js.Date 1704758400000 2024 0)
             (Some "Completed") None (Some "CP-0028") None None (Some "Bob Ray").

Definition twoPeopleSessions : list Session.t :=
  [januaryFifthCompleted; januaryNinthCompleted; januaryTwentiethNoShow;
   januaryTwelfthCompleted].

(** *** Vocabulary of the impact view *)

(** Three competencies that grow by 25, 100 and 20 percent. *)
Definition threeCompetencies : list CompetencyScore.t :=
  [scoreOf "Strategic Thinking" 4 5; scoreOf "Communication" 2 4;
   scoreOf "Delegation" 5 6].

(** A number that is neither [NaN] nor infinite. *)
Definition finite (x : Js.JsNum) : Prop := ∃ q, x = Js.Fin q.

Definition finiteScores (scores : list CompetencyScore.t) : Prop :=
  Forall (λ s, finite (CompetencyScore.pre s) ∧ finite (CompetencyScore.post s)) scores.

(** [a] does not grow less than [b]: both growth rates are finite and the
    one of [a] is at least the one of [b]. *)
Definition growsAtLeast (a b : ImpactDashboard.CompetencyStat) : Prop :=
  ∃ qa qb, ImpactDashboard.pctGrowth a = Js.Fin qa
           ∧ ImpactDashboard.pctGrowth b = Js.Fin qb ∧ (qb ≤ qa)%Qc.

(** *** Vocabulary of the roster and of the detail modal *)

(** A session joined to the roster record [d] as the fetcher returns it. *)
Definition joinedTo (d : Employee.t) (s : Session.t) : Prop :=
  Session.employee_manager s = Some (DataFetcher.withDerivedNames d).

(** A completed session joined to the roster record of Ann Lee. *)
Definition joinedSession : Session.t :=
  Session.mk (Js.IdNum 4) (Js.IdNum 7) (Js.Date 1704412800000 2024 0)
             (Some "Completed") (Some (DataFetcher.withDerivedNames annLee))
             (Some "CP-0028") None None None.

(** The rollup and the detail modal resolve the person of the session to
    the same name. *)
Definition sameNameInModal (s : Session.t) : Prop := sessionName s = modalName s.

(** *** Vocabulary of numeric text *)

(** No character of the text is white space. *)
Fixpoint noSpace (s : string) : bool :=
  match s with
  | EmptyString => true
  | String c s' => negb (Ascii.is_space c) && noSpace s'
  end.


(** What identifies and describes the person of a row, as opposed to the
    counters and the last-session date. *)
Definition identity (e : Stat) : Js.JsId * string * string * string * option string
                                 * option string :=
  (id e, name e, program e, cohort e, avatar_url e, email e).

(** [a] is not earlier than [b]: both dates are valid and the time of [a]
    is at least the time of [b]. *)
Definition notEarlier (a b : Session.t) : Prop :=
  ∃ ta tb, Js.getTime (Session.session_date a) = Js.of_Z ta
           ∧ Js.getTime (Session.session_date b) = Js.of_Z tb ∧ (tb ≤ ta)%Z.
(** *** Vocabulary of the percentages *)

(** [Math.round((a / n) * 100)] on the counts [a] and [n], as the program
    evaluates it. *)
Definition percentage (a n : Z) : Js.JsNum :=
  Js.Math_round (Js.mul64 (Js.div64 (Js.of_Z a) (Js.of_Z n)) (Js.of_Z 100)).

(** The exact percentage [100 * a / n] lies halfway between two integers. *)
Definition endsInHalf (a n : Z) : Prop := ((200 * a + n) mod (2 * n) = 0)%Z.

(** The net promoter score in the words of the spec: promoters minus
    detractors over the respondents, times 100, rounded. *)
Definition spec_nps (promoters detractors respondents : nat) : option Js.JsNum :=
  if (respondents =? 0)%nat then None
  else Some (Js.of_Z (Js.round_half_up
                        (Qc_of_Z (Z.of_nat promoters - Z.of_nat detractors)
                         / Qc_of_Z (Z.of_nat respondents) * Qc_of_Z 100)%Qc)).

(** A response that carries the score [v] and nothing else. *)
Definition responseScoring (v : Z) : SurveyResponse.t :=
  SurveyResponse.mk None (Some (Js.of_Z v)) None None None None.

(** A ballot of promoters (scoring 10), passives (8) and detractors (3). *)
Definition ballot (promoters passives detractors : nat) : list SurveyResponse.t :=
  replicate promoters (responseScoring 10) ++ replicate passives (responseScoring 8)
  ++ replicate detractors (responseScoring 3).

(** Displayed rows of which the first [engaged] hold a session. *)
Definition rowsEngaged (engaged idle : nat) : list Stat :=
  replicate engaged (rowWithTotal 1) ++ replicate idle (rowWithTotal 0).

(** *** Vocabulary of the binary64 model *)

Definition sameNumber (x y : Js.JsNum) : bool :=
  (Js.isNaN x && Js.isNaN y) || Js.eqb x y.

(** The difference, the quotient and the percentage of two integers are
    those of the IEEE 754 reference model. *)
Definition agreesWithReference (a n : Z) : bool :=
  let x := Js.spec_float_of_Z a in
  let y := Js.spec_float_of_Z n in
  sameNumber (Js.sub64 (Js.of_Z a) (Js.of_Z n)) (Js.of_spec_float (SFsub 53 1024 x y))
  && sameNumber (Js.div64 (Js.of_Z a) (Js.of_Z n)) (Js.of_spec_float (SFdiv 53 1024 x y))
  && sameNumber (Js.mul64 (Js.div64 (Js.of_Z a) (Js.of_Z n)) (Js.of_Z 100))
       (Js.of_spec_float (SFmul 53 1024 (SFdiv 53 1024 x y) (Js.spec_float_of_Z 100))).

(** The rounding of [m * 2 ^ e] is that of the reference model. *)
Definition roundsAsReference (m e : Z) : bool :=
  sameNumber (Js.round64 (Q2Qc (inject_Z m * 2 ^ e)%Q))
             (Js.of_spec_float (binary_normalize 53 1024 m e false)).

(** The ratios [a / n] with [-n <= a <= n] for [n] up to 40, and some
    ratios of counts and of time values. *)
Definition sampleRatios : list (Z * Z) :=
  (n ← seq 1 40; a ← seq 0 (2 * n + 1); [((Z.of_nat a - Z.of_nat n)%Z, Z.of_nat n)])
  ++ [(13451088486, 86400000); (40760874200, 86400000); (9007199254740991, 86400000);
      (1, 9007199254740991); (9007199254740991, 3); (- 8640000000000000, 86400000);
      (123456789, 1000); (4294967295, 4294967294); (1, 4294967295)]%Z.

(** Numbers at the ends of the exponent range and at ties of the
    significand. *)
Definition sampleNumbers : list (Z * Z) :=
  [(1, -1074); (1, -1075); (3, -1075); (3, -1076); (5, -1076);
   (2 ^ 53 + 1, -1074); (2 ^ 53 + 1, -1080); (2 ^ 54 + 2, -1080); (2 ^ 54 + 6, -1080);
   (2 ^ 54 - 1, 970); (2 ^ 54 - 1, 969); (2 ^ 54 - 2, 969); (2 ^ 53 - 1, 971);
   (-7, -1076); (- 2 ^ 54 + 1, 970); (2 ^ 60 + 2 ^ 7, -1100);
   (2 ^ 60 + 2 ^ 7 + 1, -1100); (2 ^ 60 + 3 * 2 ^ 7, -1100);
   (2 ^ 53 + 1, 0); (2 ^ 53 + 3, 0); (1, 1023); (1, 1024)]%Z.

(** *** Vocabulary of the program phase *)

(** The elapsed share of the timeline is at most [c] percent, and it is
    above [c] percent, in both cases by more than the four roundings of its
    evaluation can move it: by [2 ^ -50] of itself. *)
Definition shareAtMost (c elapsed total : Z) : Prop :=
  ((2 ^ 50 + 1) * (100 * elapsed) ≤ 2 ^ 50 * (c * total))%Z.

Definition shareAbove (c elapsed total : Z) : Prop :=
  (2 ^ 50 * (c * total) < (2 ^ 50 - 1) * (100 * elapsed))%Z.

End Props.

(** ** Properties *)

(** *** Insertion-ordered maps *)

Section JsMapFacts.
Context {V : Type}.
Implicit Types (m : Js.JsMap V) (k : string) (v : V).

Lemma get_set_eq k v m : Js.get k (Js.set k v m) = Some v.
Proof.
  induction m as [|[k' v'] m IH]; simpl.
  - by rewrite String.eqb_refl.
  - destruct (String.eqb k k') eqn:E; simpl; rewrite E; [done | apply IH].
Qed.

Lemma get_set_ne k k' v m : k ≠ k' → Js.get k' (Js.set k v m) = Js.get k' m.
Proof.
  intros Hne. induction m as [|[k0 v0] m IH]; simpl.
  - destruct (String.eqb k' k) eqn:E; [|done].
    apply String.eqb_eq in E. congruence.
  - destruct (String.eqb k k0) eqn:E; simpl; [|by rewrite IH].
    apply String.eqb_eq in E. subst k0.
    destruct (String.eqb k' k) eqn:E'; [|done].
    apply String.eqb_eq in E'. congruence.
Qed.

Lemma values_set_Forall (P : V → Prop) k v m :
  P v → Forall P (Js.values m) → Forall P (Js.values (Js.set k v m)).
Proof.
  intros Hv. unfold Js.values.
  induction m as [|[k' v'] m IH]; simpl; intros Hm.
  - by constructor.
  - inversion_clear Hm as [|? ? Hv' Hm'].
    destruct (String.eqb k k'); simpl; constructor; auto.
Qed.

Lemma get_Forall (P : V → Prop) k v m :
  Forall P (Js.values m) → Js.get k m = Some v → P v.
Proof.
  unfold Js.values.
  induction m as [|[k' v'] m IH]; simpl; intros Hm Hget; [done|].
  inversion_clear Hm as [|? ? Hv' Hm'].
  destruct (String.eqb k k'); [by simplify_eq | by apply IH].
Qed.

Lemma fold_left_invariant {A} (I : Js.JsMap V → Prop) (f : Js.JsMap V → A → Js.JsMap V)
      (l : list A) m :
  (∀ m' a, I m' → I (f m' a)) → I m → I (fold_left f l m).
Proof. intros Hstep. revert m. induction l as [|a l IH]; simpl; auto. Qed.
End JsMapFacts.

(** *** The rollup keeps its counters partitioned *)

Section Rollup.
Import SessionDashboard Props.
Variable hiddenEmployees : gset string.
Variable filterType : FilterType.
Variable filterValue : string.
Variable now : Z.

Lemma backfill_counts session entry :
  let e := backfill session entry in
  completed e = completed entry ∧ noshow e = noshow entry
  ∧ scheduled e = scheduled entry ∧ total e = total entry.
Proof.
  unfold backfill.
  repeat match goal with |- context [if ?b then _ else _] => destruct b end;
    simpl; auto.
Qed.

Lemma backfill_partitioned session entry :
  partitioned entry → partitioned (backfill session entry).
Proof.
  unfold partitioned. intros H.
  destruct (backfill_counts session entry) as (-> & -> & -> & ->). exact H.
Qed.

Lemma saysNoShow_true st :
  saysNoShow st ↔
  Js.includes st "no show" || Js.includes st "noshow" || Js.includes st "late cancel" = true.
Proof. unfold saysNoShow. rewrite !orb_true_iff. tauto. Qed.

Lemma saysCompleted_true st isPast :
  saysCompleted st isPast ↔
  Js.includes st "completed" || (String.eqb st "" && isPast) = true.
Proof.
  unfold saysCompleted. by rewrite orb_true_iff, andb_true_iff, String.eqb_eq.
Qed.

Lemma countSession_counts session entry :
  let e := countSession now session entry in
  let st := statusRaw session in
  let isPast := Js.before_now (Session.session_date session) now in
  total e = total entry + 1 ∧
  (completed e, noshow e, scheduled e) =
    (if decide (saysNoShow st) then (completed entry, noshow entry + 1, scheduled entry)
     else if decide (saysCompleted st isPast)
          then (completed entry + 1, noshow entry, scheduled entry)
          else (completed entry, noshow entry, scheduled entry + 1)).
Proof.
  unfold countSession. cbv zeta.
  set (st := statusRaw session).
  set (isPast := Js.before_now _ _).
  pose proof (saysNoShow_true st) as Hn.
  pose proof (saysCompleted_true st isPast) as Hc.
  set (b1 := _ || _ || Js.includes st "late cancel") in *.
  set (b2 := Js.includes st "completed" || _) in *.
  assert (Hlatest : ∀ e : Stat,
    let e' := match latestSession e with
              | Some latest =>
                  if Js.date_ltb latest (Session.session_date session)
                  then set_latestSession e (Some (Session.session_date session)) else e
              | None => set_latestSession e (Some (Session.session_date session))
              end in
    total e' = total e ∧ completed e' = completed e
    ∧ noshow e' = noshow e ∧ scheduled e' = scheduled e).
  { intros e. cbv zeta. destruct (latestSession e); [destruct (Js.date_ltb _ _)|]; done. }
  match goal with
  | |- context [match latestSession ?e with _ => _ end] =>
      destruct (Hlatest e) as (-> & -> & -> & ->)
  end.
  destruct b1.
  - rewrite decide_True by (by apply Hn). done.
  - rewrite decide_False by (rewrite Hn; done).
    destruct b2.
    + rewrite decide_True by (by apply Hc). done.
    + rewrite decide_False by (rewrite Hc; done). done.
Qed.

Lemma countSession_partitioned session entry :
  partitioned entry → partitioned (countSession now session entry).
Proof.
  unfold partitioned. intros H.
  destruct (countSession_counts session entry) as [Ht Hc]. cbv zeta in *.
  rewrite Ht.
  repeat case_decide; simplify_eq; lia.
Qed.

Lemma seedEmployee_partitioned m emp :
  Forall partitioned (Js.values m) →
  Forall partitioned (Js.values (seedEmployee hiddenEmployees m emp)).
Proof.
  intros Hm. unfold seedEmployee.
  destruct (String.eqb _ _); [done|].
  destruct (hidden _ _); [done|].
  apply values_set_Forall; [reflexivity | done].
Qed.

Lemma processSession_partitioned m session :
  Forall partitioned (Js.values m) →
  Forall partitioned
    (Js.values (processSession hiddenEmployees filterType filterValue now m session)).
Proof.
  intros Hm. unfold processSession. cbv zeta.
  destruct (String.eqb _ _); [done|].
  destruct (_ && _); [done|].
  destruct (negb _ && _); [done|].
  match goal with
  | |- context [Js.get ?k ?m1] =>
      assert (Hm1 : Forall partitioned (Js.values m1));
      [| destruct (Js.get k m1) as [entry|] eqn:Hget; [|exact Hm1] ]
  end.
  { destruct (Js.has _ _); [done|]. apply values_set_Forall; [reflexivity | done]. }
  apply values_set_Forall; [|done].
  pose proof (get_Forall _ _ _ _ Hm1 Hget) as He.
  destruct (includeSession _ _ _).
  - by apply countSession_partitioned, backfill_partitioned.
  - by apply backfill_partitioned.
Qed.

End Rollup.

(** C2. For every roster, every session list, every hidden set and every
    filter, each entry of the aggregated per-person statistics satisfies
    completed + noshow + scheduled = total. *)
Theorem aggregatedStats_counter_partition
    (hiddenEmployees : gset string) (filterType : SessionDashboard.FilterType)
    (filterValue : string) (now : Z)
    (employees : list Employee.t) (sessions : list Session.t) :
  Forall (λ e, SessionDashboard.completed e + SessionDashboard.noshow e
               + SessionDashboard.scheduled e = SessionDashboard.total e)
         (SessionDashboard.aggregatedStats hiddenEmployees filterType filterValue now
                                           employees sessions).
Proof.
  unfold SessionDashboard.aggregatedStats, SessionDashboard.statsMap.
  apply (fold_left_invariant (λ m, Forall Props.partitioned (Js.values m))).
  - intros m s Hm. by apply processSession_partitioned.
  - apply (fold_left_invariant (λ m, Forall Props.partitioned (Js.values m))).
    + intros m e Hm. by apply seedEmployee_partitioned.
    + constructor.
Qed.

(** C3. A session counted by the aggregator adds one to the total and to
    exactly one bucket, chosen by the first rule that matches its lower-cased
    status: no-show when it contains "no show", "noshow" or "late cancel";
    otherwise completed when it contains "completed", or is empty with the
    session date in the past; otherwise scheduled. *)
Theorem countSession_first_match_wins
    (now : Z) (session : Session.t) (entry : SessionDashboard.Stat) :
  let e := SessionDashboard.countSession now session entry in
  let st := Js.toLowerCase (Js.or_lit (Session.status session) "") in
  let isPast := Js.before_now (Session.session_date session) now in
  let noShow := Js.includes st "no show" = true ∨ Js.includes st "noshow" = true
                ∨ Js.includes st "late cancel" = true in
  let done := Js.includes st "completed" = true ∨ (st = "" ∧ isPast = true) in
  SessionDashboard.total e = SessionDashboard.total entry + 1
  ∧ (SessionDashboard.noshow e = SessionDashboard.noshow entry + 1
     ∧ SessionDashboard.completed e = SessionDashboard.completed entry
     ∧ SessionDashboard.scheduled e = SessionDashboard.scheduled entry
     ↔ noShow)
  ∧ (SessionDashboard.completed e = SessionDashboard.completed entry + 1
     ∧ SessionDashboard.noshow e = SessionDashboard.noshow entry
     ∧ SessionDashboard.scheduled e = SessionDashboard.scheduled entry
     ↔ ¬ noShow ∧ done)
  ∧ (SessionDashboard.scheduled e = SessionDashboard.scheduled entry + 1
     ∧ SessionDashboard.completed e = SessionDashboard.completed entry
     ∧ SessionDashboard.noshow e = SessionDashboard.noshow entry
     ↔ ¬ noShow ∧ ¬ done).
Proof.
  intros e st isPast noShow done.
  destruct (countSession_counts now session entry) as [Ht Hc].
  fold e in Ht, Hc. cbv zeta in Hc.
  change (SessionDashboard.statusRaw session) with st in Hc.
  change (Props.saysNoShow st) with noShow in Hc.
  change (Props.saysCompleted st (Js.before_now (Session.session_date session) now))
    with done in Hc.
  split; [exact Ht|].
  repeat case_decide; simplify_eq; repeat split; intros; try tauto; try lia;
    repeat match goal with H : _ ∧ _ |- _ => destruct H end; try lia; tauto.
Qed.

(** *** Arithmetic of the number model *)

Section Numbers.

Lemma Qc_of_Z_plus a b : (Qc_of_Z a + Qc_of_Z b)%Qc = Qc_of_Z (a + b).
Proof. apply Qc_is_canon. simpl. rewrite Qred_correct. by rewrite inject_Z_plus. Qed.

Lemma Qc_of_Z_opp a : (- Qc_of_Z a)%Qc = Qc_of_Z (- a).
Proof. apply Qc_is_canon. simpl. rewrite Qred_correct. by rewrite inject_Z_opp. Qed.

Lemma Qc_of_Z_mult a b : (Qc_of_Z a * Qc_of_Z b)%Qc = Qc_of_Z (a * b).
Proof. apply Qc_is_canon. simpl. rewrite Qred_correct. by rewrite inject_Z_mult. Qed.

Lemma Qc_of_Z_inj a b : Qc_of_Z a = Qc_of_Z b → a = b.
Proof. intros H. apply (f_equal this) in H. simpl in H. by injection H. Qed.

Lemma Qc_of_Z_0 : Qc_of_Z 0 = 0%Qc.
Proof. by apply Qc_is_canon. Qed.

Lemma Qc_of_Z_neq_0 a : a ≠ 0%Z → Qc_of_Z a ≠ 0%Qc.
Proof. rewrite <- Qc_of_Z_0. intros Ha H. by apply Qc_of_Z_inj in H. Qed.

Lemma Qc_of_Z_lt a b : (Qc_of_Z a < Qc_of_Z b)%Qc ↔ (a < b)%Z.
Proof. unfold Qclt. simpl. by rewrite <- Zlt_Qlt. Qed.

Lemma Qc_of_Z_le a b : (Qc_of_Z a ≤ Qc_of_Z b)%Qc ↔ (a ≤ b)%Z.
Proof. unfold Qcle. simpl. by rewrite <- Zle_Qle. Qed.

Lemma sub_of_Z a b : Js.sub (Js.of_Z a) (Js.of_Z b) = Js.of_Z (a - b).
Proof.
  unfold Js.sub, Js.of_Z. simpl. by rewrite Qc_of_Z_opp, Qc_of_Z_plus.
Qed.

Lemma div_Fin a b : b ≠ 0%Qc → Js.div (Js.Fin a) (Js.Fin b) = Js.Fin (a / b)%Qc.
Proof. intros Hb. unfold Js.div. by rewrite bool_decide_eq_false_2. Qed.

(** The exactly rounded percentage, halves upwards, in integer arithmetic. *)
Lemma round_ratio (a n : Z) :
  (0 < n)%Z →
  Js.round_half_up (Qc_of_Z a / Qc_of_Z n * Qc_of_Z 100)%Qc
  = ((200 * a + n) / (2 * n))%Z.
Proof.
  intros Hn. unfold Js.round_half_up.
  rewrite Zdiv_Qdiv. apply Qfloor_comp.
  unfold Qcdiv, Qcmult, Qcinv, Q2Qc. simpl this.
  rewrite !Qred_correct.
  rewrite inject_Z_plus, !inject_Z_mult.
  assert (¬ inject_Z n == 0)%Q.
  { change 0%Q with (inject_Z 0). rewrite inject_Z_injective. lia. }
  field. done.
Qed.

Lemma geb_Fin q z : Js.geb (Js.Fin q) (Js.of_Z z) = true ↔ (Qc_of_Z z ≤ q)%Qc.
Proof.
  unfold Js.geb, Js.leb, Js.of_Z. simpl.
  rewrite orb_true_iff, !bool_decide_eq_true.
  split.
  - intros [H | ->]; [by apply Qclt_le_weak | apply Qcle_refl].
  - intros H. destruct (Qcle_lt_or_eq _ _ H); auto.
Qed.

Lemma leb_Fin q z : Js.leb (Js.Fin q) (Js.of_Z z) = true ↔ (q ≤ Qc_of_Z z)%Qc.
Proof.
  unfold Js.leb, Js.of_Z. simpl.
  rewrite orb_true_iff, !bool_decide_eq_true.
  split.
  - intros [H | ->]; [by apply Qclt_le_weak | apply Qcle_refl].
  - intros H. destruct (Qcle_lt_or_eq _ _ H); auto.
Qed.

End Numbers.

(** *** Rounding to the nearest double *)

Section Binary64.
Local Open Scope Q_scope.

Lemma nearest_even_near x : Qabs (inject_Z (Js.nearest_even x) - x) <= 1 # 2.
Proof.
  unfold Js.nearest_even. cbv zeta.
  pose proof (Qfloor_le x) as H1. pose proof (Qlt_floor x) as H2.
  rewrite inject_Z_plus in H2. change (inject_Z 1) with 1 in H2.
  apply Qabs_Qle_condition.
  destruct (Qcompare_spec (x - inject_Z (Qfloor x)) (1 # 2)) as [H|H|H];
    [destruct (Z.even (Qfloor x))|..]; cbv beta iota zeta;
    rewrite ?inject_Z_plus; change (inject_Z 1) with 1; lra.
Qed.

Lemma nearest_even_le x (k : Z) : x <= inject_Z k → (Js.nearest_even x ≤ k)%Z.
Proof.
  intros Hx. unfold Js.nearest_even. cbv zeta.
  pose proof (Qfloor_le x) as H1.
  assert (Qfloor x ≤ k)%Z as Hf.
  { rewrite <- (Qfloor_Z k). by apply Qfloor_resp_le. }
  assert (inject_Z (Qfloor x) < x → (Qfloor x + 1 ≤ k)%Z) as Hs.
  { intros H. assert (inject_Z (Qfloor x) < inject_Z k) as H' by lra.
    rewrite <- Zlt_Qlt in H'. lia. }
  destruct (Qcompare_spec (x - inject_Z (Qfloor x)) (1 # 2)) as [H|H|H];
    [destruct (Z.even (Qfloor x))|..]; cbv beta iota zeta; try done; apply Hs; lra.
Qed.

Lemma nearest_even_ge x (k : Z) : inject_Z k <= x → (k ≤ Js.nearest_even x)%Z.
Proof.
  intros Hx. unfold Js.nearest_even. cbv zeta.
  assert (k ≤ Qfloor x)%Z as Hf.
  { rewrite <- (Qfloor_Z k). by apply Qfloor_resp_le. }
  destruct (Qcompare_spec (x - inject_Z (Qfloor x)) (1 # 2)) as [H|H|H];
    [destruct (Z.even (Qfloor x))|..]; cbv beta iota zeta; lia.
Qed.

Lemma nearest_even_Z (k : Z) : Js.nearest_even (inject_Z k) = k.
Proof.
  apply Z.le_antisymm; [apply nearest_even_le | apply nearest_even_ge]; lra.
Qed.

Lemma pow2_pos (e : Z) : 0 < 2 ^ e.
Proof. by apply Qpower_0_lt. Qed.

Lemma pow2_plus (a b : Z) : 2 ^ (a + b) == 2 ^ a * 2 ^ b.
Proof. by apply Qpower_plus. Qed.

Lemma pow2_Z (k : Z) : (0 ≤ k)%Z → inject_Z (2 ^ k) == 2 ^ k.
Proof. intros. by rewrite Zpower_Qpower. Qed.

Lemma pow2_le (a b : Z) : (a ≤ b)%Z → 2 ^ a <= 2 ^ b.
Proof. intros. apply Qpower_le_compat_l; [done | lra]. Qed.

Lemma pow2_lt_inv (a b : Z) : 2 ^ a < 2 ^ b → (a < b)%Z.
Proof. intros H. apply (Qpower_lt_compat_l_inv 2); [done | lra]. Qed.

Lemma pow2_succ (a : Z) : 2 ^ (a + 1) == 2 * 2 ^ a.
Proof. rewrite pow2_plus. change (2 ^ 1) with 2. lra. Qed.

Lemma binade_spec (x : Q) :
  0 < x → 2 ^ Js.binade x <= x ∧ x < 2 ^ (Js.binade x + 1).
Proof.
  intros Hx. unfold Js.binade.
  destruct x as [n d]. unfold Qlt in Hx. simpl in Hx. simpl Qnum. simpl Qden.
  assert (0 < n)%Z as Hn by lia.
  destruct (Z.log2_spec n Hn) as [Hn1 Hn2].
  destruct (Z.log2_spec (Z.pos d) eq_refl) as [Hd1 Hd2].
  pose proof (Z.log2_nonneg n) as Hln. pose proof (Z.log2_nonneg (Z.pos d)) as Hld.
  set (ln := Z.log2 n) in *. set (ld := Z.log2 (Z.pos d)) in *.
  rewrite Zle_Qle, pow2_Z in Hn1, Hd1 by done.
  rewrite Zlt_Qlt, pow2_Z in Hn2, Hd2 by lia.
  rewrite <- Z.add_1_r in Hn2, Hd2. rewrite pow2_succ in Hn2, Hd2.
  assert (n # d == inject_Z n / inject_Z (Z.pos d)) as Hq by apply Qmake_Qdiv.
  assert (0 < inject_Z (Z.pos d)) as Hdpos by (by rewrite <- (Zlt_Qlt 0)).
  assert (0 < inject_Z n) as Hnpos by (by rewrite <- (Zlt_Qlt 0)).
  set (N := inject_Z n) in *. set (D := inject_Z (Z.pos d)) in *.
  assert (2 ^ ln == 2 ^ (ln - ld) * 2 ^ ld) as Hsplit.
  { rewrite <- pow2_plus. by replace (ln - ld + ld)%Z with ln by lia. }
  pose proof (pow2_pos ld) as Hpd. pose proof (pow2_pos (ln - ld)) as Hpe.
  assert (2 ^ (ln - ld - 1 + 1) == 2 ^ (ln - ld)) as Hm.
  { by replace (ln - ld - 1 + 1)%Z with (ln - ld)%Z by lia. }
  assert (2 ^ (ln - ld) == 2 * 2 ^ (ln - ld - 1)) as Hm'.
  { rewrite <- pow2_succ. by rewrite Hm. }
  set (P := 2 ^ (ln - ld)) in *. set (L := 2 ^ ld) in *. set (M := 2 ^ ln) in *.
  assert (N / D * D == N) as HND by (field; lra).
  set (X := N / D) in *.
  assert (0 < X) as HX by (apply Qlt_shift_div_l; lra).
  destruct (Qle_bool P (n # d)) eqn:E.
  - apply Qle_bool_iff in E. split; [done|].
    rewrite pow2_succ. fold P. rewrite Hq. nra.
  - assert (¬ P <= n # d) as E' by (rewrite <- Qle_bool_iff; congruence).
    apply Qnot_le_lt in E'. rewrite Hm. split; [|done].
    rewrite Hq. nra.
Qed.

Lemma this_Q2Qc (x : Q) : this (Q2Qc x) == x.
Proof. apply Qred_correct. Qed.

Lemma pow2_shift (e : Z) (x : Q) : x / 2 ^ e * 2 ^ e == x.
Proof. pose proof (pow2_pos e). field. lra. Qed.

(** The rounded magnitude is within half a unit in the last place. *)
Lemma rounded_near (a : Q) (e : Z) :
  Qabs (inject_Z (Js.nearest_even (a / 2 ^ e)) * 2 ^ e - a) * 2 <= 2 ^ e.
Proof.
  pose proof (nearest_even_near (a / 2 ^ e)) as H.
  pose proof (pow2_pos e) as Hp. pose proof (pow2_shift e a) as Hs.
  set (m := inject_Z _) in *. set (x := a / 2 ^ e) in *. set (p := 2 ^ e) in *.
  apply Qabs_Qle_condition in H as [H1 H2].
  assert (m * p - a == (m - x) * p) as -> by lra.
  rewrite Qabs_Qmult, (Qabs_pos p) by lra.
  assert (Qabs (m - x) <= 1 # 2) as H by (apply Qabs_Qle_condition; lra).
  nra.
Qed.

Lemma Qabs_Qc_pos (q : Qc) : ¬ q == 0 → 0 < Qabs q.
Proof.
  intros Hq. pose proof (Qabs_nonneg q) as H.
  destruct (Qeq_dec (Qabs q) 0) as [E|E]; [|lra].
  exfalso. apply Hq. revert E. apply Qabs_case; intros; lra.
Qed.

Lemma round64_unfold (q : Qc) :
  ¬ q == 0 →
  Js.round64 q
  = let a := Qabs q in
    let e := Z.max (Js.binade a - 52) (-1074) in
    let r := inject_Z (Js.nearest_even (a / 2 ^ e)) * 2 ^ e in
    if Qle_bool (2 ^ 1024) r then Js.Inf (Js.is_neg q)
    else Js.Fin (Q2Qc (if Js.is_neg q then - r else r)).
Proof.
  intros Hq. unfold Js.round64.
  destruct (Qeq_bool q 0) eqn:E; [|done].
  by apply Qeq_bool_iff in E.
Qed.

Lemma is_neg_spec (q : Qc) : if Js.is_neg q then q < 0 else 0 <= q.
Proof.
  unfold Js.is_neg. destruct (bool_decide_reflect (q < 0)%Qc) as [H|H]; [done|].
  by apply Qnot_lt_le.
Qed.

(** In the normal range rounding is finite and relatively accurate to
    [2 ^ -53]. *)
Lemma round64_near (q : Qc) :
  2 ^ (-1022) <= Qabs q → Qabs q < 2 ^ 1023 →
  ∃ r : Qc, Js.round64 q = Js.Fin r ∧ Qabs (r - q) * 2 ^ 53 <= Qabs q.
Proof.
  intros Hlo Hhi.
  assert (¬ q == 0) as Hq.
  { intros E. rewrite E in Hlo. pose proof (pow2_pos (-1022)).
    change (Qabs 0) with 0 in Hlo. lra. }
  rewrite round64_unfold by done. cbv zeta.
  pose proof (Qabs_Qc_pos q Hq) as Ha.
  destruct (binade_spec (Qabs q) Ha) as [Hb1 Hb2].
  set (a := Qabs q) in *. set (b := Js.binade a) in *.
  assert (-1022 ≤ b)%Z as Hblo.
  { assert (2 ^ (-1022) < 2 ^ (b + 1)) as H by lra. apply pow2_lt_inv in H. lia. }
  assert (b ≤ 1022)%Z as Hbhi.
  { assert (2 ^ b < 2 ^ 1023) as H by lra. apply pow2_lt_inv in H. lia. }
  replace (Z.max (b - 52) (-1074)) with (b - 52)%Z by lia.
  pose proof (rounded_near a (b - 52)) as Hn.
  set (r := inject_Z _ * 2 ^ (b - 52)) in *.
  assert (2 ^ b == 2 ^ (b - 52) * 2 ^ 52) as Hpb.
  { rewrite <- pow2_plus. by replace (b - 52 + 52)%Z with b by lia. }
  pose proof (pow2_pos (b - 52)) as Hpe.
  pose proof (pow2_le b 1022 Hbhi) as Hmax.
  assert (2 ^ 1023 == 2 * 2 ^ 1022) as H1023 by (exact (pow2_succ 1022)).
  assert (2 ^ 1024 == 2 * 2 ^ 1023) as H1024 by (exact (pow2_succ 1023)).
  assert (2 ^ 52 == 4503599627370496) as H52 by reflexivity.
  assert (2 ^ 53 == 9007199254740992) as H53 by reflexivity.
  set (u := 2 ^ (b - 52)) in *. set (B := 2 ^ b) in *.
  set (M := 2 ^ 1022) in *. set (M1 := 2 ^ 1023) in *. set (M2 := 2 ^ 1024) in *.
  assert (Qabs (r - a) * 2 ^ 53 <= a) as Herr.
  { rewrite H53. nra. }
  assert (r - a <= Qabs (r - a) ∧ a - r <= Qabs (r - a)) as [Hd1 Hd2].
  { split; [apply Qle_Qabs|]. rewrite Qabs_Qminus. apply Qle_Qabs. }
  destruct (Qle_bool M2 r) eqn:E.
  { apply Qle_bool_iff in E. exfalso. rewrite H53 in Herr. nra. }
  eexists. split; [reflexivity|].
  pose proof (is_neg_spec q) as Hs. rewrite this_Q2Qc.
  destruct (Js.is_neg q).
  - assert (a == - q) as Haq by (unfold a; apply Qabs_neg; unfold Qclt in Hs; simpl in Hs; lra).
    assert (- r - q == - (r - a)) as -> by lra. by rewrite Qabs_opp.
  - assert (a == q) as Haq by (unfold a; apply Qabs_pos; unfold Qcle in Hs; simpl in Hs; lra).
    assert (r - q == r - a) as -> by lra. done.
Qed.

Lemma pow2_neg_Z (e : Z) : (e ≤ 0)%Z → / 2 ^ e == inject_Z (2 ^ (- e)).
Proof.
  intros He. rewrite pow2_Z by lia. by rewrite Qpower_opp.
Qed.

Lemma rounded_le (a : Q) (e K : Z) :
  (e ≤ 0)%Z → a <= inject_Z K →
  inject_Z (Js.nearest_even (a / 2 ^ e)) * 2 ^ e <= inject_Z K.
Proof.
  intros He Ha. pose proof (pow2_pos e) as Hp.
  assert (Js.nearest_even (a / 2 ^ e) ≤ K * 2 ^ (- e))%Z as H.
  { apply nearest_even_le. rewrite inject_Z_mult, <- pow2_neg_Z by done.
    unfold Qdiv. apply Qmult_le_compat_r; [done|]. apply Qinv_le_0_compat. lra. }
  rewrite Zle_Qle, inject_Z_mult, <- pow2_neg_Z in H by done.
  apply (Qmult_le_compat_r _ _ (2 ^ e)) in H; [|lra].
  eapply Qle_trans; [exact H|]. apply Qle_lteq. right. field. lra.
Qed.

Lemma rounded_ge (a : Q) (e : Z) :
  0 <= a → 0 <= inject_Z (Js.nearest_even (a / 2 ^ e)) * 2 ^ e.
Proof.
  intros Ha. pose proof (pow2_pos e) as Hp.
  assert (0 ≤ Js.nearest_even (a / 2 ^ e))%Z as H.
  { apply nearest_even_ge. change (inject_Z 0) with 0.
    apply Qle_shift_div_l; [done | lra]. }
  rewrite Zle_Qle in H. change (inject_Z 0) with 0 in H. nra.
Qed.

Lemma nearest_even_comp (x y : Q) : x == y → Js.nearest_even x = Js.nearest_even y.
Proof.
  intros H. unfold Js.nearest_even. cbv zeta.
  rewrite (Qfloor_comp x y H).
  assert (x - inject_Z (Qfloor y) == y - inject_Z (Qfloor y)) as H' by lra.
  by rewrite (Qcompare_comp _ _ H' (1 # 2) (1 # 2)).
Qed.

Lemma rounded_Z (z e : Z) :
  (e ≤ 0)%Z → inject_Z (Js.nearest_even (inject_Z z / 2 ^ e)) * 2 ^ e == inject_Z z.
Proof.
  intros He. pose proof (pow2_pos e) as Hp.
  assert (inject_Z z / 2 ^ e == inject_Z (z * 2 ^ (- e))) as H.
  { rewrite inject_Z_mult, <- pow2_neg_Z by done. reflexivity. }
  rewrite (nearest_even_comp _ _ H).
  rewrite nearest_even_Z, inject_Z_mult, <- pow2_neg_Z by done.
  field. lra.
Qed.

(** Below [2 ^ 53] the last place of a double is worth one at most. *)
Lemma ulp_exponent (a : Q) :
  0 < a → a < 2 ^ 53 → (Z.max (Js.binade a - 52) (-1074) ≤ 0)%Z.
Proof.
  intros Ha Hlt. destruct (binade_spec a Ha) as [Hb _].
  assert (2 ^ Js.binade a < 2 ^ 53) as H by lra.
  apply pow2_lt_inv in H. lia.
Qed.

Lemma Qabs_Qc_sign (q : Qc) :
  (if Js.is_neg q then - Qabs q else Qabs q) == q.
Proof.
  pose proof (is_neg_spec q) as Hs. destruct (Js.is_neg q).
  - rewrite Qabs_neg; [lra|]. unfold Qclt in Hs. lra.
  - rewrite Qabs_pos; [lra|]. by unfold Qcle in Hs.
Qed.

(** Rounding stays within integer bounds and keeps the sign. *)
Lemma round64_bounded (q : Qc) (K : Z) :
  (K < 2 ^ 53)%Z → Qabs q <= inject_Z K →
  ∃ r : Qc, Js.round64 q = Js.Fin r ∧ Qabs r <= inject_Z K
            ∧ (0 <= q → 0 <= r) ∧ (q <= 0 → r <= 0).
Proof.
  intros HK Hq.
  destruct (Qeq_dec q 0) as [E|E].
  { exists q. split; [|done]. unfold Js.round64.
    apply Qeq_bool_iff in E. by rewrite E. }
  rewrite round64_unfold by done. cbv zeta.
  pose proof (Qabs_Qc_pos q E) as Ha.
  assert (Qabs q < 2 ^ 53) as Hlt.
  { rewrite Zlt_Qlt in HK. eapply Qle_lt_trans; [exact Hq|].
    eapply Qlt_le_trans; [exact HK|]. apply Qle_lteq. by right. }
  pose proof (ulp_exponent _ Ha Hlt) as He.
  pose proof (rounded_le (Qabs q) _ K He Hq) as Hr.
  pose proof (rounded_ge (Qabs q) (Z.max (Js.binade (Qabs q) - 52) (-1074))) as Hr0.
  set (r := inject_Z _ * 2 ^ _) in *.
  assert (0 <= r) as Hpos by (apply Hr0; lra).
  rewrite Zlt_Qlt in HK.
  assert (2 ^ 1024 == 2 ^ 53 * 2 ^ 971) as Hbig by (rewrite <- pow2_plus; reflexivity).
  assert (1 <= 2 ^ 971) as Hone by (change 1 with (2 ^ 0); by apply pow2_le).
  assert (inject_Z (2 ^ 53) == 2 ^ 53) as H53 by reflexivity.
  pose proof (pow2_pos 53) as Hp53.
  set (P := 2 ^ 53) in *. set (T := 2 ^ 971) in *. set (M := 2 ^ 1024) in *.
  destruct (Qle_bool M r) eqn:Eo.
  { apply Qle_bool_iff in Eo. exfalso. nra. }
  eexists. split; [reflexivity|].
  pose proof (is_neg_spec q) as Hs. rewrite !this_Q2Qc.
  destruct (Js.is_neg q).
  - unfold Qclt in Hs. simpl in Hs. rewrite Qabs_opp, (Qabs_pos r) by done.
    split; [done|]. split; intros; lra.
  - unfold Qcle in Hs. simpl in Hs. rewrite (Qabs_pos r) by done.
    split; [done|]. split; intros; lra.
Qed.

(** Integers below [2 ^ 53] in magnitude are doubles. *)
Lemma round64_Z (z : Z) :
  (Z.abs z < 2 ^ 53)%Z → Js.round64 (Qc_of_Z z) = Js.Fin (Qc_of_Z z).
Proof.
  intros Hz.
  assert (Qc_of_Z z == inject_Z z) as Hv by reflexivity.
  destruct (Qeq_dec (Qc_of_Z z) 0) as [E|E].
  { unfold Js.round64. apply Qeq_bool_iff in E. by rewrite E. }
  rewrite round64_unfold by done. cbv zeta.
  pose proof (Qabs_Qc_pos _ E) as Ha.
  assert (Qabs (Qc_of_Z z) == inject_Z (Z.abs z)) as Habs.
  { rewrite Hv. unfold Qabs, inject_Z. reflexivity. }
  assert (Qabs (Qc_of_Z z) < 2 ^ 53) as Hlt.
  { rewrite Habs. rewrite Zlt_Qlt in Hz. eapply Qlt_le_trans; [exact Hz|].
    apply Qle_lteq. by right. }
  pose proof (ulp_exponent _ Ha Hlt) as He.
  set (e := Z.max _ _) in *.
  assert (inject_Z (Js.nearest_even (Qabs (Qc_of_Z z) / 2 ^ e)) * 2 ^ e
          == Qabs (Qc_of_Z z)) as Hr.
  { rewrite (nearest_even_comp _ (inject_Z (Z.abs z) / 2 ^ e)) by (by rewrite Habs).
    rewrite Habs. by apply rounded_Z. }
  set (r := inject_Z _ * 2 ^ e) in *.
  assert (2 ^ 1024 == 2 ^ 53 * 2 ^ 971) as Hbig by (rewrite <- pow2_plus; reflexivity).
  assert (1 <= 2 ^ 971) as Hone by (change 1 with (2 ^ 0); by apply pow2_le).
  pose proof (pow2_pos 53) as Hp53.
  set (P := 2 ^ 53) in *. set (T := 2 ^ 971) in *. set (M := 2 ^ 1024) in *.
  destruct (Qle_bool M r) eqn:Eo.
  { apply Qle_bool_iff in Eo. exfalso. nra. }
  f_equal. apply Qc_is_canon. rewrite this_Q2Qc.
  rewrite <- (Qabs_Qc_sign (Qc_of_Z z)).
  destruct (Js.is_neg _); by rewrite Hr.
Qed.
End Binary64.

(** *** Percentages in binary64 *)

Section Percentages.
Local Open Scope Q_scope.


Lemma this_Qcdiv_Z (a n : Z) :
  n ≠ 0%Z → this (Qc_of_Z a / Qc_of_Z n)%Qc == inject_Z a / inject_Z n.
Proof.
  intros Hn. unfold Qcdiv, Qcmult, Qcinv. rewrite !this_Q2Qc.
  change (this (Qc_of_Z n)) with (inject_Z n). change (this (Qc_of_Z a)) with (inject_Z a).
  reflexivity.
Qed.

Lemma this_Qcmult_Z (y : Qc) (c : Z) : this (y * Qc_of_Z c)%Qc == y * inject_Z c.
Proof. unfold Qcmult. rewrite this_Q2Qc. reflexivity. Qed.

Lemma percentage_unfold (a n : Z) :
  n ≠ 0%Z →
  Props.percentage a n
  = Js.Math_round
      (Js.mul64 (Js.round64 (Qc_of_Z a / Qc_of_Z n)) (Js.of_Z 100)).
Proof.
  intros Hn. unfold Props.percentage, Js.div64, Js.of_Z at 1 2.
  rewrite div_Fin by (by apply Qc_of_Z_neq_0). reflexivity.
Qed.

(** The percentage of a part in a whole lies between -100 and 100. *)
Lemma percentage_bounded (a n : Z) :
  (0 < n)%Z → (- n ≤ a ≤ n)%Z →
  ∃ k, Props.percentage a n = Js.of_Z k ∧ (-100 ≤ k ≤ 100)%Z ∧ ((0 ≤ a)%Z → (0 ≤ k)%Z).
Proof.
  intros Hn Ha. rewrite percentage_unfold by lia.
  assert (0 < inject_Z n) as HN by (by rewrite <- (Zlt_Qlt 0)).
  assert (inject_Z (- n) <= inject_Z a ∧ inject_Z a <= inject_Z n) as [Ha1 Ha2].
  { rewrite <- !Zle_Qle. lia. }
  rewrite inject_Z_opp in Ha1.
  pose proof (this_Qcdiv_Z a n ltac:(lia)) as Hq.
  set (q := (Qc_of_Z a / Qc_of_Z n)%Qc) in *.
  assert (this q * inject_Z n == inject_Z a) as Hqn by (rewrite Hq; field; lra).
  destruct (round64_bounded q 1) as (y & -> & Hy & Hy1 & Hy2); [done| |].
  { apply Qabs_Qle_condition. change (inject_Z 1) with 1. split; nra. }
  apply Qabs_Qle_condition in Hy. change (inject_Z 1) with 1 in Hy.
  change (Js.mul64 (Js.Fin y) (Js.of_Z 100)) with (Js.round64 (y * Qc_of_Z 100)).
  pose proof (this_Qcmult_Z y 100) as Hw. change (inject_Z 100) with 100 in Hw.
  destruct (round64_bounded (y * Qc_of_Z 100) 100) as (z & -> & Hz & Hz1 & Hz2); [done| |].
  { apply Qabs_Qle_condition. change (inject_Z 100) with 100. rewrite Hw. lra. }
  apply Qabs_Qle_condition in Hz. change (inject_Z 100) with 100 in Hz.
  eexists. split; [reflexivity|]. unfold Js.round_half_up.
  split; [split|].
  - change (-100)%Z with (Qfloor (- (199 # 2))). apply Qfloor_resp_le. lra.
  - change 100%Z with (Qfloor (201 # 2)). apply Qfloor_resp_le. lra.
  - intros Ha0. change 0%Z with (Qfloor 0). apply Qfloor_resp_le.
    assert (0 <= inject_Z a) as HA by (by rewrite <- (Zle_Qle 0)).
    assert (0 <= q) as Hq0 by nra.
    specialize (Hy1 Hq0). assert (0 <= (y * Qc_of_Z 100)%Qc) as H0 by (rewrite Hw; lra).
    specialize (Hz1 H0). lra.
Qed.

Lemma Qabs_split (x : Q) : ∃ g, g == Qabs x ∧ 0 <= g ∧ - g <= x ∧ x <= g.
Proof.
  exists (Qabs x). split; [reflexivity|]. split; [apply Qabs_nonneg|].
  apply Qabs_Qle_condition. lra.
Qed.

(** Two roundings leave the percentage within half a unit of the last
    decimal that the counts can tell apart. *)
Lemma percentage_error (a n : Z) :
  (0 < n < 2 ^ 53)%Z → (Z.abs a < 2 ^ 44)%Z →
  ∃ z : Qc,
    Js.mul64 (Js.round64 (Qc_of_Z a / Qc_of_Z n)) (Js.of_Z 100) = Js.Fin z
    ∧ - (1) < (z * inject_Z n - 100 * inject_Z a) * 2
    ∧ (z * inject_Z n - 100 * inject_Z a) * 2 < 1.
Proof.
  intros [Hn Hn53] Ha.
  assert (1 <= inject_Z n) as HN by (rewrite <- (Zle_Qle 1); lia).
  assert (inject_Z n <= 9007199254740992) as HN53.
  { change 9007199254740992 with (inject_Z (2 ^ 53)). rewrite <- Zle_Qle. lia. }
  pose proof (this_Qcdiv_Z a n ltac:(lia)) as Hq.
  set (q := (Qc_of_Z a / Qc_of_Z n)%Qc) in *.
  assert (this q * inject_Z n == inject_Z a) as Hqn by (rewrite Hq; field; lra).
  destruct (Z.eq_dec a 0%Z) as [Ha0|Ha0]; [subst a|].
  { destruct (round64_bounded q 0) as (y & -> & Hy & _); [done| |].
    { change (inject_Z 0) with 0 in *. apply Qabs_Qle_condition. split; nra. }
    apply Qabs_Qle_condition in Hy. change (inject_Z 0) with 0 in Hy.
    change (Js.mul64 (Js.Fin y) (Js.of_Z 100)) with (Js.round64 (y * Qc_of_Z 100)).
    pose proof (this_Qcmult_Z y 100) as Hw. change (inject_Z 100) with 100 in Hw.
    destruct (round64_bounded (y * Qc_of_Z 100) 0) as (z & -> & Hz & _); [done| |].
    { apply Qabs_Qle_condition. change (inject_Z 0) with 0. rewrite Hw. lra. }
    apply Qabs_Qle_condition in Hz. change (inject_Z 0) with 0 in *.
    exists z. split; [done|]. split; nra. }
  assert (inject_Z (Z.abs a) == Qabs (inject_Z a)) as HabsA by reflexivity.
  assert (1 <= Qabs (inject_Z a)) as HA1.
  { rewrite <- HabsA, <- (Zle_Qle 1). lia. }
  assert (Qabs (inject_Z a) <= 17592186044415) as HA2.
  { rewrite <- HabsA. change 17592186044415 with (inject_Z (2 ^ 44 - 1)).
    rewrite <- Zle_Qle. lia. }
  assert (Qabs q * inject_Z n == Qabs (inject_Z a)) as HG.
  { rewrite <- Hqn, Qabs_Qmult, (Qabs_pos (inject_Z n)) by lra. reflexivity. }
  assert (2 ^ (-1022) <= 1 # 9007199254740992) as Hsmall.
  { change (1 # 9007199254740992) with (2 ^ (-53)). by apply pow2_le. }
  assert (17592186044416 <= 2 ^ 1023) as Hlarge.
  { change 17592186044416 with (2 ^ 44). by apply pow2_le. }
  assert (2 ^ 53 == 9007199254740992) as H53 by reflexivity.
  pose proof (Qabs_nonneg q) as HG0.
  set (G := Qabs q) in *. set (A := Qabs (inject_Z a)) in *.
  set (N := inject_Z n) in *.
  set (lo := 2 ^ (-1022)) in *. set (hi := 2 ^ 1023) in *.
  assert ((1 # 9007199254740992) <= G) as HGlo.
  { apply (Qmult_le_r _ _ N); [lra|]. nra. }
  assert (G <= 17592186044415) as HGhi by nra.
  destruct (round64_near q) as (y & -> & Hy); [fold G; lra | fold G; lra |].
  fold G in Hy. rewrite H53 in Hy.
  destruct (Qabs_split (y - q)) as (d1 & Hd1 & Hd1pos & Hd1a & Hd1b).
  rewrite <- Hd1 in Hy. clear Hd1.
  change (Js.mul64 (Js.Fin y) (Js.of_Z 100)) with (Js.round64 (y * Qc_of_Z 100)).
  pose proof (this_Qcmult_Z y 100) as Hw. change (inject_Z 100) with 100 in Hw.
  set (w := (y * Qc_of_Z 100)%Qc) in *.
  destruct (Qabs_split w) as (W & HW & HWpos & HWa & HWb).
  assert (99 * G <= W ∧ W <= 101 * G) as [HW1 HW2].
  { rewrite HW. rewrite Hw.
    assert (Qabs (y * 100) == 100 * Qabs y) as ->.
    { rewrite Qabs_Qmult. change (Qabs 100) with 100. lra. }
    assert (Qabs y <= Qabs q + d1 ∧ Qabs q - d1 <= Qabs y) as [H1 H2].
    { split.
      - apply Qabs_case; intros; apply Qabs_case; intros; lra.
      - apply Qabs_case; intros; apply Qabs_case; intros; lra. }
    fold G in H1, H2. split; lra. }
  destruct (round64_near w) as (z & -> & Hz); [rewrite <- HW; lra | rewrite <- HW; lra |].
  rewrite <- HW, H53 in Hz.
  destruct (Qabs_split (z - w)) as (d2 & Hd2 & Hd2pos & Hd2a & Hd2b).
  rewrite <- Hd2 in Hz. clear Hd2.
  exists z. split; [done|].
  assert ((d2 + 100 * d1) * 9007199254740992 <= 201 * G) as Hsum by lra.
  assert ((d2 + 100 * d1) * N * 9007199254740992 <= 201 * 17592186044415) as Hsum'.
  { assert (0 <= d2 + 100 * d1) by lra. nra. }
  assert (this z * N - 100 * inject_Z a == (z - w + 100 * (y - q)) * N) as ->.
  { rewrite Hw. rewrite <- Hqn. ring. }
  assert (- ((d2 + 100 * d1) * N) <= (z - w + 100 * (y - q)) * N
          ∧ (z - w + 100 * (y - q)) * N <= (d2 + 100 * d1) * N) as [Hl Hu].
  { split; nra. }
  split; lra.
Qed.

Lemma Qfloor_bounds (v : Q) : inject_Z (Qfloor v) <= v ∧ v < inject_Z (Qfloor v) + 1.
Proof.
  split; [apply Qfloor_le|]. pose proof (Qlt_floor v) as H.
  by rewrite inject_Z_plus in H.
Qed.

(** The percentage agrees with the exactly rounded one, except possibly
    where the exact percentage ends in one half, where it may be one less. *)
Lemma percentage_accurate (a n : Z) :
  (0 < n < 2 ^ 53)%Z → (Z.abs a < 2 ^ 44)%Z →
  ∃ k, Props.percentage a n = Js.of_Z k
       ∧ ((200 * a + n) / (2 * n) - 1 ≤ k ≤ (200 * a + n) / (2 * n))%Z
       ∧ (((200 * a + n) mod (2 * n))%Z ≠ 0%Z → k = ((200 * a + n) / (2 * n))%Z).
Proof.
  intros Hn Ha. rewrite percentage_unfold by lia.
  destruct (percentage_error a n Hn Ha) as (z & -> & Hlo & Hhi).
  eexists. split; [reflexivity|]. unfold Js.round_half_up.
  destruct (Qfloor_bounds (z + (1 # 2))) as [Hk1 Hk2].
  set (k := Qfloor (z + (1 # 2))) in *.
  assert (1 <= inject_Z n) as HN by (rewrite <- (Zle_Qle 1); lia).
  assert (inject_Z k * inject_Z n * 2 < 200 * inject_Z a + inject_Z n + 1) as H1 by nra.
  assert (200 * inject_Z a + inject_Z n - 1 < (inject_Z k + 1) * inject_Z n * 2) as H2 by nra.
  assert (k * n * 2 < 200 * a + n + 1)%Z as H1'.
  { rewrite Zlt_Qlt, !inject_Z_plus, !inject_Z_mult. exact H1. }
  assert (200 * a + n - 1 < (k + 1) * n * 2)%Z as H2'.
  { rewrite Zlt_Qlt. unfold Z.sub.
    rewrite !inject_Z_plus, !inject_Z_mult, !inject_Z_plus. exact H2. }
  clear H1 H2 Hk1 Hk2 Hlo Hhi HN.
  pose proof (Z.div_mod (200 * a + n) (2 * n) ltac:(lia)) as Hdm.
  pose proof (Z.mod_pos_bound (200 * a + n) (2 * n) ltac:(lia)) as Hmod.
  set (E := ((200 * a + n) / (2 * n))%Z) in *.
  set (ρ := ((200 * a + n) mod (2 * n))%Z) in *.
  split; [split|]; [nia | nia | intros; nia].
Qed.
Lemma this_Qcdiv (x t : Qc) : this (x / t)%Qc == x / t.
Proof. unfold Qcdiv, Qcmult, Qcinv. rewrite !this_Q2Qc. reflexivity. Qed.

Lemma Qc_neq_0 (t : Qc) : 0 < t → t ≠ 0%Qc.
Proof. intros H ->. by apply Qlt_irrefl in H. Qed.

(** Rounding a number that is not negative gives one that is not negative,
    or the positive infinity. *)
Lemma round64_nonneg (q : Qc) :
  (0 <= q)%Q →
  (∃ r : Qc, Js.round64 q = Js.Fin r ∧ (0 <= r)%Q) ∨ Js.round64 q = Js.Inf false.
Proof.
  intros Hq.
  destruct (Qeq_dec q 0) as [E|E].
  { left. exists q. split; [|done]. unfold Js.round64.
    apply Qeq_bool_iff in E. by rewrite E. }
  rewrite round64_unfold by done. cbv zeta.
  pose proof (is_neg_spec q) as Hs.
  destruct (Js.is_neg q).
  { exfalso. unfold Qclt in Hs. simpl in Hs. lra. }
  destruct (Qle_bool _ _); [by right|]. left.
  eexists. split; [reflexivity|]. rewrite this_Q2Qc.
  apply rounded_ge, Qabs_nonneg.
Qed.

Lemma of_Z_inj (a b : Z) : Js.of_Z a = Js.of_Z b → a = b.
Proof. intros H. by injection H. Qed.

Lemma sub64_of_Z (a b : Z) :
  (Z.abs (a - b) < 2 ^ 53)%Z → Js.sub64 (Js.of_Z a) (Js.of_Z b) = Js.of_Z (a - b).
Proof.
  intros H. unfold Js.sub64. rewrite sub_of_Z. by apply round64_Z.
Qed.

Lemma mul64_of_Z (a b : Z) :
  (Z.abs (a * b) < 2 ^ 53)%Z → Js.mul64 (Js.of_Z a) (Js.of_Z b) = Js.of_Z (a * b).
Proof.
  intros H. unfold Js.mul64, Js.mul, Js.of_Z. rewrite Qc_of_Z_mult.
  by apply round64_Z.
Qed.

(** The agreement of the model with the IEEE 754 reference model of the
    standard library, on a table of quotients, percentages, differences and
    of numbers near the ends of the exponent range. *)
Lemma round64_reference :
  forallb (λ '(a, n), Props.agreesWithReference a n) Props.sampleRatios = true
  ∧ forallb (λ '(m, e), Props.roundsAsReference m e) Props.sampleNumbers = true.
Proof. split; vm_compute; reflexivity. Qed.

(** The percentage of a part in a whole: an integer between -100 and 100,
    equal to the exactly rounded percentage unless that one ends in one
    half, where it may be one less. *)
Lemma percentage_spec (a n : Z) :
  (0 < n < 2 ^ 44)%Z → (- n ≤ a ≤ n)%Z →
  let exact := Js.round_half_up (Qc_of_Z a / Qc_of_Z n * Qc_of_Z 100)%Qc in
  ∃ k, Props.percentage a n = Js.of_Z k
       ∧ (-100 ≤ k ≤ 100)%Z ∧ ((0 ≤ a)%Z → (0 ≤ k)%Z)
       ∧ (exact - 1 ≤ k ≤ exact)%Z
       ∧ (¬ Props.endsInHalf a n → k = exact).
Proof.
  intros Hn Ha exact. unfold exact. rewrite round_ratio by lia.
  destruct (percentage_bounded a n) as (k & Hk & Hb & Hs); [lia | lia |].
  destruct (percentage_accurate a n) as (k' & Hk' & Hacc & Htie); [lia | lia |].
  rewrite Hk in Hk'. apply of_Z_inj in Hk' as <-.
  exists k. split; [done|]. split; [done|]. split; [done|]. split; [done|].
  exact Htie.
Qed.

(** The percentage of a count in a positive target is not negative. *)
Lemma percentage_nonneg (a n : Z) :
  (0 < n)%Z → (0 ≤ a < 2 ^ 44)%Z →
  ∃ k, Props.percentage a n = Js.of_Z k ∧ (0 ≤ k)%Z.
Proof.
  intros Hn Ha. rewrite percentage_unfold by lia.
  assert (1 <= inject_Z n)%Q as HN by (rewrite <- (Zle_Qle 1); lia).
  assert (0 <= inject_Z a ∧ inject_Z a <= 17592186044416)%Q as [Ha1 Ha2].
  { change 17592186044416%Q with (inject_Z (2 ^ 44)).
    rewrite <- (Zle_Qle 0), <- Zle_Qle. lia. }
  pose proof (this_Qcdiv_Z a n ltac:(lia)) as Hq.
  set (q := (Qc_of_Z a / Qc_of_Z n)%Qc) in *.
  assert (this q * inject_Z n == inject_Z a)%Q as Hqn by (rewrite Hq; field; lra).
  assert (0 <= q ∧ q <= 17592186044416)%Q as [Hq0 Hq1].
  { pose proof (Qmult_le_0_compat (17592186044416 - inject_Z a) (inject_Z n - 1)
                  ltac:(lra) ltac:(lra)).
    split; [|nra]. rewrite Hq. apply Qle_shift_div_l; lra. }
  destruct (round64_bounded q (2 ^ 44)) as (y & -> & Hy & Hy1 & _); [done| |].
  { rewrite Qabs_pos by done. exact Hq1. }
  specialize (Hy1 Hq0). rewrite Qabs_pos in Hy by done.
  change (inject_Z (2 ^ 44)) with 17592186044416%Q in Hy.
  change (Js.mul64 (Js.Fin y) (Js.of_Z 100)) with (Js.round64 (y * Qc_of_Z 100)).
  pose proof (this_Qcmult_Z y 100) as Hw. change (inject_Z 100) with 100%Q in Hw.
  destruct (round64_bounded (y * Qc_of_Z 100) (100 * 2 ^ 44))
    as (z & -> & _ & Hz1 & _); [done| |].
  { rewrite Hw, Qabs_pos by lra.
    change (inject_Z (100 * 2 ^ 44)) with 1759218604441600%Q. lra. }
  eexists. split; [reflexivity|]. unfold Js.round_half_up.
  change 0%Z with (Qfloor 0). apply Qfloor_resp_le.
  assert (0 <= (y * Qc_of_Z 100)%Qc)%Q as H0 by (rewrite Hw; lra).
  specialize (Hz1 H0). lra.
Qed.

End Percentages.

(** *** Net promoter score *)

(** The scores are the values of the responses that carry one, in the order
    of the responses. *)
Lemma npsScores_values rs :
  Some <$> npsScores rs = filter is_Some (SurveyResponse.nps <$> rs).
Proof.
  unfold npsScores. induction rs as [|r rs IH]; [done|].
  rewrite fmap_cons, filter_cons. cbn [omap list_omap].
  destruct (SurveyResponse.nps r) as [v|].
  - rewrite decide_True by done. rewrite fmap_cons. by f_equal.
  - rewrite decide_False; [done|]. by intros [? ?].
Qed.

Lemma npsScores_length rs : (length (npsScores rs) ≤ length rs)%nat.
Proof.
  rewrite <- (length_fmap Some (npsScores rs)), npsScores_values.
  etrans; [apply length_filter|]. by rewrite length_fmap.
Qed.

(** C5, where the code departs from the stated formula: among 40
    respondents of whom 23 are promoters and none a detractor the stated
    formula gives round(57.5) = 58; the program evaluates the quotient and
    the product in binary64, obtains 57.49999999999999 and reports 57. *)
Lemma nps_rounding_counterexample :
  promoters (npsScores (Props.ballot 23 17 0)) = 23%nat
  ∧ detractors (npsScores (Props.ballot 23 17 0)) = 0%nat
  ∧ length (npsScores (Props.ballot 23 17 0)) = 40%nat
  ∧ Props.spec_nps 23 0 40 = Some (Js.of_Z 58)
  ∧ nps (Props.ballot 23 17 0) = Some (Js.of_Z 57)
  ∧ Js.of_Z 57 ≠ Js.of_Z 58.
Proof.
  repeat split; try (vm_compute; reflexivity).
  intros H. by apply of_Z_inj in H.
Qed.

(** C5 as amended.  The net promoter score is taken over the responses
    whose [nps] field is present, in their order: promoters score at least
    9, detractors at most 6.  Without respondents the result is [null], not
    zero.  With respondents it is Math.round of the double
    ((promoters - detractors) / respondents) * 100: an integer between -100
    and 100 that equals the exactly rounded percentage, halves upwards,
    unless the exact percentage ends in one half, where the two roundings of
    the quotient and of the product can make it one less.  So 1 promoter
    among 8 gives 13 and 1 detractor among 8 gives -12, while 23 promoters
    among 40 give 57 and 11 detractors among 40 give -28. *)
Theorem nps_formula_and_bounds (rs : list SurveyResponse.t) :
  (Z.of_nat (length rs) < 2 ^ 32)%Z →
  let scores := npsScores rs in
  let net := (Z.of_nat (promoters scores) - Z.of_nat (detractors scores))%Z in
  let respondents := Z.of_nat (length scores) in
  let exact := Js.round_half_up (Qc_of_Z net / Qc_of_Z respondents * Qc_of_Z 100)%Qc in
  Some <$> scores = filter is_Some (SurveyResponse.nps <$> rs)
  ∧ promoters scores = length (filter (λ s, Js.geb s (Js.of_Z 9) = true) scores)
  ∧ detractors scores = length (filter (λ s, Js.leb s (Js.of_Z 6) = true) scores)
  ∧ (∀ q, (Js.geb (Js.Fin q) (Js.of_Z 9) = true ↔ (Qc_of_Z 9 ≤ q)%Qc)
          ∧ (Js.leb (Js.Fin q) (Js.of_Z 6) = true ↔ (q ≤ Qc_of_Z 6)%Qc))
  ∧ match nps rs with
    | None => scores = []
    | Some v =>
        scores ≠ []
        ∧ v = Js.Math_round
                (Js.mul64 (Js.div64 (Js.of_Z net) (Js.of_Z respondents)) (Js.of_Z 100))
        ∧ ∃ k : Z, v = Js.of_Z k ∧ (-100 ≤ k ≤ 100)%Z
                   ∧ (exact - 1 ≤ k ≤ exact)%Z
                   ∧ (¬ Props.endsInHalf net respondents → k = exact)
    end
  ∧ nps (Props.ballot 1 7 0) = Some (Js.of_Z 13)
  ∧ nps (Props.ballot 0 7 1) = Some (Js.of_Z (-12))
  ∧ nps (Props.ballot 23 17 0) = Some (Js.of_Z 57)
  ∧ nps (Props.ballot 0 29 11) = Some (Js.of_Z (-28)).
Proof.
  intros Hlen scores net respondents exact.
  split; [apply npsScores_values|].
  split; [done|]. split; [done|]. split; [|split].
  - intros q. split; [apply geb_Fin | apply leb_Fin].
  - pose proof (npsScores_length rs) as Hn. fold scores in Hn.
    pose proof (length_filter (λ s, Js.geb s (Js.of_Z 9) = true) scores) as Hp.
    pose proof (length_filter (λ s, Js.leb s (Js.of_Z 6) = true) scores) as Hd.
    fold (promoters scores) in Hp. fold (detractors scores) in Hd.
    unfold nps. fold scores. cbv zeta.
    destruct (0 <? length scores)%nat eqn:E.
    + apply Nat.ltb_lt in E.
      split; [intros Hnil; rewrite Hnil in E; simpl in E; lia|].
      unfold Js.of_nat. rewrite sub64_of_Z by (fold net; lia).
      fold net respondents. split; [done|].
      destruct (percentage_spec net respondents) as (k & Hk & Hb & _ & Hacc & Htie);
        [unfold respondents; lia | unfold net, respondents; lia |].
      exists k. split; [exact Hk|]. split; [done|]. split; [exact Hacc | exact Htie].
    + apply Nat.ltb_ge in E. destruct scores; [done | simpl in E; lia].
  - repeat split; vm_compute; reflexivity.
Qed.

Lemma nps_formula_and_bounds_witness :
  (Z.of_nat (length (Props.ballot 0 29 11)) < 2 ^ 32)%Z
  ∧ length (npsScores (Props.ballot 0 29 11)) = 40%nat
  ∧ ∃ k : Z, nps (Props.ballot 0 29 11) = Some (Js.of_Z k) ∧ (-100 ≤ k ≤ 100)%Z.
Proof.
  assert (Z.of_nat (length (Props.ballot 0 29 11)) < 2 ^ 32)%Z as H
    by (vm_compute; reflexivity).
  split; [exact H|]. split; [reflexivity|].
  destruct (nps_formula_and_bounds (Props.ballot 0 29 11) H) as (_ & _ & _ & _ & Hm & _).
  destruct (nps (Props.ballot 0 29 11)) as [v|]; [|discriminate Hm].
  destruct Hm as (_ & _ & k & -> & Hk & _). by exists k.
Defined.

(** *** Adoption and utilization *)

Lemma adoptionRate_percentage rows :
  rows ≠ [] →
  SessionDashboard.adoptionRate rows
  = Props.percentage (Z.of_nat (SessionDashboard.engagedEmployees rows))
                     (Z.of_nat (length rows)).
Proof.
  intros Hne. unfold SessionDashboard.adoptionRate, SessionDashboard.totalEmployees.
  destruct rows as [|r rows]; [done|].
  by replace (0 <? length (r :: rows))%nat with true
    by (symmetry; apply Nat.ltb_lt; simpl; lia).
Qed.

(** C6, the utilization of the home view at the scenario of the spec: with
    a roster of ten people of whom six hold sessions the stated rate is 60,
    and the home view reports 100. *)
Lemma utilizationRate_home_counterexample :
  length (HomeDashboard.enrolledEmployees Props.tenEmployees "All Cohorts") = 10%nat
  ∧ HomeDashboard.totalEmployeesCount Props.thirtySessionsSixPeople "All Cohorts" = 6%nat
  ∧ Props.spec_utilization 6 10 = Js.of_Z 60
  ∧ HomeDashboard.utilizationRate = Js.of_Z 100
  ∧ HomeDashboard.utilizationRate ≠ Props.spec_utilization 6 10.
Proof.
  assert (H : Props.spec_utilization 6 10 = Js.of_Z 60).
  { unfold Props.spec_utilization. simpl Nat.eqb. cbv iota.
    rewrite round_ratio by lia. reflexivity. }
  split; [reflexivity|]. split; [vm_compute; reflexivity|].
  split; [exact H|]. split; [reflexivity|].
  rewrite H. unfold HomeDashboard.utilizationRate, Js.of_Z.
  intros Heq. injection Heq. discriminate.
Qed.

(** C6 as amended.  In the session view the adoption rate is Math.round of
    the double (engaged / displayed) * 100, over the displayed rows, a row
    being engaged when its total is positive, and 0 when no row is
    displayed.  It is an integer between 0 and 100 that equals the exactly
    rounded percentage unless the exact percentage ends in one half, where
    the roundings of the quotient and of the product can make it one less:
    ten rows of which six are engaged give 60, forty rows of which 23 are
    engaged give 57.  The home view reports the constant 100. *)
Theorem adoptionRate_formula (rows : list SessionDashboard.Stat) :
  (Z.of_nat (length rows) < 2 ^ 32)%Z →
  let shown := length rows in
  let engaged := length (filter (λ e, (0 < SessionDashboard.total e)%nat) rows) in
  let exact := Js.round_half_up
                 (Qc_of_Z (Z.of_nat engaged) / Qc_of_Z (Z.of_nat shown) * Qc_of_Z 100)%Qc in
  SessionDashboard.adoptionRate rows
  = (if decide (shown = 0%nat) then Js.of_Z 0
     else Js.Math_round
            (Js.mul64 (Js.div64 (Js.of_nat engaged) (Js.of_nat shown)) (Js.of_Z 100)))
  ∧ (∃ k : Z, SessionDashboard.adoptionRate rows = Js.of_Z k ∧ (0 ≤ k ≤ 100)%Z
              ∧ (shown ≠ 0%nat →
                 (exact - 1 ≤ k ≤ exact)%Z
                 ∧ (¬ Props.endsInHalf (Z.of_nat engaged) (Z.of_nat shown) → k = exact)))
  ∧ (shown = 10%nat → engaged = 6%nat → SessionDashboard.adoptionRate rows = Js.of_Z 60)
  ∧ (shown = 40%nat → engaged = 23%nat → SessionDashboard.adoptionRate rows = Js.of_Z 57)
  ∧ HomeDashboard.utilizationRate = Js.of_Z 100.
Proof.
  intros Hlen shown engaged exact.
  assert (Hle : (engaged ≤ shown)%nat) by apply length_filter.
  assert (Hmain : SessionDashboard.adoptionRate rows
            = (if decide (shown = 0%nat) then Js.of_Z 0
               else Props.percentage (Z.of_nat engaged) (Z.of_nat shown))).
  { case_decide as Hs.
    - destruct rows; [reflexivity | done].
    - apply adoptionRate_percentage. by intros ->. }
  split; [exact Hmain|]. split; [|split; [|split; [|reflexivity]]].
  - rewrite Hmain. case_decide as Hs.
    + exists 0%Z. split; [done|]. split; [lia | done].
    + destruct (percentage_spec (Z.of_nat engaged) (Z.of_nat shown))
        as (k & Hk & Hb & Hpos & Hacc & Htie); [unfold shown; lia | lia |].
      exists k. split; [exact Hk|]. split; [lia|]. intros _. split; [exact Hacc | exact Htie].
  - intros H10 H6. rewrite Hmain, H10, H6. vm_compute. reflexivity.
  - intros H40 H23. rewrite Hmain, H40, H23. vm_compute. reflexivity.
Qed.

Lemma adoptionRate_formula_witness :
  (Z.of_nat (length Props.tenRowsSixEngaged) < 2 ^ 32)%Z
  ∧ length Props.tenRowsSixEngaged = 10%nat
  ∧ length (filter (λ e, (0 < SessionDashboard.total e)%nat) Props.tenRowsSixEngaged) = 6%nat
  ∧ SessionDashboard.adoptionRate Props.tenRowsSixEngaged = Js.of_Z 60
  ∧ SessionDashboard.adoptionRate (Props.rowsEngaged 23 17) = Js.of_Z 57.
Proof.
  split; [vm_compute; reflexivity|]. split; [reflexivity|]. split; [reflexivity|].
  split.
  - apply (adoptionRate_formula Props.tenRowsSixEngaged);
      [vm_compute; reflexivity | reflexivity | reflexivity].
  - apply (adoptionRate_formula (Props.rowsEngaged 23 17));
      [vm_compute; reflexivity | reflexivity | reflexivity].
Defined.

(** *** Program progress *)

Lemma Math_min_of_Z a b : Js.Math_min (Js.of_Z a) (Js.of_Z b) = Js.of_Z (Z.min a b).
Proof.
  unfold Js.Math_min, Js.of_Z, Js.ltb.
  destruct (decide (b < a)%Z) as [H|H].
  - rewrite bool_decide_eq_true_2 by (by apply Qc_of_Z_lt). by rewrite Z.min_r by lia.
  - rewrite bool_decide_eq_false_2 by (by rewrite Qc_of_Z_lt). by rewrite Z.min_l by lia.
Qed.

Lemma gtb_Fin_0 t : (0 < t)%Qc → Js.gtb (Js.Fin t) (Js.of_Z 0) = true.
Proof.
  intros Ht. unfold Js.gtb, Js.ltb, Js.of_Z.
  apply bool_decide_eq_true_2. by rewrite Qc_of_Z_0.
Qed.

Lemma mul_zero_not_positive x :
  Js.gtb (Js.mul64 (Js.of_nat 0) x) (Js.of_Z 0) = false.
Proof.
  unfold Js.mul64, Js.of_nat. change (Z.of_nat 0) with 0%Z. unfold Js.of_Z.
  rewrite Qc_of_Z_0.
  destruct x as [|neg|q]; [reflexivity| |].
  - unfold Js.mul. by rewrite bool_decide_eq_true_2.
  - unfold Js.mul. rewrite Qcmult_0_l. reflexivity.
Qed.

Lemma configMatches_spec companyName row :
  HomeDashboard.configMatches companyName row = true ↔
  ∃ a, ProgramConfig.account_name row = Some a ∧ a ≠ ""
       ∧ (a = Js.split_head companyName " - " ∨ a = companyName).
Proof.
  unfold HomeDashboard.configMatches, HomeDashboard.currentAccountName.
  destruct (ProgramConfig.account_name row) as [a|].
  - rewrite orb_true_iff, !andb_true_iff, !negb_true_iff, !String.eqb_eq, String.eqb_neq.
    split.
    + intros [[Hne ->] | [Hne ->]]; eexists; eauto.
    + intros (a' & [= <-] & Hne & [-> | ->]); auto.
  - split; [done | by intros (a & ? & _)].
Qed.

(** C7, where the code departs from the stated rule: the people counted in
    the target are those who appear in the sessions of the cohort, not the
    roster.  With a roster of ten, twelve sessions per person and thirty
    completed sessions held by six people, the stated formula gives 25 and
    the home view reports 42.  And for a view without sessions the stated
    formula is 0 / 0, not a number, where the home view reports 0. *)
Lemma progressPct_roster_counterexample :
  (Props.spec_progress 0 0 12 = Js.NaN
   ∧ HomeDashboard.progressPct [] [] "Acme" "All Cohorts" 1800000000000 = Js.of_Z 0)
  ∧ length (HomeDashboard.enrolledEmployees Props.tenEmployees "All Cohorts") = 10%nat
  ∧ HomeDashboard.completedSessionsCount Props.thirtySessionsSixPeople "All Cohorts"
      1800000000000 = 30%nat
  ∧ HomeDashboard.sessionsPerEmployee [] "Acme" = Js.of_Z 12
  ∧ Props.spec_progress 30 10 12 = Js.of_Z 25
  ∧ HomeDashboard.progressPct Props.thirtySessionsSixPeople [] "Acme" "All Cohorts"
      1800000000000 = Js.of_Z 42
  ∧ Js.of_Z 42 ≠ Js.of_Z 25.
Proof.
  repeat split; try (vm_compute; reflexivity).
  intros H. injection H. discriminate.
Qed.

(** Whatever the configuration holds, the progress is an integer between 0
    and 100. *)
Lemma progressPct_range sessions programConfig companyName selectedCohort now :
  ∃ k : Z,
    HomeDashboard.progressPct sessions programConfig companyName selectedCohort now
    = Js.of_Z k ∧ (0 ≤ k ≤ 100)%Z.
Proof.
  unfold HomeDashboard.progressPct.
  set (target := HomeDashboard.targetSessions _ _ _ _).
  set (completed := HomeDashboard.completedSessionsCount _ _ _).
  destruct (Js.gtb target (Js.of_Z 0)) eqn:Hgt; [|exists 0%Z; split; [done | lia]].
  destruct target as [|neg|t]; [done| |].
  - destruct neg; [done|]. exists 0%Z. split; [|lia]. vm_compute. reflexivity.
  - assert (0 < t)%Q as Ht.
    { unfold Js.gtb, Js.ltb, Js.of_Z in Hgt. apply bool_decide_eq_true in Hgt.
      by rewrite Qc_of_Z_0 in Hgt. }
    unfold Js.of_nat, Js.div64. unfold Js.of_Z at 2.
    rewrite div_Fin by (by apply Qc_neq_0). cbn [Js.to_double].
    pose proof (this_Qcdiv (Qc_of_Z (Z.of_nat completed)) t) as Hq.
    assert (0 <= (Qc_of_Z (Z.of_nat completed) / t)%Qc)%Q as Hq0.
    { rewrite Hq. apply Qle_shift_div_l; [done|].
      change (this (Qc_of_Z (Z.of_nat completed))) with (inject_Z (Z.of_nat completed)).
      assert (0 <= inject_Z (Z.of_nat completed))%Q by (rewrite <- (Zle_Qle 0); lia).
      lra. }
    destruct (round64_nonneg _ Hq0) as [(y & -> & Hy) | ->];
      [|exists 100%Z; split; [reflexivity | lia]].
    change (Js.mul64 (Js.Fin y) (Js.of_Z 100)) with (Js.round64 (y * Qc_of_Z 100)).
    pose proof (this_Qcmult_Z y 100) as Hw. change (inject_Z 100) with 100%Q in Hw.
    assert (0 <= (y * Qc_of_Z 100)%Qc)%Q as Hw0 by (rewrite Hw; lra).
    destruct (round64_nonneg _ Hw0) as [(z & -> & Hz) | ->];
      [|exists 100%Z; split; [reflexivity | lia]].
    cbn [Js.Math_round]. rewrite Math_min_of_Z.
    eexists. split; [reflexivity|].
    assert (0 ≤ Js.round_half_up z)%Z.
    { unfold Js.round_half_up. change 0%Z with (Qfloor 0). apply Qfloor_resp_le. lra. }
    lia.
Qed.

(** C7 as amended.  Program progress is min(100, Math.round of the double
    (completed / (people x sessions-per-person)) * 100) whenever that target
    is positive, and 0 when the cohort has no participant; people is the
    number of distinct participants of the cohort's sessions.  The
    sessions-per-person figure is read from the first configuration row
    whose account name equals the company name (with or without its " - "
    suffix), and is 12 when no row matches.  The result is always an integer
    between 0 and 100; for a whole number of sessions per person it equals
    min(100, the exactly rounded percentage) unless the exact percentage ends
    in one half, where the roundings of the quotient and of the product can
    make it one less.  Ten people, twelve sessions each and thirty completed
    sessions give 25; ten people, four sessions each and 23 completed
    sessions give 57. *)
Theorem progressPct_formula
    (sessions : list Session.t) (programConfig : list ProgramConfig.t)
    (companyName selectedCohort : string) (now : Z) :
  let roster := HomeDashboard.totalEmployeesCount sessions selectedCohort in
  let completed := HomeDashboard.completedSessionsCount sessions selectedCohort now in
  let perPerson := HomeDashboard.sessionsPerEmployee programConfig companyName in
  let account := Js.split_head companyName " - " in
  let progress :=
    HomeDashboard.progressPct sessions programConfig companyName selectedCohort now in
  match HomeDashboard.config programConfig companyName with
  | Some row =>
      row ∈ programConfig
      ∧ (∃ a, ProgramConfig.account_name row = Some a ∧ a ≠ ""
              ∧ (a = account ∨ a = companyName))
      ∧ (∀ q, ProgramConfig.sessions_per_employee row = Some (Js.Fin q) →
              q ≠ 0%Qc → perPerson = Js.Fin q)
  | None =>
      (∀ row a, row ∈ programConfig → ProgramConfig.account_name row = Some a →
                a ≠ "" → a ≠ account ∧ a ≠ companyName)
      ∧ perPerson = Js.of_Z 12
  end
  ∧ (∃ k : Z, progress = Js.of_Z k ∧ (0 ≤ k ≤ 100)%Z)
  ∧ (∀ each : Z, perPerson = Js.of_Z each → (0 < each)%Z → (0 < roster)%nat →
       (Z.of_nat roster * each < 2 ^ 53)%Z → (Z.of_nat completed < 2 ^ 44)%Z →
       let target := (Z.of_nat roster * each)%Z in
       let exact := Js.round_half_up
                      (Qc_of_Z (Z.of_nat completed) / Qc_of_Z target * Qc_of_Z 100)%Qc in
       progress
       = Js.Math_min (Js.of_Z 100)
           (Js.Math_round
              (Js.mul64 (Js.div64 (Js.of_nat completed) (Js.of_Z target)) (Js.of_Z 100)))
       ∧ ∃ k : Z, progress = Js.of_Z k
                  ∧ (Z.min 100 (exact - 1) ≤ k ≤ Z.min 100 exact)%Z
                  ∧ (¬ Props.endsInHalf (Z.of_nat completed) target
                     → k = Z.min 100 exact))
  ∧ (roster = 0%nat → progress = Js.of_Z 0)
  ∧ (roster = 10%nat → perPerson = Js.of_Z 12 → completed = 30%nat →
     progress = Js.of_Z 25)
  ∧ (roster = 10%nat → perPerson = Js.of_Z 4 → completed = 23%nat →
     progress = Js.of_Z 57).
Proof.
  intros roster completed perPerson account progress.
  assert (Hvalue : ∀ each : Z, perPerson = Js.of_Z each → (0 < each)%Z → (0 < roster)%nat →
            (Z.of_nat roster * each < 2 ^ 53)%Z →
            progress = Js.Math_min (Js.of_Z 100)
                         (Props.percentage (Z.of_nat completed) (Z.of_nat roster * each))).
  { intros each Heach Hpos Hroster Hsize.
    unfold progress, HomeDashboard.progressPct, HomeDashboard.targetSessions.
    fold roster completed perPerson. rewrite Heach.
    unfold Js.of_nat. rewrite mul64_of_Z by lia.
    assert (Js.gtb (Js.of_Z (Z.of_nat roster * each)) (Js.of_Z 0) = true) as ->; [|done].
    apply gtb_Fin_0. rewrite <- Qc_of_Z_0. apply Qc_of_Z_lt. lia. }
  split; [|split; [apply progressPct_range|split; [|split; [|split]]]].
  - unfold perPerson, HomeDashboard.sessionsPerEmployee, HomeDashboard.config.
    destruct (find _ programConfig) as [row|] eqn:Hfind.
    + apply find_some in Hfind as [Hin Hm].
      split; [by apply list_elem_of_In|].
      split; [by apply configMatches_spec|].
      intros q Hq Hne. simpl. rewrite Hq. simpl.
      by rewrite bool_decide_eq_false_2.
    + split; [|reflexivity].
      intros row a Hin Ha Hne.
      pose proof (find_none _ _ Hfind row (proj1 (list_elem_of_In _ _) Hin)) as Hno.
      apply not_true_iff_false in Hno. rewrite configMatches_spec in Hno.
      split; intros ->; apply Hno; eauto.
  - intros each Heach Hpos Hroster Hsize Hdone target exact.
    rewrite (Hvalue each Heach Hpos Hroster Hsize). fold target.
    split; [reflexivity|].
    destruct (percentage_accurate (Z.of_nat completed) target)
      as (k & Hk & Hacc & Htie); [unfold target; lia | lia |].
    unfold exact. rewrite round_ratio by (unfold target; lia).
    rewrite Hk, Math_min_of_Z. eexists. split; [reflexivity|].
    split; [lia|]. intros Hne. by rewrite (Htie Hne).
  - intros H0.
    unfold progress, HomeDashboard.progressPct, HomeDashboard.targetSessions.
    fold roster perPerson. by rewrite H0, mul_zero_not_positive.
  - intros H10 H12 H30.
    rewrite (Hvalue 12%Z H12); [|lia|lia|lia]. rewrite H10, H30.
    vm_compute. reflexivity.
  - intros H10 H4 H23.
    rewrite (Hvalue 4%Z H4); [|lia|lia|lia]. rewrite H10, H23.
    vm_compute. reflexivity.
Qed.

Lemma progressPct_formula_witness :
  HomeDashboard.totalEmployeesCount Props.thirtySessionsTenPeople "All Cohorts" = 10%nat
  ∧ HomeDashboard.sessionsPerEmployee [] "Acme - GROW" = Js.of_Z 12
  ∧ HomeDashboard.completedSessionsCount Props.thirtySessionsTenPeople "All Cohorts"
      1800000000000 = 30%nat
  ∧ HomeDashboard.progressPct Props.thirtySessionsTenPeople [] "Acme - GROW" "All Cohorts"
      1800000000000 = Js.of_Z 25.
Proof.
  split; [vm_compute; reflexivity|]. split; [reflexivity|].
  split; [vm_compute; reflexivity|].
  apply (progressPct_formula Props.thirtySessionsTenPeople [] "Acme - GROW" "All Cohorts"
                             1800000000000);
    [vm_compute; reflexivity | reflexivity | vm_compute; reflexivity].
Defined.

(** *** Quote extraction *)

Section Quotes.
Import HomeDashboard.

Lemma includes_any_false s ws :
  Js.includes_any s ws = false ↔ ∀ w, w ∈ ws → Js.includes s w = false.
Proof.
  unfold Js.includes_any. induction ws as [|w ws IH]; simpl.
  - split; [intros _ w Hw; by apply not_elem_of_nil in Hw | done].
  - rewrite orb_false_iff, IH. split.
    + intros [Hw Hws] w' [-> | Hin]%elem_of_cons; auto.
    + intros H. split; [apply H; left | intros w' Hw'; apply H; by right].
Qed.

Lemma includes_any_true s ws :
  Js.includes_any s ws = true ↔ ∃ w, w ∈ ws ∧ Js.includes s w = true.
Proof.
  unfold Js.includes_any. rewrite existsb_exists.
  split; intros (w & Hin & Hw); exists w; split; try done; by apply list_elem_of_In.
Qed.

Lemma acceptable_selectable text : acceptable text = true → Props.selectable text.
Proof.
  unfold acceptable, Props.selectable.
  destruct (String.length text <? 20)%nat eqn:Hlen; [done|].
  destruct (Js.includes_any _ negativeKeywords) eqn:Hneg; [done|].
  destruct (Js.includes_any _ positiveKeywords) eqn:Hpos; [|done].
  intros _. apply Nat.ltb_ge in Hlen.
  split; [done|]. split; [by apply includes_any_false | by apply includes_any_true].
Qed.

Lemma insertByScore_Permutation x sorted : insertByScore x sorted ≡ₚ x :: sorted.
Proof.
  induction sorted as [|y rest IH]; simpl; [done|].
  destruct (actionScore y <? actionScore x)%nat; [done|].
  rewrite IH. apply Permutation_swap.
Qed.

Lemma sortByScore_Permutation texts : sortByScore texts ≡ₚ texts.
Proof.
  unfold sortByScore.
  assert (H : ∀ acc, fold_left (λ acc x, insertByScore x acc) texts acc ≡ₚ texts ++ acc).
  { induction texts as [|x texts IH]; intros acc; simpl; [done|].
    rewrite IH, insertByScore_Permutation. by rewrite Permutation_middle. }
  rewrite H. by rewrite app_nil_r.
Qed.

Lemma candidates_selectable (data : list Feedback) :
  Forall (λ q, (∃ d, d ∈ data ∧ feedbackText d = Some q) ∧ Props.selectable q)
         (omap feedbackText (filter (λ d, keeps d = true) data)).
Proof.
  apply Forall_forall. intros q Hq.
  apply list_elem_of_omap in Hq as (d & Hd & Htext).
  apply list_elem_of_filter in Hd as [Hkeep Hin].
  split; [eauto|].
  unfold keeps in Hkeep. rewrite Htext in Hkeep.
  destruct (String.eqb q ""); [done|]. by apply acceptable_selectable.
Qed.

Lemma getQualityQuotes_selectable (data : list Feedback) :
  Forall (λ q, (∃ d, d ∈ data ∧ feedbackText d = Some q) ∧ Props.selectable q)
         (getQualityQuotes data).
Proof.
  unfold getQualityQuotes. apply Forall_take.
  rewrite sortByScore_Permutation. apply candidates_selectable.
Qed.

Lemma dismissive_not_selectable : ¬ Props.selectable "n/a, nothing to add".
Proof.
  intros (_ & Hneg & _).
  specialize (Hneg "n/a"). discriminate Hneg.
  unfold negativeKeywords. set_solver.
Qed.

End Quotes.

(** C8. The quote extractor returns at most three strings.  Every string it
    returns is the feedback text of an input record, has at least 20
    characters, contains (in lower case) no word of the negative list and at
    least one word of the positive list; "n/a, nothing to add" is never
    returned.  The same holds for the quotes of the home view, whichever
    source they are drawn from. *)
Theorem getQualityQuotes_filter (data : list Feedback) :
  (length (HomeDashboard.getQualityQuotes data) ≤ 3)%nat
  ∧ Forall (λ q, (∃ d, d ∈ data ∧ HomeDashboard.feedbackText d = Some q)
                 ∧ (20 ≤ String.length q)%nat
                 ∧ (∀ w, w ∈ HomeDashboard.negativeKeywords →
                         Js.includes (Js.toLowerCase q) w = false)
                 ∧ (∃ w, w ∈ HomeDashboard.positiveKeywords
                         ∧ Js.includes (Js.toLowerCase q) w = true))
           (HomeDashboard.getQualityQuotes data)
  ∧ ("n/a, nothing to add" ∉ HomeDashboard.getQualityQuotes data)
  ∧ ∀ sessions competencies surveys employees selectedCohort,
      let quotes := HomeDashboard.quotes sessions competencies surveys employees
                                         selectedCohort in
      ((length quotes ≤ 3)%nat ∧ Forall Props.selectable quotes
       ∧ "n/a, nothing to add" ∉ quotes).
Proof.
  assert (Hall : ∀ data', (length (HomeDashboard.getQualityQuotes data') ≤ 3)%nat
                          ∧ Forall Props.selectable (HomeDashboard.getQualityQuotes data')
                          ∧ "n/a, nothing to add" ∉ HomeDashboard.getQualityQuotes data').
  { intros data'. split; [|split].
    - unfold HomeDashboard.getQualityQuotes. rewrite length_take. lia.
    - eapply Forall_impl; [apply getQualityQuotes_selectable|]. by intros q [_ Hq].
    - intros Hin.
      pose proof (getQualityQuotes_selectable data') as Hsel.
      rewrite Forall_forall in Hsel. destruct (Hsel _ Hin) as [_ Hq].
      by apply dismissive_not_selectable. }
  split; [apply Hall|]. split; [apply getQualityQuotes_selectable|].
  split; [apply Hall|].
  intros sessions competencies surveys employees selectedCohort quotes.
  unfold quotes, HomeDashboard.quotes.
  destruct (HomeDashboard.isCompleted _ _); apply Hall.
Qed.

(** *** The cohort filter *)

(** C1, where the code departs from the stated rule.  A session that only
    carries a cohort label is resolved to that label by the stated
    precedence, yet a program filter with the same value rejects it; a
    program name with surrounding blanks equals the filter value after
    trimming, yet is rejected; a cohort filter reads the cohort field
    before the program name; and the home view accepts a program name that
    differs from the selection in case. *)
Lemma cohort_filter_counterexample :
  (Props.spec_cohortMatch Props.sessionCohortOnly "CP-0028" = true
   ∧ SessionDashboard.includeSession SessionDashboard.FProgram "CP-0028"
       Props.sessionCohortOnly = false)
  ∧ (Props.spec_cohortMatch Props.sessionPadded "CP-0028" = true
     ∧ SessionDashboard.includeSession SessionDashboard.FProgram "CP-0028"
         Props.sessionPadded = false)
  ∧ (Props.spec_cohortMatch Props.sessionTwoLabels "Spring" = false
     ∧ SessionDashboard.includeSession SessionDashboard.FCohort "Spring"
         Props.sessionTwoLabels = true)
  ∧ (Props.spec_cohortMatch Props.sessionLowerCase "CP-0028" = false
     ∧ HomeDashboard.inCohort "CP-0028" Props.sessionLowerCase = true).
Proof. repeat split; reflexivity. Qed.

(** C1 as amended.  In the session view a program filter passes a session
    exactly when its program name, else its legacy program code, else the
    empty string, is identical to the filter value, and a cohort filter
    exactly when its cohort, else its program name, else the empty string,
    is identical to the filter value: the comparison is case-sensitive and
    nothing is trimmed.  The trend chart applies the same tests (an absent
    cohort and program name never match).  The home view compares the
    lower-cased, trimmed selection with each of the lower-cased, trimmed
    program name, cohort and program code.  A session whose program field is
    "CP-0028-extra" does not match the value "CP-0028". *)
Theorem cohort_filter_exact (s : Session.t) (value : string) :
  let programField := Js.or_lit (Js.or (Session.program_name s) (Session.program s)) "" in
  let cohortField := Js.or_lit (Js.or (Session.cohort s) (Session.program_name s)) "" in
  (SessionDashboard.includeSession SessionDashboard.FProgram value s = true
   ↔ programField = value)
  ∧ (SessionDashboard.includeSession SessionDashboard.FCohort value s = true
     ↔ cohortField = value)
  ∧ (SimpleTrendChart.passesFilter SessionDashboard.FProgram value s = true
     ↔ programField = value)
  ∧ (SimpleTrendChart.passesFilter SessionDashboard.FCohort value s = true
     ↔ Js.or (Session.cohort s) (Session.program_name s) = Some value)
  ∧ (HomeDashboard.inCohort value s = true
     ↔ value = "All Cohorts"
       ∨ HomeDashboard.normalize (Session.program_name s) = HomeDashboard.normalize (Some value)
       ∨ HomeDashboard.normalize (Session.cohort s) = HomeDashboard.normalize (Some value)
       ∨ HomeDashboard.normalize (Session.program s) = HomeDashboard.normalize (Some value))
  ∧ (programField = "CP-0028-extra" →
     SessionDashboard.includeSession SessionDashboard.FProgram "CP-0028" s = false
     ∧ SimpleTrendChart.passesFilter SessionDashboard.FProgram "CP-0028" s = false)
  ∧ HomeDashboard.inCohort "CP-0028" Props.sessionExtra = false.
Proof.
  intros programField cohortField.
  split; [apply String.eqb_eq|]. split; [apply String.eqb_eq|].
  split; [apply String.eqb_eq|]. split; [|split; [|split; [|reflexivity]]].
  - unfold SimpleTrendChart.passesFilter.
    destruct (Js.or (Session.cohort s) (Session.program_name s)) as [c|]; simpl.
    + rewrite String.eqb_eq. split; [by intros -> | by intros [= ->]].
    + split; intros H; discriminate H.
  - unfold HomeDashboard.inCohort, HomeDashboard.isAll, HomeDashboard.selNorm.
    destruct (String.eqb value "All Cohorts") eqn:E.
    + apply String.eqb_eq in E. tauto.
    + apply String.eqb_neq in E.
      rewrite !orb_true_iff, !String.eqb_eq. tauto.
  - intros Hfield.
    unfold SessionDashboard.includeSession, SimpleTrendChart.passesFilter,
      SessionDashboard.sessionProgram.
    fold programField. rewrite Hfield. split; reflexivity.
Qed.

Lemma cohort_filter_exact_witness :
  Js.or_lit (Js.or (Session.program_name Props.sessionExtra)
                   (Session.program Props.sessionExtra)) "" = "CP-0028-extra"
  ∧ SessionDashboard.includeSession SessionDashboard.FProgram "CP-0028"
      Props.sessionExtra = false
  ∧ SimpleTrendChart.passesFilter SessionDashboard.FProgram "CP-0028"
      Props.sessionExtra = false.
Proof.
  split; [reflexivity|].
  apply (cohort_filter_exact Props.sessionExtra "CP-0028"). reflexivity.
Defined.

(** *** Ingestion of competency scores *)

Lemma StringToNumber_blank s : Js.trim s = "" → Js.StringToNumber s = Js.of_Z 0.
Proof. intros H. unfold Js.StringToNumber. by rewrite H. Qed.

(** A text whose first character, after trimming, cannot start a numeric
    literal is not a number. *)
Lemma StringToNumber_not_numeric s c rest :
  Js.trim s = String c rest →
  Js.digit_val 10 c = None →
  c ≠ "+"%char → c ≠ "-"%char → c ≠ "."%char → c ≠ "I"%char →
  Js.StringToNumber s = Js.NaN.
Proof.
  intros Htrim Hdigit Hplus Hminus Hdot HI.
  unfold Js.StringToNumber. rewrite Htrim. clear Htrim.
  destruct c as [[] [] [] [] [] [] [] []];
    try discriminate Hdigit; try done; reflexivity.
Qed.

(** C10, where the code departs from the stated rule: a row whose pre and
    post values are non-numeric text is ingested with [NaN] scores, not with
    zeros. *)
Lemma ingest_non_numeric_counterexample :
  let scores := DataFetcher.getCompetencyScores
                  (DataFetcher.Rows [Props.rawScoreWith (Js.VStr "abc") (Js.VStr "N/A")]) in
  map CompetencyScore.pre scores = [Js.NaN]
  ∧ map CompetencyScore.post scores = [Js.NaN]
  ∧ Js.NaN ≠ Js.of_Z 0.
Proof. repeat split; done. Qed.

(** C10 as amended.  Ingestion never fails: a failed fetch gives no records
    and a successful one gives one record per row.  A pre or post value that
    is [null] or [undefined] becomes 0; a number is kept as it is; any other
    value goes through [Number()], so that blank text becomes 0, numeric
    text becomes its value, and non-numeric text becomes [NaN].  An
    ingested score is [NaN] only for a [NaN] number or for text that is not
    a numeric literal. *)
Theorem getCompetencyScores_coercion (d : DataFetcher.RawScore) (v : Js.JsValue) :
  DataFetcher.getCompetencyScores DataFetcher.Failed = []
  ∧ (∀ data, length (DataFetcher.getCompetencyScores (DataFetcher.Rows data)) = length data
             ∧ (d ∈ data →
                DataFetcher.ingest d ∈ DataFetcher.getCompetencyScores (DataFetcher.Rows data)))
  ∧ CompetencyScore.pre (DataFetcher.ingest d) = DataFetcher.coerce (DataFetcher.raw_pre d)
  ∧ CompetencyScore.post (DataFetcher.ingest d) = DataFetcher.coerce (DataFetcher.raw_post d)
  ∧ DataFetcher.coerce Js.VNull = Js.of_Z 0
  ∧ DataFetcher.coerce Js.VUndefined = Js.of_Z 0
  ∧ (∀ x, DataFetcher.coerce (Js.VNum x) = x)
  ∧ (∀ s, Js.trim s = "" → DataFetcher.coerce (Js.VStr s) = Js.of_Z 0)
  ∧ DataFetcher.coerce (Js.VStr "4") = Js.of_Z 4
  ∧ DataFetcher.coerce (Js.VStr "abc") = Js.NaN
  ∧ (∀ s c rest, Js.trim s = String c rest → Js.digit_val 10 c = None →
                 c ≠ "+"%char → c ≠ "-"%char → c ≠ "."%char → c ≠ "I"%char →
                 DataFetcher.coerce (Js.VStr s) = Js.NaN)
  ∧ (Js.isNaN (DataFetcher.coerce v) = true
     ↔ v = Js.VNum Js.NaN ∨ ∃ s, v = Js.VStr s ∧ Js.isNaN (Js.StringToNumber s) = true).
Proof.
  split; [reflexivity|]. split.
  { intros data. split; [apply length_map|].
    intros Hd. simpl. by apply list_elem_of_fmap_2. }
  do 5 (split; [reflexivity|]).
  split; [intros s Hs; by apply StringToNumber_blank|].
  split; [apply (f_equal Js.Fin), Qc_is_canon; reflexivity|].
  split; [reflexivity|].
  split; [intros s c rest; apply StringToNumber_not_numeric|].
  destruct v as [| |b|x|s]; simpl.
  - split; [done | intros [H | (s & H & _)]; discriminate H].
  - split; [done | intros [H | (s & H & _)]; discriminate H].
  - split; [by destruct b | intros [H | (s & H & _)]; discriminate H].
  - split.
    + destruct x; try done. by left.
    + intros [[= ->] | (s & H & _)]; [done | discriminate H].
  - split.
    + intros H. right. eauto.
    + intros [H | (s' & [= <-] & H)]; [discriminate H | done].
Qed.

Lemma getCompetencyScores_coercion_witness :
  DataFetcher.coerce (Js.VStr "  ") = Js.of_Z 0
  ∧ DataFetcher.coerce (Js.VStr " n/a") = Js.NaN.
Proof.
  pose proof (getCompetencyScores_coercion
                (Props.rawScoreWith Js.VNull Js.VNull) Js.VNull)
    as (_ & _ & _ & _ & _ & _ & _ & Hblank & _ & _ & Htext & _).
  split.
  - apply Hblank. reflexivity.
  - apply (Htext " n/a" "n"%char "/a"); [reflexivity | reflexivity | done..].
Defined.

(** *** Competency growth *)

Section JsMapKeys.
Context {V : Type}.
Implicit Types (m : Js.JsMap V) (k : string) (v : V).

Lemma has_get k m : Js.has k m = true ↔ is_Some (Js.get k m).
Proof. unfold Js.has. destruct (Js.get k m); split; (done || by intros [? ?] || eauto). Qed.

Lemma get_None_keys k m : Js.get k m = None ↔ k ∉ map fst m.
Proof.
  induction m as [|[k' v'] m IH]; simpl.
  - split; [intros _; apply not_elem_of_nil | done].
  - rewrite not_elem_of_cons. destruct (String.eqb k k') eqn:E.
    + apply String.eqb_eq in E. split; [done | by intros [? _]].
    + apply String.eqb_neq in E. rewrite IH. tauto.
Qed.

Lemma set_keys_NoDup k v m : NoDup (map fst m) → NoDup (map fst (Js.set k v m)).
Proof.
  induction m as [|[k' v'] m IH]; simpl; intros Hm.
  - apply NoDup_singleton.
  - apply NoDup_cons in Hm as [Hk' Hm].
    destruct (String.eqb k k') eqn:E; simpl; apply NoDup_cons; [done|].
    apply String.eqb_neq in E. split; [|by apply IH].
    rewrite <- get_None_keys. rewrite get_set_ne by done. by apply get_None_keys.
Qed.

Lemma elem_of_get k v m : NoDup (map fst m) → (k, v) ∈ m → Js.get k m = Some v.
Proof.
  induction m as [|[k' v'] m IH]; simpl; intros Hm Hin.
  - by apply not_elem_of_nil in Hin.
  - apply NoDup_cons in Hm as [Hk' Hm].
    apply elem_of_cons in Hin as [[= <- <-] | Hin]; [by rewrite String.eqb_refl|].
    destruct (String.eqb k k') eqn:E; [|by apply IH].
    apply String.eqb_eq in E. subst k'. exfalso. apply Hk'.
    apply list_elem_of_fmap. by exists (k, v).
Qed.

Lemma get_elem_of k v m : Js.get k m = Some v → (k, v) ∈ m.
Proof.
  induction m as [|[k' v'] m IH]; simpl; [done|].
  destruct (String.eqb k k') eqn:E.
  - apply String.eqb_eq in E. intros [= ->]. subst. left.
  - intros H. right. by apply IH.
Qed.
End JsMapKeys.

Section Impact.
Import ImpactDashboard.

Lemma validRecords_snoc key scores s :
  Props.validRecords key (scores ++ [s])
  = Props.validRecords key scores
    ++ (if decide (valid s = true ∧ CompetencyScore.competency s = key) then [s] else []).
Proof.
  unfold Props.validRecords. by rewrite filter_app.
Qed.

Lemma sumOf_snoc f records s :
  Props.sumOf f (records ++ [s]) = Js.add (Props.sumOf f records) (f s).
Proof. unfold Props.sumOf. by rewrite fold_left_app. Qed.

Lemma expectedAcc_name key scores acc :
  Props.expectedAcc key scores = Some acc → acc_name acc = key.
Proof.
  unfold Props.expectedAcc. destruct (Props.validRecords key scores); [done|].
  by intros [= <-].
Qed.

(** The accumulator map holds, for every competency, the sums and the count
    of its valid records, and nothing else. *)
Lemma compMap_spec scores :
  NoDup (map fst (compMap scores))
  ∧ ∀ key, Js.get key (compMap scores) = Props.expectedAcc key scores.
Proof.
  unfold compMap. induction scores as [|s scores IH] using rev_ind.
  - split; [constructor | done].
  - rewrite fold_left_app. simpl. destruct IH as [Hnd Hget].
    set (m := fold_left accumulate scores []) in *.
    unfold accumulate. destruct (valid s) eqn:Hvalid.
    2:{ split; [done|]. intros key. rewrite Hget.
        unfold Props.expectedAcc. rewrite validRecords_snoc.
        rewrite decide_False by (rewrite Hvalid; by intros [? _]).
        by rewrite app_nil_r. }
    set (k := CompetencyScore.competency s).
    set (m1 := if Js.has k m then m else Js.set k (mkAcc k (Js.of_Z 0) (Js.of_Z 0) 0) m).
    assert (Hnd1 : NoDup (map fst m1)).
    { unfold m1. destruct (Js.has k m); [done | by apply set_keys_NoDup]. }
    assert (Hk1 : Js.get k m1
                  = Some (default (mkAcc k (Js.of_Z 0) (Js.of_Z 0) 0) (Js.get k m))).
    { unfold m1. destruct (Js.has k m) eqn:Hhas.
      - apply has_get in Hhas as [acc Hacc]. by rewrite Hacc.
      - rewrite get_set_eq. unfold Js.has in Hhas. by destruct (Js.get k m). }
    assert (Hother : ∀ key, key ≠ k → Js.get key m1 = Js.get key m).
    { intros key Hne. unfold m1. destruct (Js.has k m); [done|].
      by rewrite get_set_ne. }
    rewrite Hk1. split; [by apply set_keys_NoDup|].
    intros key. destruct (decide (key = k)) as [->|Hne].
    + rewrite get_set_eq. rewrite Hget.
      unfold Props.expectedAcc. rewrite validRecords_snoc.
      rewrite decide_True by done.
      destruct (Props.validRecords k scores) as [|r records] eqn:Hrecs; simpl.
      * reflexivity.
      * change (r :: records ++ [s]) with ((r :: records) ++ [s]).
        rewrite !sumOf_snoc, length_app. simpl. reflexivity.
    + rewrite get_set_ne by done. rewrite Hother by done. rewrite Hget.
      unfold Props.expectedAcc. rewrite validRecords_snoc.
      rewrite decide_False by (intros [_ ?]; by apply Hne).
      by rewrite app_nil_r.
Qed.

Lemma insertByGrowth_Permutation x sorted : insertByGrowth x sorted ≡ₚ x :: sorted.
Proof.
  induction sorted as [|y rest IH]; simpl; [done|].
  destruct (Js.ltb _ _); [done|]. rewrite IH. apply Permutation_swap.
Qed.

Lemma competencyStats_Permutation sel scores :
  competencyStats sel scores
  ≡ₚ map summarize (Js.values (compMap (filteredScores sel scores))).
Proof.
  unfold competencyStats.
  assert (H : ∀ l acc, fold_left (λ acc x, insertByGrowth x acc) l acc ≡ₚ l ++ acc).
  { induction l as [|x l IH]; intros acc; simpl; [done|].
    rewrite IH, insertByGrowth_Permutation. by rewrite Permutation_middle. }
  rewrite H. by rewrite app_nil_r.
Qed.

(** In the impact view every competency statistic averages exactly the
    records of its competency whose pre and post scores are both numbers
    above zero, and every competency with such a record has a statistic. *)
Lemma competencyStats_pairs_only sel scores :
  let shown := filteredScores sel scores in
  (∀ s, valid s = true
        ↔ Js.isNaN (CompetencyScore.pre s) = false ∧ Js.isNaN (CompetencyScore.post s) = false
          ∧ Js.gtb (CompetencyScore.pre s) (Js.of_Z 0) = true
          ∧ Js.gtb (CompetencyScore.post s) (Js.of_Z 0) = true)
  ∧ (∀ c, c ∈ competencyStats sel scores →
       let records := Props.validRecords (name c) shown in
       let n := Js.of_nat (length records) in
       records ≠ []
       ∧ avgPre c = Js.div (Props.sumOf CompetencyScore.pre records) n
       ∧ avgPost c = Js.div (Props.sumOf CompetencyScore.post records) n
       ∧ pctGrowth c = (if Js.gtb (avgPre c) (Js.of_Z 0)
                        then Js.mul (Js.div (Js.sub (avgPost c) (avgPre c)) (avgPre c))
                                    (Js.of_Z 100)
                        else Js.of_Z 0))
  ∧ (∀ key, Props.validRecords key shown ≠ [] →
            ∃ c, c ∈ competencyStats sel scores ∧ name c = key).
Proof.
  intros shown. destruct (compMap_spec shown) as [Hnd Hget].
  split; [|split].
  - intros s. unfold valid. rewrite !andb_true_iff, !negb_true_iff. tauto.
  - intros c Hc. rewrite competencyStats_Permutation in Hc. fold shown in Hc.
    apply list_elem_of_fmap in Hc as (acc & -> & Hacc).
    unfold Js.values in Hacc.
    apply list_elem_of_fmap in Hacc as ([k acc'] & Heq & Hin). simpl in Heq. subst acc'.
    apply elem_of_get in Hin; [|done]. rewrite Hget in Hin.
    pose proof (expectedAcc_name _ _ _ Hin) as Hname.
    unfold Props.expectedAcc in Hin. simpl.
    rewrite Hname.
    destruct (Props.validRecords k shown) as [|r records] eqn:Hrecs; [done|].
    injection Hin as <-. simpl. done.
  - intros key Hrecs.
    specialize (Hget key). unfold Props.expectedAcc in Hget.
    destruct (Props.validRecords key shown) as [|r records] eqn:E; [done|].
    apply get_elem_of in Hget.
    eexists (summarize _). split.
    + rewrite competencyStats_Permutation. fold shown.
      apply list_elem_of_fmap_2. unfold Js.values.
      apply list_elem_of_fmap. eexists. split; [|exact Hget]. done.
    + reflexivity.
Qed.

End Impact.


(** C4, the home view against the impact view.  With pre = [4, 4] and
    post = [5, 5] both report a growth of 25.  When the second record has no
    post score (stored as 0), the impact view leaves the record out and still
    reports 25, while the home view keeps it in its sums and reports -37.5,
    both for the cohort figure and for the competency. *)
Theorem growth_home_view_keeps_unassessed :
  map (λ c, Props.asFraction (ImpactDashboard.pctGrowth c))
      (ImpactDashboard.competencyStats "All Programs" Props.bothAssessed) = [Some 25%Q]
  ∧ Props.asFraction (HomeDashboard.growthPct Props.bothAssessed "All Cohorts") = Some 25%Q
  ∧ map (λ c, Props.asFraction (ImpactDashboard.pctGrowth c))
        (ImpactDashboard.competencyStats "All Programs" Props.oneNotAssessed) = [Some 25%Q]
  ∧ Props.asFraction (HomeDashboard.growthPct Props.oneNotAssessed "All Cohorts")
    = Some (-75 # 2)%Q
  ∧ map (λ k, Props.asFraction (HomeDashboard.pct k))
        (HomeDashboard.topSkills Props.oneNotAssessed "All Cohorts") = [Some (-75 # 2)%Q].
Proof. repeat split; vm_compute; reflexivity. Qed.

(** *** Integers as decimal text *)

Section Decimal.

Lemma append_cons c s t : String c s +:+ t = String c (s +:+ t).
Proof. reflexivity. Qed.

Lemma string_of_uint_nonnil (d : Decimal.uint) :
  d ≠ Decimal.Nil → NilZero.string_of_uint d = NilEmpty.string_of_uint d.
Proof. by destruct d. Qed.

Lemma parse_uint_acc (d : Decimal.uint) (acc : positive) :
  Js.parse_digits 10 (Some (Z.pos acc)) (NilEmpty.string_of_uint d)
  = Some (Z.pos (Pos.of_uint_acc d acc)).
Proof.
  revert acc. induction d; intros acc; simpl; [done|..];
    rewrite <- IHd; f_equal; f_equal;
    repeat match goal with
           | |- context [Z.of_nat (nat_of_ascii ?c)] =>
               let v := eval vm_compute in (Z.of_nat (nat_of_ascii c)) in
               change (Z.of_nat (nat_of_ascii c)) with v
           end; lia.
Qed.

Lemma parse_uint_zero (d : Decimal.uint) :
  Js.parse_digits 10 (Some 0%Z) (NilEmpty.string_of_uint d)
  = Some (Z.of_N (Pos.of_uint d)).
Proof.
  induction d; simpl; [done | exact IHd | apply parse_uint_acc ..].
Qed.

Lemma parse_uint (d : Decimal.uint) :
  d ≠ Decimal.Nil →
  Js.parse_digits 10 None (NilEmpty.string_of_uint d) = Some (Z.of_N (Pos.of_uint d)).
Proof.
  intros Hd. rewrite <- parse_uint_zero. by destruct d.
Qed.

Lemma parseInt_uint (d : Decimal.uint) :
  d ≠ Decimal.Nil →
  Js.parseInt (NilEmpty.string_of_uint d)
  = Js.parse_digits 10 None (NilEmpty.string_of_uint d).
Proof.
  intros Hd. destruct d as [|d|d|d|d|d|d|d|d|d|d]; [done|..];
    destruct d; try reflexivity;
    match goal with
    | |- Js.parseInt ?s = _ =>
        change (Js.parseInt s) with ((λ v, (1 * v)%Z) <$> Js.parse_digits 10 None s);
        destruct (Js.parse_digits 10 None s) as [v|]; [|done];
        simpl; f_equal; lia
    end.
Qed.

Lemma parseInt_Z_to_string (y : Z) : (0 ≤ y)%Z → Js.parseInt (Js.Z_to_string y) = Some y.
Proof.
  intros Hy. unfold Js.Z_to_string. destruct y as [|p|p]; [reflexivity| |lia].
  simpl. pose proof (Unsigned.to_uint_nonnil p) as Hnil.
  rewrite string_of_uint_nonnil, parseInt_uint, parse_uint by done.
  by rewrite DecimalPos.Unsigned.of_to.
Qed.

Lemma split_uint (d : Decimal.uint) (rest : string) :
  Js.split "-" (NilEmpty.string_of_uint d +:+ String "-" rest)
  = NilEmpty.string_of_uint d :: Js.split "-" rest.
Proof.
  induction d; simpl NilEmpty.string_of_uint; [done|..];
    rewrite append_cons; simpl; by rewrite IHd.
Qed.

Lemma split_Z_to_string (y : Z) (rest : string) :
  (0 ≤ y)%Z →
  Js.split "-" (Js.Z_to_string y +:+ String "-" rest) = Js.Z_to_string y :: Js.split "-" rest.
Proof.
  intros Hy. unfold Js.Z_to_string. destruct y as [|p|p]; [reflexivity| |lia].
  simpl. pose proof (Unsigned.to_uint_nonnil p) as Hnil.
  rewrite string_of_uint_nonnil by done. apply split_uint.
Qed.

(** The label of a month key is formatted from the year and month index the
    key was built from. *)
Lemma keyLabel_monthKey (fmt : option Z → option Z → string) (t y m : Z) :
  (0 ≤ y)%Z → (0 ≤ m ≤ 11)%Z →
  SimpleTrendChart.keyLabel fmt (Js.monthKey (Js.Date t y m)) = fmt (Some y) (Some m).
Proof.
  intros Hy Hm. unfold SimpleTrendChart.keyLabel, Js.monthKey.
  change ("-" +:+ ?s) with (String "-" s).
  rewrite split_Z_to_string by done.
  assert (Hcases : (m = 0 ∨ m = 1 ∨ m = 2 ∨ m = 3 ∨ m = 4 ∨ m = 5 ∨ m = 6 ∨ m = 7
                    ∨ m = 8 ∨ m = 9 ∨ m = 10 ∨ m = 11)%Z) by lia.
  simpl lookup at 1. simpl mbind at 1.
  rewrite parseInt_Z_to_string by done.
  repeat (destruct Hcases as [-> | Hcases]; [reflexivity|]).
  subst m. reflexivity.
Qed.
End Decimal.

(** *** The monthly trend *)

Section Trend.
Import SimpleTrendChart.
Variable filterType : SessionDashboard.FilterType.
Variable filterValue : string.
Variable now : Z.

Lemma bump_positive counts s :
  Props.positive counts → Props.positive (bump now counts s).
Proof.
  intros Hpos key n. unfold bump.
  destruct (countsAsCompleted now s); [|apply Hpos].
  rewrite lookup_insert. case_decide; [|apply Hpos].
  intros [= <-]. lia.
Qed.

Lemma bump_lookup counts s key :
  default 0%nat (bump now counts s !! key)
  = (default 0%nat (counts !! key)
     + if decide (countsAsCompleted now s = true
                  ∧ Js.monthKey (Session.session_date s) = key) then 1 else 0)%nat.
Proof.
  unfold bump. destruct (countsAsCompleted now s) eqn:Hc.
  - rewrite lookup_insert. case_decide as Hk; subst.
    + rewrite decide_True by done. done.
    + rewrite decide_False by (by intros [_ ?]). simpl. lia.
  - rewrite decide_False by (by intros [? _]). lia.
Qed.

Lemma fold_bump_positive l counts :
  Props.positive counts → Props.positive (fold_left (bump now) l counts).
Proof.
  revert counts. induction l as [|s l IH]; intros counts Hpos; simpl; [done|].
  apply IH. by apply bump_positive.
Qed.

Lemma fold_bump_lookup l counts key :
  default 0%nat (fold_left (bump now) l counts !! key)
  = (default 0%nat (counts !! key)
     + length (filter (λ s, countsAsCompleted now s = true
                            ∧ Js.monthKey (Session.session_date s) = key) l))%nat.
Proof.
  revert counts. induction l as [|s l IH]; intros counts; simpl; [lia|].
  rewrite IH, bump_lookup, filter_cons.
  case_decide; simpl; lia.
Qed.

Lemma monthlyCounts_lookup sessions key :
  default 0%nat (monthlyCounts filterType filterValue now sessions !! key)
  = Props.completedInMonth filterType filterValue now sessions key.
Proof.
  unfold monthlyCounts, Props.completedInMonth.
  rewrite fold_bump_lookup, lookup_empty. simpl.
  rewrite list_filter_filter. f_equal.
  apply list_filter_iff. intros s. tauto.
Qed.

Lemma monthlyCounts_positive sessions :
  Props.positive (monthlyCounts filterType filterValue now sessions).
Proof. apply fold_bump_positive. intros key n. by rewrite lookup_empty. Qed.

Lemma sortedKeys_elem_of (counts : gmap string nat) key :
  key ∈ sortedKeys counts ↔ is_Some (counts !! key).
Proof.
  unfold sortedKeys. rewrite merge_sort_Permutation.
  rewrite list_elem_of_fmap. split.
  - intros ([k v] & -> & Hin). apply elem_of_map_to_list in Hin. by eexists.
  - intros [v Hv]. exists (key, v). split; [done | by apply elem_of_map_to_list].
Qed.

Lemma sortedKeys_ascending (counts : gmap string nat) :
  Sorted String.le (sortedKeys counts) ∧ NoDup (sortedKeys counts).
Proof.
  split.
  - apply (Sorted_merge_sort String.le).
  - unfold sortedKeys. rewrite merge_sort_Permutation. apply NoDup_fst_map_to_list.
Qed.

End Trend.

Lemma trend_countsAsCompleted_rule now s :
  let st := Js.toLowerCase (Js.or_lit (Session.status s) "") in
  let isPast := Js.before_now (Session.session_date s) now in
  SimpleTrendChart.countsAsCompleted now s = true
  ↔ ¬ Props.saysNoShow st ∧ Props.saysCompleted st isPast.
Proof.
  intros st isPast.
  unfold SimpleTrendChart.countsAsCompleted, SimpleTrendChart.isNoShow,
    SimpleTrendChart.status.
  fold st isPast.
  rewrite saysNoShow_true, saysCompleted_true.
  rewrite andb_true_iff, negb_true_iff, not_true_iff_false. tauto.
Qed.

(** C9, where the code departs from the stated label: for the sessions of
    2024-01-05 (completed) and 2024-01-20 (no-show) the chart has one point
    of value 1 whose label, rendered for en-US, is "Jan 24"; the stated
    label is "Jan '24". *)
Lemma chartData_label_counterexample :
  SimpleTrendChart.chartData SessionDashboard.FProgram "CP-0028" 1706000000000
    SimpleTrendChart.toLocaleString_enUS
    [Props.januaryFifthCompleted; Props.januaryTwentiethNoShow]
  = [SimpleTrendChart.mkPoint "Jan 24" 1]
  ∧ SimpleTrendChart.shortMonthYear (Some 2024%Z) (Some 0%Z) = "Jan '24"
  ∧ SimpleTrendChart.toLocaleString_enUS (Some 2024%Z) (Some 0%Z) = "Jan 24"
  ∧ "Jan 24" ≠ "Jan '24".
Proof.
  split; [vm_compute; reflexivity|]. split; [reflexivity|]. split; [reflexivity|].
  discriminate.
Qed.

(** C9 as amended.  The trend chart yields one point per calendar month that has at
    least one session passing the cohort filter and counting as completed
    (not a no-show, and either marked completed or without status and in the
    past); the value of a point is the number of those sessions, the points
    follow the ascending order of the month keys "year-MM", and no sessions
    give no points.  The label of a point is the runtime's short-month,
    two-digit-year rendering of its month in the default locale, which for
    en-US has no apostrophe; sessions of 2024-01-05 (completed) and
    2024-01-20 (no-show) in one cohort give exactly one point, labelled
    "Jan 24", with value 1. *)
Theorem chartData_monthly_completed
    (filterType : SessionDashboard.FilterType) (filterValue : string) (now : Z)
    (monthYearLabel : option Z → option Z → string) (sessions : list Session.t) :
  let counted := Props.completedInMonth filterType filterValue now sessions in
  SimpleTrendChart.chartData filterType filterValue now monthYearLabel [] = []
  ∧ (∃ keys,
       SimpleTrendChart.chartData filterType filterValue now monthYearLabel sessions
       = map (λ key, SimpleTrendChart.mkPoint
                       (SimpleTrendChart.keyLabel monthYearLabel key) (counted key)) keys
       ∧ Sorted String.le keys ∧ NoDup keys
       ∧ ∀ key, key ∈ keys ↔ (0 < counted key)%nat)
  ∧ (∀ s, SimpleTrendChart.countsAsCompleted now s = true
          ↔ ¬ Props.saysNoShow (Js.toLowerCase (Js.or_lit (Session.status s) ""))
            ∧ Props.saysCompleted (Js.toLowerCase (Js.or_lit (Session.status s) ""))
                                  (Js.before_now (Session.session_date s) now))
  ∧ (∀ t y m, (0 ≤ y)%Z → (0 ≤ m ≤ 11)%Z →
        Js.monthKey (Js.Date t y m)
        = Js.Z_to_string y +:+ "-" +:+ Js.padStart (Js.Z_to_string (m + 1)) 2 "0"
        ∧ SimpleTrendChart.keyLabel monthYearLabel (Js.monthKey (Js.Date t y m))
          = monthYearLabel (Some y) (Some m))
  ∧ SimpleTrendChart.chartData SessionDashboard.FProgram "CP-0028" now monthYearLabel
      [Props.januaryFifthCompleted; Props.januaryTwentiethNoShow]
    = [SimpleTrendChart.mkPoint (monthYearLabel (Some 2024%Z) (Some 0%Z)) 1]
  ∧ SimpleTrendChart.chartData SessionDashboard.FProgram "CP-0028" now
      SimpleTrendChart.toLocaleString_enUS
      [Props.januaryFifthCompleted; Props.januaryTwentiethNoShow]
    = [SimpleTrendChart.mkPoint "Jan 24" 1].
Proof.
  intros counted.
  split; [reflexivity|]. split; [|split; [|split; [|split]]].
  - unfold SimpleTrendChart.chartData.
    destruct sessions as [|s0 rest] eqn:Hs.
    + exists []. simpl. split; [done|]. split; [constructor|]. split; [constructor|].
      intros key. unfold counted, Props.completedInMonth. simpl.
      split; [by intros ?%not_elem_of_nil | lia].
    + rewrite <- Hs. replace (length sessions =? 0)%nat with false
        by (subst sessions; reflexivity).
      exists (SimpleTrendChart.sortedKeys
                (SimpleTrendChart.monthlyCounts filterType filterValue now sessions)).
      split; [|split; [|split]].
      * apply map_ext. intros key. f_equal. unfold counted. rewrite Hs.
        apply monthlyCounts_lookup.
      * apply sortedKeys_ascending.
      * apply sortedKeys_ascending.
      * intros key. rewrite sortedKeys_elem_of. unfold counted. rewrite Hs.
        rewrite <- (monthlyCounts_lookup filterType filterValue now (s0 :: rest) key).
        rewrite <- Hs.
        pose proof (monthlyCounts_positive filterType filterValue now sessions key) as Hpos.
        destruct (_ !! key) as [n|]; simpl.
        -- split; [intros _; by apply Hpos | by eexists].
        -- split; [by intros [? ?] | lia].
  - intros s. apply trend_countsAsCompleted_rule.
  - intros t y m Hy Hm. split; [reflexivity | by apply keyLabel_monthKey].
  - vm_compute. reflexivity.
  - vm_compute. reflexivity.
Qed.

Lemma chartData_monthly_completed_witness :
  (0 ≤ 2024)%Z ∧ (0 ≤ 0 ≤ 11)%Z
  ∧ Js.monthKey (Js.Date 1704412800000 2024 0) = "2024-01"
  ∧ SimpleTrendChart.keyLabel SimpleTrendChart.toLocaleString_enUS "2024-01" = "Jan 24".
Proof.
  split; [lia|]. split; [lia|]. split; [reflexivity|].
  change "2024-01" with (Js.monthKey (Js.Date 1704412800000 2024 0)).
  apply (chartData_monthly_completed SessionDashboard.FAll "" 0
           SimpleTrendChart.toLocaleString_enUS []); lia.
Defined.

(** ** Further properties of the session rollup *)

Section JsMapPairs.
Context {V : Type}.
Implicit Types (m : Js.JsMap V) (k : string) (v : V).

Lemma set_pairs_Forall (P : string → V → Prop) k v m :
  P k v → Forall (λ kv, P kv.1 kv.2) m → Forall (λ kv, P kv.1 kv.2) (Js.set k v m).
Proof.
  intros Hv. induction m as [|[k' v'] m IH]; simpl; intros Hm.
  - by constructor.
  - inversion_clear Hm as [|? ? Hv' Hm'].
    destruct (String.eqb k k') eqn:E; constructor; auto.
    apply String.eqb_eq in E. by subst.
Qed.

Lemma get_pairs_Forall (P : string → V → Prop) k v m :
  Forall (λ kv, P kv.1 kv.2) m → Js.get k m = Some v → P k v.
Proof.
  intros Hm Hget. apply get_elem_of in Hget.
  rewrite Forall_forall in Hm. exact (Hm _ Hget).
Qed.

Lemma set_length k v m : (length (Js.set k v m) ≤ S (length m))%nat.
Proof.
  induction m as [|[k' v'] m IH]; simpl; [lia|].
  destruct (String.eqb k k'); simpl; lia.
Qed.

Lemma has_set k k' v m : Js.has k' m = true → Js.has k' (Js.set k v m) = true.
Proof.
  intros H. destruct (decide (k = k')) as [->|Hne].
  - unfold Js.has. by rewrite get_set_eq.
  - unfold Js.has in *. by rewrite get_set_ne.
Qed.

Lemma has_set_eq k v m : Js.has k (Js.set k v m) = true.
Proof. unfold Js.has. by rewrite get_set_eq. Qed.

Lemma sum_set (f : V → nat) k v m :
  (sum_list (map f (Js.values (Js.set k v m)))
   + match Js.get k m with Some old => f old | None => 0 end
   = sum_list (map f (Js.values m)) + f v)%nat.
Proof.
  unfold Js.values. induction m as [|[k' v'] m IH]; simpl; [lia|].
  destruct (String.eqb k k'); simpl; lia.
Qed.

Lemma fold_left_invariant_in {A} (I : Js.JsMap V → Prop)
      (f : Js.JsMap V → A → Js.JsMap V) (l : list A) m :
  (∀ m' a, a ∈ l → I m' → I (f m' a)) → I m → I (fold_left f l m).
Proof.
  revert m. induction l as [|a l IH]; simpl; intros m Hstep Hm; [done|].
  apply IH.
  - intros m' a' Hin. apply Hstep. by right.
  - apply Hstep; [left | done].
Qed.
End JsMapPairs.

Section RollupRows.
Import SessionDashboard Props.
Variable hiddenEmployees : gset string.
Variable filterType : FilterType.
Variable filterValue : string.
Variable now : Z.

Lemma backfill_identity session entry :
  let e := backfill session entry in
  id e = id entry ∧ name e = name entry ∧ latestSession e = latestSession entry.
Proof.
  unfold backfill.
  repeat match goal with |- context [if ?b then _ else _] => destruct b end;
    simpl; auto.
Qed.

Lemma countSession_identity session entry :
  let e := countSession now session entry in
  id e = id entry ∧ name e = name entry
  ∧ (latestSession e = latestSession entry
     ∨ latestSession e = Some (Session.session_date session))
  ∧ latestSession e ≠ None.
Proof.
  unfold countSession. cbv zeta.
  destruct (_ || _ || _); [|destruct (_ || _)]; simpl;
    (destruct (latestSession entry) as [latest|] eqn:E;
     [destruct (Js.date_ltb _ _)|]; simpl; rewrite ?E; auto).
Qed.

(** The three ways [processSession] can treat a session, for an invariant
    [P] of the keyed entries. *)
Lemma processSession_pairs (P : string → Stat → Prop) m session :
  (∀ k e, P k e → P k (backfill session e)) →
  (∀ k e, includeSession filterType filterValue session = true →
          P k e → P k (countSession now session e)) →
  (∀ e, suppressed session = false →
        hidden hiddenEmployees (personId session) = false →
        id e = personId session → name e = sessionName session →
        total e = 0 → latestSession e = None →
        P (Js.toLowerCase (sessionName session)) e) →
  Forall (λ kv, P kv.1 kv.2) m →
  Forall (λ kv, P kv.1 kv.2)
         (processSession hiddenEmployees filterType filterValue now m session).
Proof.
  intros Hback Hcount Hfresh Hm. unfold processSession. cbv zeta.
  destruct (String.eqb _ _) eqn:Esup; [done|].
  destruct (_ && _); [done|].
  destruct (negb _ && _) eqn:Ehid; [done|].
  match goal with
  | |- context [Js.get ?k ?m1] =>
      assert (Hm1 : Forall (λ kv, P kv.1 kv.2) m1);
      [| destruct (Js.get k m1) as [entry|] eqn:Hget; [|exact Hm1] ]
  end.
  { destruct (Js.has _ _) eqn:Ehas; [done|]. simpl in Ehid.
    apply set_pairs_Forall; [|done]. by apply Hfresh. }
  apply set_pairs_Forall; [|done].
  pose proof (get_pairs_Forall _ _ _ _ Hm1 Hget) as He.
  destruct (includeSession _ _ _) eqn:Einc; auto.
Qed.

Lemma seedEmployee_rowInvariant m emp :
  Forall (λ kv, rowInvariant hiddenEmployees kv.1 kv.2) m →
  Forall (λ kv, rowInvariant hiddenEmployees kv.1 kv.2)
         (seedEmployee hiddenEmployees m emp).
Proof.
  intros Hm. unfold seedEmployee.
  destruct (String.eqb _ _) eqn:Esup; [done|].
  destruct (hidden _ _) eqn:Ehid; [done|].
  apply (set_pairs_Forall (rowInvariant hiddenEmployees)); [|done].
  unfold rowInvariant; simpl. split_and!; try done.
  - by apply String.eqb_neq.
  - unfold hidden in Ehid. by apply bool_decide_eq_false in Ehid.
Qed.

Lemma processSession_rowInvariant m session :
  Forall (λ kv, rowInvariant hiddenEmployees kv.1 kv.2) m →
  Forall (λ kv, rowInvariant hiddenEmployees kv.1 kv.2)
         (processSession hiddenEmployees filterType filterValue now m session).
Proof.
  apply processSession_pairs.
  - intros k e (Hk & Hs & Hh & Hl).
    destruct (backfill_identity session e) as (Hi & Hn & Hd).
    destruct (backfill_counts session e) as (_ & _ & _ & Ht). cbv zeta in *.
    unfold rowInvariant. by rewrite Hi, Hn, Hd, Ht.
  - intros k e _ (Hk & Hs & Hh & Hl).
    destruct (countSession_identity session e) as (Hi & Hn & _ & Hd).
    destruct (countSession_counts now session e) as (Ht & _). cbv zeta in *.
    unfold rowInvariant. rewrite Hi, Hn, Ht. split_and!; try done.
    split; [done | lia].
  - intros e Hsup Hhid Hi Hn Ht Hl. unfold rowInvariant.
    rewrite Hi, Hn, Ht, Hl. split_and!; try done.
    + by apply String.eqb_neq.
    + unfold hidden in Hhid. by apply bool_decide_eq_false in Hhid.
Qed.

Lemma statsMap_rowInvariant employees sessions :
  Forall (λ kv, rowInvariant hiddenEmployees kv.1 kv.2)
         (statsMap hiddenEmployees filterType filterValue now employees sessions).
Proof.
  unfold statsMap.
  apply (fold_left_invariant (Forall (λ kv, rowInvariant hiddenEmployees kv.1 kv.2))).
  - intros m s Hm. by apply processSession_rowInvariant.
  - apply (fold_left_invariant (Forall (λ kv, rowInvariant hiddenEmployees kv.1 kv.2))).
    + intros m e Hm. by apply seedEmployee_rowInvariant.
    + constructor.
Qed.

Lemma seedEmployee_keys m emp :
  NoDup (map fst m) → NoDup (map fst (seedEmployee hiddenEmployees m emp)).
Proof.
  intros Hm. unfold seedEmployee.
  destruct (String.eqb _ _); [done|]. destruct (hidden _ _); [done|].
  by apply set_keys_NoDup.
Qed.

Lemma processSession_keys m session :
  NoDup (map fst m) →
  NoDup (map fst (processSession hiddenEmployees filterType filterValue now m session)).
Proof.
  intros Hm. unfold processSession. cbv zeta.
  destruct (String.eqb _ _); [done|].
  destruct (_ && _); [done|].
  destruct (negb _ && _); [done|].
  match goal with
  | |- context [Js.get ?k ?m1] =>
      assert (Hm1 : NoDup (map fst m1));
      [| destruct (Js.get k m1) as [entry|]; [|exact Hm1] ]
  end.
  { destruct (Js.has _ _); [done|]. by apply set_keys_NoDup. }
  by apply set_keys_NoDup.
Qed.

Lemma statsMap_keys employees sessions :
  NoDup (map fst (statsMap hiddenEmployees filterType filterValue now employees sessions)).
Proof.
  unfold statsMap.
  apply (fold_left_invariant (λ m, NoDup (map fst m))).
  - intros m s Hm. by apply processSession_keys.
  - apply (fold_left_invariant (λ m, NoDup (map fst m))).
    + intros m e Hm. by apply seedEmployee_keys.
    + constructor.
Qed.

Lemma seedEmployee_length m emp :
  (length (seedEmployee hiddenEmployees m emp) ≤ S (length m))%nat.
Proof.
  unfold seedEmployee.
  destruct (String.eqb _ _); [lia|]. destruct (hidden _ _); [lia|].
  apply set_length.
Qed.

Lemma set_length_has {V} k (v : V) m :
  Js.has k m = true → length (Js.set k v m) = length m.
Proof.
  unfold Js.has. induction m as [|[k' v'] m IH]; simpl; [done|].
  destruct (String.eqb k k'); simpl; [done|]. intros H. by rewrite IH.
Qed.

Lemma processSession_length m session :
  (length (processSession hiddenEmployees filterType filterValue now m session)
   ≤ S (length m))%nat.
Proof.
  unfold processSession. cbv zeta.
  destruct (String.eqb _ _); [lia|].
  destruct (_ && _); [lia|].
  destruct (negb _ && _); [lia|].
  match goal with
  | |- context [Js.get ?k ?m1] =>
      assert (Hm1 : (length m1 ≤ S (length m))%nat);
      [| destruct (Js.get k m1) as [entry|] eqn:Hget; [|exact Hm1] ]
  end.
  { destruct (Js.has _ _); [lia|]. apply set_length. }
  rewrite set_length_has; [done|]. apply has_get. by rewrite Hget.
Qed.

Lemma statsMap_length employees sessions :
  (length (statsMap hiddenEmployees filterType filterValue now employees sessions)
   ≤ length employees + length sessions)%nat.
Proof.
  unfold statsMap.
  assert (Hfold : ∀ {A} (f : Js.JsMap Stat → A → Js.JsMap Stat) (l : list A) m,
             (∀ m' a, (length (f m' a) ≤ S (length m'))%nat) →
             (length (fold_left f l m) ≤ length m + length l)%nat).
  { intros A f l. induction l as [|a l IH]; simpl; intros m Hf; [lia|].
    specialize (IH (f m a) Hf). specialize (Hf m a). lia. }
  pose proof (Hfold _ _ employees [] seedEmployee_length) as H1.
  pose proof (Hfold _ _ sessions (fold_left (seedEmployee hiddenEmployees) employees [])
                    processSession_length) as H2.
  simpl in H1. lia.
Qed.

End RollupRows.

(** X1. The rollup shows one row per person name: no two rows have the
    same name up to letter case, whatever mixture of roster entries and
    sessions produced them, and there are never more rows than roster
    entries plus sessions. *)
Theorem aggregatedStats_one_row_per_name
    (hiddenEmployees : gset string) (filterType : SessionDashboard.FilterType)
    (filterValue : string) (now : Z)
    (employees : list Employee.t) (sessions : list Session.t) :
  let rows := SessionDashboard.aggregatedStats hiddenEmployees filterType filterValue now
                                               employees sessions in
  NoDup (map (λ e, Js.toLowerCase (SessionDashboard.name e)) rows)
  ∧ (length rows ≤ length employees + length sessions)%nat.
Proof.
  cbv zeta. unfold SessionDashboard.aggregatedStats, Js.values.
  pose proof (statsMap_keys hiddenEmployees filterType filterValue now employees sessions)
    as Hkeys.
  pose proof (statsMap_rowInvariant hiddenEmployees filterType filterValue now
                                    employees sessions) as Hinv.
  pose proof (statsMap_length hiddenEmployees filterType filterValue now
                              employees sessions) as Hlen.
  split; [|by rewrite length_map].
  rewrite map_map.
  erewrite map_ext_Forall; [exact Hkeys|].
  eapply Forall_impl; [exact Hinv|].
  intros [k e] (Hk & _). simpl in *. done.
Qed.

(** X2. A hidden employee id and the suppressed name never reach the
    table: no row carries an id of the hidden set, and no row is named
    "kimberly genes" in any letter case. *)
Theorem aggregatedStats_never_shows_hidden
    (hiddenEmployees : gset string) (filterType : SessionDashboard.FilterType)
    (filterValue : string) (now : Z)
    (employees : list Employee.t) (sessions : list Session.t) :
  Forall (λ e, (Js.id_to_string (SessionDashboard.id e) ∉ hiddenEmployees)
               ∧ Js.toLowerCase (SessionDashboard.name e) ≠ "kimberly genes")
         (SessionDashboard.aggregatedStats hiddenEmployees filterType filterValue now
                                           employees sessions).
Proof.
  unfold SessionDashboard.aggregatedStats, Js.values.
  apply Forall_fmap.
  eapply Forall_impl;
    [exact (statsMap_rowInvariant hiddenEmployees filterType filterValue now
                                  employees sessions)|].
  intros [k e] (_ & Hs & Hh & _). simpl in *. done.
Qed.

Section RollupCounts.
Import SessionDashboard Props.
Variable hiddenEmployees : gset string.
Variable filterType : FilterType.
Variable filterValue : string.
Variable now : Z.

Local Abbreviation process := (processSession hiddenEmployees filterType filterValue now).
Local Abbreviation keyOf s := (Js.toLowerCase (sessionName s)).
Local Abbreviation mineOf := (countedFor filterType filterValue).

Lemma fold_left_prefix_invariant {A B} (I : list A → B → Prop) (f : B → A → B)
      (l : list A) (b : B) :
  I [] b → (∀ l' a b', a ∈ l → I l' b' → I (l' ++ [a]) (f b' a)) →
  I l (fold_left f l b).
Proof.
  intros Hb Hstep.
  assert (H : ∀ pre b', (∀ a, a ∈ l → a ∈ l) → I pre b' →
                        ∀ rest, (∀ a, a ∈ rest → a ∈ l) →
                                I (pre ++ rest) (fold_left f rest b')).
  { intros pre b' _ Hpre rest. revert pre b' Hpre.
    induction rest as [|a rest IH]; simpl; intros pre b' Hpre Hin.
    - by rewrite app_nil_r.
    - replace (pre ++ a :: rest) with ((pre ++ [a]) ++ rest)
        by (by rewrite <- app_assoc).
      apply IH.
      + apply Hstep; [apply Hin; left | done].
      + intros a' Ha'. apply Hin. by right. }
  apply (H [] b); auto.
Qed.

Lemma processSession_suppressed m s : suppressed s = true → process m s = m.
Proof. unfold suppressed, processSession. cbv zeta. by intros ->. Qed.

Lemma hidden_personId s :
  hidden hiddenEmployees (personId s) = false →
  Js.id_truthy (Session.employee_id s) && hidden hiddenEmployees (Session.employee_id s)
  = false.
Proof. unfold personId, Js.id_or. by destruct (Js.id_truthy _). Qed.

Lemma processSession_get m s :
  suppressed s = false →
  hidden hiddenEmployees (personId s) = false →
  ∃ entry,
    (Js.get (keyOf s) m = Some entry
     ∨ (Js.get (keyOf s) m = None ∧ name entry = sessionName s ∧ untouched entry))
    ∧ Js.get (keyOf s) (process m s)
      = Some (if includeSession filterType filterValue s
              then countSession now s (backfill s entry) else backfill s entry)
    ∧ ∀ k, k ≠ keyOf s → Js.get k (process m s) = Js.get k m.
Proof.
  intros Hsup Hhid. unfold processSession. cbv zeta.
  unfold suppressed in Hsup. rewrite Hsup.
  rewrite (hidden_personId s Hhid).
  fold (personId s). rewrite Hhid, andb_false_r.
  unfold Js.has. destruct (Js.get (keyOf s) m) as [entry|] eqn:Hget.
  - rewrite Hget. exists entry. split_and!.
    + by left.
    + by rewrite get_set_eq.
    + intros k Hk. by rewrite get_set_ne.
  - rewrite get_set_eq.
    refine (ex_intro _ _ (conj _ (conj (get_set_eq _ _ _) _))).
    + right. split; [done|]. split; [reflexivity | by repeat split].
    + intros k Hk. by rewrite !get_set_ne.
Qed.

Lemma countedFor_snoc_other k l s :
  keyOf s ≠ k ∨ includeSession filterType filterValue s = false →
  mineOf k (l ++ [s]) = mineOf k l.
Proof.
  intros H. unfold countedFor. rewrite filter_app, filter_cons, filter_nil.
  rewrite decide_False; [by rewrite app_nil_r|].
  intros [Hk Hi]. destruct H as [H|H]; [done | congruence].
Qed.

Lemma countedFor_snoc_same l s :
  includeSession filterType filterValue s = true →
  mineOf (keyOf s) (l ++ [s]) = mineOf (keyOf s) l ++ [s].
Proof.
  intros H. unfold countedFor. rewrite filter_app, filter_cons, filter_nil.
  by rewrite decide_True.
Qed.

Lemma backfill_rowCounts mine s e :
  rowCounts now mine e → rowCounts now mine (backfill s e).
Proof.
  unfold rowCounts.
  destruct (backfill_counts s e) as (-> & -> & -> & ->). done.
Qed.

Lemma countSession_rowCounts mine s e :
  rowCounts now mine e → rowCounts now (mine ++ [s]) (countSession now s e).
Proof.
  unfold rowCounts. intros (Ht & Hn & Hc & Hs).
  destruct (countSession_counts now s e) as [Ht' Hb]. cbv zeta in *.
  rewrite Ht', !filter_app, !length_app, !filter_cons, !filter_nil.
  destruct (decide (saysNoShow (statusRaw s))) as [Hns|Hns];
    [|destruct (decide (saysCompleted (statusRaw s)
                          (Js.before_now (Session.session_date s) now))) as [Hcs|Hcs]];
    injection Hb as -> -> ->;
    repeat case_decide; unfold isNoShow, isCompleted, isScheduled in *;
    simpl; try lia; exfalso; tauto.
Qed.

Lemma date_ltb_irrefl d : Js.date_ltb d d = false.
Proof. destruct d; simpl; [done | lia]. Qed.

Lemma date_ltb_later a x b :
  Js.date_ltb a x = true → Js.date_ltb a b = false → Js.date_ltb x b = false.
Proof. destruct a, x, b; simpl; try done. lia. Qed.

Lemma countSession_latest s e :
  latestSession (countSession now s e)
  = match latestSession e with
    | None => Some (Session.session_date s)
    | Some latest =>
        if Js.date_ltb latest (Session.session_date s)
        then Some (Session.session_date s) else Some latest
    end.
Proof.
  unfold countSession. cbv zeta.
  destruct (_ || _ || _); [|destruct (_ || _)]; simpl;
    (destruct (latestSession e) as [latest|] eqn:E;
     [destruct (Js.date_ltb _ _)|]; simpl; rewrite ?E; auto).
Qed.

Lemma backfill_rowLatest mine s e : rowLatest mine e → rowLatest mine (backfill s e).
Proof.
  unfold rowLatest. destruct (backfill_identity s e) as (_ & _ & Hl). cbv zeta in Hl.
  by rewrite Hl.
Qed.

Lemma countSession_rowLatest mine s e :
  rowLatest mine e → rowLatest (mine ++ [s]) (countSession now s e).
Proof.
  unfold rowLatest. rewrite countSession_latest.
  destruct (latestSession e) as [latest|].
  - intros [(s0 & Hs0 & Hd0) Hmax].
    destruct (Js.date_ltb latest (Session.session_date s)) eqn:E.
    + split.
      * exists s. split; [apply elem_of_app; right; left | done].
      * intros s' [Hs'|Hs']%elem_of_app.
        -- eapply date_ltb_later; [exact E | by apply Hmax].
        -- apply list_elem_of_singleton in Hs' as ->. apply date_ltb_irrefl.
    + split.
      * exists s0. split; [apply elem_of_app; by left | done].
      * intros s' [Hs'|Hs']%elem_of_app; [by apply Hmax|].
        by apply list_elem_of_singleton in Hs' as ->.
  - intros ->. simpl. split.
    + exists s. split; [left | done].
    + intros s' Hs'. apply list_elem_of_singleton in Hs' as ->. apply date_ltb_irrefl.
Qed.

Lemma untouched_rows mine e :
  mine = [] → untouched e → rowCounts now mine e ∧ rowLatest mine e.
Proof.
  intros -> (Ht & Hn & Hc & Hs & Hl). unfold rowCounts, rowLatest.
  rewrite Ht, Hn, Hc, Hs, Hl. by repeat split.
Qed.

Lemma processSession_rollupInvariant l m s :
  hidden hiddenEmployees (personId s) = false →
  rollupInvariant filterType filterValue now l m →
  rollupInvariant filterType filterValue now (l ++ [s]) (process m s).
Proof.
  intros Hhid [Hrep Hrows].
  destruct (suppressed s) eqn:Hsup.
  - rewrite processSession_suppressed by done. split.
    + intros s' [Hs'|Hs']%elem_of_app Hns; [by apply Hrep|].
      apply list_elem_of_singleton in Hs' as ->. congruence.
    + intros k e Hget. destruct (Hrows k e Hget) as ((Hk & Hkim) & Hc & Hl).
      rewrite countedFor_snoc_other; [done|].
      left. unfold suppressed in Hsup. apply String.eqb_eq in Hsup. congruence.
  - destruct (processSession_get m s Hsup Hhid) as (entry & Hentry & Hnew & Hother).
    split.
    + intros s' [Hs'|Hs']%elem_of_app Hns.
      * specialize (Hrep s' Hs' Hns). apply has_get in Hrep as [e He].
        apply has_get. destruct (decide (keyOf s' = keyOf s)) as [Heq|Hne].
        -- rewrite Heq, Hnew. eauto.
        -- rewrite Hother by done. eauto.
      * apply list_elem_of_singleton in Hs' as ->. apply has_get. rewrite Hnew. eauto.
    + intros k e Hget. destruct (decide (k = keyOf s)) as [->|Hne].
      * rewrite Hnew in Hget. injection Hget as <-.
        assert (Hold : (keyOf s = Js.toLowerCase (name entry) ∧ keyOf s ≠ "kimberly genes")
                       ∧ rowCounts now (mineOf (keyOf s) l) entry
                       ∧ rowLatest (mineOf (keyOf s) l) entry).
        { destruct Hentry as [Hget|(Hnone & Hname & Hun)]; [by apply Hrows|].
          split; [split|].
          - by rewrite Hname.
          - unfold suppressed in Hsup. by apply String.eqb_neq.
          - apply untouched_rows; [|done].
            destruct (mineOf (keyOf s) l) as [|s' rest] eqn:E; [done|]. exfalso.
            assert (Hin : s' ∈ mineOf (keyOf s) l) by (rewrite E; left).
            apply list_elem_of_filter in Hin as [[Hk Hi] Hin].
            specialize (Hrep s' Hin). unfold suppressed in Hrep, Hsup.
            rewrite Hk, Hsup in Hrep. specialize (Hrep eq_refl).
            apply has_get in Hrep as [? ?]. congruence. }
        destruct Hold as ((Hk & Hkim) & Hc & Hl).
        destruct (backfill_identity s entry) as (_ & Hbn & _).
        destruct (countSession_identity now s (backfill s entry)) as (_ & Hcn & _).
        cbv zeta in *.
        destruct (includeSession filterType filterValue s) eqn:Hinc.
        -- rewrite countedFor_snoc_same by done. split_and!.
           ++ by rewrite Hcn, Hbn.
           ++ done.
           ++ by apply countSession_rowCounts, backfill_rowCounts.
           ++ by apply countSession_rowLatest, backfill_rowLatest.
        -- rewrite countedFor_snoc_other by (by right). split_and!.
           ++ by rewrite Hbn.
           ++ done.
           ++ by apply backfill_rowCounts.
           ++ by apply backfill_rowLatest.
      * rewrite Hother in Hget by done.
        destruct (Hrows k e Hget) as (Hk & Hc & Hl).
        rewrite countedFor_snoc_other; [done | by left].
Qed.

Lemma seedEmployee_untouched m emp :
  Forall (λ kv, (kv.1 = Js.toLowerCase (name kv.2) ∧ kv.1 ≠ "kimberly genes")
                ∧ untouched kv.2) m →
  Forall (λ kv, (kv.1 = Js.toLowerCase (name kv.2) ∧ kv.1 ≠ "kimberly genes")
                ∧ untouched kv.2) (seedEmployee hiddenEmployees m emp).
Proof.
  intros Hm. unfold seedEmployee.
  destruct (String.eqb _ _) eqn:Esup; [done|].
  destruct (hidden _ _); [done|].
  apply (set_pairs_Forall
           (λ k e, (k = Js.toLowerCase (name e) ∧ k ≠ "kimberly genes") ∧ untouched e));
    [|done].
  simpl. split; [split; [done | by apply String.eqb_neq] | by repeat split].
Qed.

Lemma statsMap_rollupInvariant employees sessions :
  nobodyHidden hiddenEmployees sessions →
  rollupInvariant filterType filterValue now sessions
    (statsMap hiddenEmployees filterType filterValue now employees sessions).
Proof.
  intros Hhid. unfold statsMap.
  apply (fold_left_prefix_invariant (rollupInvariant filterType filterValue now)).
  - split; [by intros s Hs%elem_of_nil|].
    intros k e Hget.
    assert (Hseed : Forall (λ kv, (kv.1 = Js.toLowerCase (name kv.2)
                                   ∧ kv.1 ≠ "kimberly genes") ∧ untouched kv.2)
                           (fold_left (seedEmployee hiddenEmployees) employees [])).
    { apply (fold_left_invariant
               (Forall (λ kv, (kv.1 = Js.toLowerCase (name kv.2)
                               ∧ kv.1 ≠ "kimberly genes") ∧ untouched kv.2))).
      - intros m' emp Hm'. by apply seedEmployee_untouched.
      - constructor. }
    pose proof (get_pairs_Forall
                  (λ k e, (k = Js.toLowerCase (name e) ∧ k ≠ "kimberly genes")
                          ∧ untouched e) _ _ _ Hseed Hget) as [Hk Hun].
    split; [done|]. by apply untouched_rows.
  - intros l' s m' Hs Hinv. apply processSession_rollupInvariant; [|done].
    unfold nobodyHidden in Hhid. rewrite Forall_forall in Hhid. by apply Hhid.
Qed.

(** The entry of a displayed row is the one stored under its lower-cased
    name. *)
Lemma aggregatedStats_get employees sessions e :
  e ∈ aggregatedStats hiddenEmployees filterType filterValue now employees sessions →
  Js.get (Js.toLowerCase (name e))
         (statsMap hiddenEmployees filterType filterValue now employees sessions)
  = Some e.
Proof.
  unfold aggregatedStats, Js.values. intros Hin.
  apply list_elem_of_fmap in Hin as ([k e'] & -> & Hin). simpl.
  pose proof (statsMap_rowInvariant hiddenEmployees filterType filterValue now
                                    employees sessions) as Hinv.
  rewrite Forall_forall in Hinv. destruct (Hinv _ Hin) as (Hk & _). simpl in Hk.
  rewrite <- Hk. apply elem_of_get; [apply statsMap_keys | done].
Qed.

Lemma fold_left_sum {A} (f : A → nat) (l : list A) (a : nat) :
  fold_left (λ acc x, acc + f x)%nat l a = (a + sum_list (map f l))%nat.
Proof.
  revert a. induction l as [|x l IH]; simpl; intros a; [lia|]. rewrite IH. lia.
Qed.

Lemma length_filter_sum {A} (P : A → Prop) `{∀ x, Decision (P x)} (l : list A) :
  length (filter P l) = sum_list (map (λ x, if decide (P x) then 1 else 0)%nat l).
Proof.
  induction l as [|x l IH]; simpl; [done|].
  rewrite filter_cons. destruct (decide (P x)); simpl; lia.
Qed.

(** How one session moves a sum over the rows: [δ] is what counting the
    session adds to the summed field. *)
Lemma processSession_sum (f : Stat → nat) (δ : nat) m s :
  (∀ e, f (backfill s e) = f e) →
  (∀ e, f (countSession now s e) = f e + δ)%nat →
  (∀ e, untouched e → f e = 0%nat) →
  let counts := (if negb (suppressed s) && includeSession filterType filterValue s
                 then δ else 0)%nat in
  (sum_list (map f (Js.values (process m s))) ≤ sum_list (map f (Js.values m)) + counts)%nat
  ∧ (hidden hiddenEmployees (personId s) = false →
     sum_list (map f (Js.values (process m s)))
     = (sum_list (map f (Js.values m)) + counts)%nat).
Proof.
  intros Hback Hcount Hfresh. cbv zeta.
  unfold processSession, suppressed. cbv zeta.
  destruct (String.eqb _ _) eqn:Esup; simpl; [split; [lia | intros _; lia]|].
  destruct (Js.id_truthy _ && hidden _ _) eqn:Eid.
  { split; [lia|]. intros Hhid. by rewrite (hidden_personId s Hhid) in Eid. }
  fold (personId s).
  destruct (negb _ && hidden _ (personId s)) eqn:Ehid.
  { split; [lia|]. intros Hhid. by rewrite Hhid, andb_false_r in Ehid. }
  match goal with
  | |- context [Js.get ?k ?m1] =>
      assert (Hm1 : sum_list (map f (Js.values m1)) = sum_list (map f (Js.values m)));
      [| destruct (Js.get k m1) as [entry|] eqn:Hget ]
  end.
  { unfold Js.has. destruct (Js.get _ m) eqn:Hget; [done|].
    match goal with
    | |- context [Js.set ?k ?v m] => pose proof (sum_set f k v m) as Hs
    end.
    rewrite Hget in Hs. rewrite Hfresh in Hs by (by repeat split). lia. }
  - match goal with
    | |- context [Js.set ?k ?v ?m1] => pose proof (sum_set f k v m1) as Hs
    end.
    rewrite Hget in Hs.
    destruct (includeSession filterType filterValue s);
      rewrite ?Hcount, ?Hback in Hs; split; intros; lia.
  - exfalso. revert Hget. unfold Js.has.
    destruct (Js.get _ m) eqn:Hget'; [by rewrite Hget'|]. by rewrite get_set_eq.
Qed.

Lemma statsMap_sum (f : Stat → nat) (δ : Session.t → nat) employees sessions :
  (∀ s e, f (backfill s e) = f e) →
  (∀ s e, f (countSession now s e) = f e + δ s)%nat →
  (∀ e, untouched e → f e = 0%nat) →
  let counts := sum_list (map (λ s, if negb (suppressed s)
                                       && includeSession filterType filterValue s
                                    then δ s else 0)%nat sessions) in
  (sum_list (map f (aggregatedStats hiddenEmployees filterType filterValue now
                                    employees sessions)) ≤ counts)%nat
  ∧ (nobodyHidden hiddenEmployees sessions →
     sum_list (map f (aggregatedStats hiddenEmployees filterType filterValue now
                                      employees sessions)) = counts).
Proof.
  intros Hback Hcount Hfresh. cbv zeta. unfold aggregatedStats, statsMap.
  assert (Hseed : sum_list (map f (Js.values
                    (fold_left (seedEmployee hiddenEmployees) employees []))) = 0%nat).
  { assert (Hun : Forall (λ kv, (kv.1 = Js.toLowerCase (name kv.2)
                                 ∧ kv.1 ≠ "kimberly genes") ∧ untouched kv.2)
                         (fold_left (seedEmployee hiddenEmployees) employees [])).
    { apply (fold_left_invariant
               (Forall (λ kv, (kv.1 = Js.toLowerCase (name kv.2)
                               ∧ kv.1 ≠ "kimberly genes") ∧ untouched kv.2))).
      - intros m' emp Hm'. by apply seedEmployee_untouched.
      - constructor. }
    unfold Js.values. induction Hun as [|[k e] m' [_ He] _ IH]; simpl; [done|].
    rewrite Hfresh by done. exact IH. }
  revert Hseed. generalize (fold_left (seedEmployee hiddenEmployees) employees []).
  intros m Hm.
  assert (Hgen : ∀ l m0,
    let counts := sum_list (map (λ s, if negb (suppressed s)
                                         && includeSession filterType filterValue s
                                      then δ s else 0)%nat l) in
    (sum_list (map f (Js.values (fold_left process l m0)))
     ≤ sum_list (map f (Js.values m0)) + counts)%nat
    ∧ (nobodyHidden hiddenEmployees l →
       sum_list (map f (Js.values (fold_left process l m0)))
       = (sum_list (map f (Js.values m0)) + counts)%nat)).
  { induction l as [|s l IH]; intros m0; cbv zeta; simpl.
    - split; [lia | intros _; lia].
    - destruct (IH (process m0 s)) as [IHle IHeq]. cbv zeta in *.
      destruct (processSession_sum f (δ s) m0 s (Hback s) (Hcount s) Hfresh)
        as [Hle Heq]. cbv zeta in *.
      split; [lia|]. intros Hhid. unfold nobodyHidden in *.
      apply Forall_cons in Hhid as [Hs Hl].
      rewrite IHeq by done. rewrite Heq by done. lia. }
  destruct (Hgen sessions m) as [Hle Heq]. cbv zeta in *. rewrite Hm in *.
  split; [lia|]. intros Hhid. by rewrite Heq.
Qed.

Lemma statsMap_partitioned employees sessions :
  Forall partitioned
         (aggregatedStats hiddenEmployees filterType filterValue now employees sessions).
Proof.
  unfold aggregatedStats, statsMap.
  apply (fold_left_invariant (λ m, Forall partitioned (Js.values m))).
  - intros m s Hm. by apply processSession_partitioned.
  - apply (fold_left_invariant (λ m, Forall partitioned (Js.values m))).
    + intros m e Hm. by apply seedEmployee_partitioned.
    + constructor.
Qed.

End RollupCounts.

(** X3. When nobody behind a session is hidden, every row of the table
    counts exactly the sessions that resolve to its name (up to letter case)
    and pass the program or cohort filter: [total] is their number, and
    [noshow], [completed] and [scheduled] are the numbers of those whose
    status falls in the respective bucket. *)
Theorem aggregatedStats_row_counts
    (hiddenEmployees : gset string) (filterType : SessionDashboard.FilterType)
    (filterValue : string) (now : Z)
    (employees : list Employee.t) (sessions : list Session.t) :
  Props.nobodyHidden hiddenEmployees sessions →
  Forall (λ e, Props.rowCounts now
                 (Props.countedFor filterType filterValue
                    (Js.toLowerCase (SessionDashboard.name e)) sessions) e)
         (SessionDashboard.aggregatedStats hiddenEmployees filterType filterValue now
                                           employees sessions).
Proof.
  intros Hhid. apply Forall_forall. intros e He.
  apply aggregatedStats_get in He.
  destruct (statsMap_rollupInvariant hiddenEmployees filterType filterValue now
                                     employees sessions Hhid) as [_ Hrows].
  by destruct (Hrows _ _ He) as (_ & Hc & _).
Qed.

Lemma aggregatedStats_row_counts_witness :
  Props.nobodyHidden {["99"]} Props.annLeeSessions
  ∧ Forall (λ e, Props.rowCounts 1706000000000
                   (Props.countedFor SessionDashboard.FAll ""
                      (Js.toLowerCase (SessionDashboard.name e)) Props.annLeeSessions) e)
           (SessionDashboard.aggregatedStats {["99"]} SessionDashboard.FAll ""
              1706000000000 [Props.annLee] Props.annLeeSessions).
Proof.
  assert (H : Props.nobodyHidden {["99"]} Props.annLeeSessions)
    by (repeat constructor).
  split; [exact H | exact (aggregatedStats_row_counts _ _ _ _ _ _ H)].
Defined.

(** X4. When nobody behind a session is hidden, the last-session date of a
    row is missing exactly when the row counts no session; otherwise it is
    the date of one of the row's counted sessions, and no counted session
    of the row is later. *)
Theorem aggregatedStats_latestSession
    (hiddenEmployees : gset string) (filterType : SessionDashboard.FilterType)
    (filterValue : string) (now : Z)
    (employees : list Employee.t) (sessions : list Session.t) :
  Props.nobodyHidden hiddenEmployees sessions →
  Forall (λ e, Props.rowLatest
                 (Props.countedFor filterType filterValue
                    (Js.toLowerCase (SessionDashboard.name e)) sessions) e)
         (SessionDashboard.aggregatedStats hiddenEmployees filterType filterValue now
                                           employees sessions).
Proof.
  intros Hhid. apply Forall_forall. intros e He.
  apply aggregatedStats_get in He.
  destruct (statsMap_rollupInvariant hiddenEmployees filterType filterValue now
                                     employees sessions Hhid) as [_ Hrows].
  by destruct (Hrows _ _ He) as (_ & _ & Hl).
Qed.

Lemma aggregatedStats_latestSession_witness :
  Props.nobodyHidden {["99"]} Props.annLeeSessions
  ∧ Forall (λ e, Props.rowLatest
                   (Props.countedFor SessionDashboard.FAll ""
                      (Js.toLowerCase (SessionDashboard.name e)) Props.annLeeSessions) e)
           (SessionDashboard.aggregatedStats {["99"]} SessionDashboard.FAll ""
              1706000000000 [Props.annLee] Props.annLeeSessions).
Proof.
  assert (H : Props.nobodyHidden {["99"]} Props.annLeeSessions)
    by (repeat constructor).
  split; [exact H | exact (aggregatedStats_latestSession _ _ _ _ _ _ H)].
Defined.

(** X5. When nobody behind a session is hidden, every session that does
    not carry the suppressed name has a row in the table, whether or not the
    person is on the roster and whether or not the session passes the
    filter: the row is the one named like the session, up to letter case. *)
Theorem aggregatedStats_represents_sessions
    (hiddenEmployees : gset string) (filterType : SessionDashboard.FilterType)
    (filterValue : string) (now : Z)
    (employees : list Employee.t) (sessions : list Session.t) (s : Session.t) :
  Props.nobodyHidden hiddenEmployees sessions →
  s ∈ sessions →
  Props.suppressed s = false →
  ∃ e, e ∈ SessionDashboard.aggregatedStats hiddenEmployees filterType filterValue now
                                            employees sessions
       ∧ Js.toLowerCase (SessionDashboard.name e)
         = Js.toLowerCase (SessionDashboard.sessionName s).
Proof.
  intros Hhid Hs Hsup.
  destruct (statsMap_rollupInvariant hiddenEmployees filterType filterValue now
                                     employees sessions Hhid) as [Hrep Hrows].
  specialize (Hrep s Hs Hsup). apply has_get in Hrep as [e He].
  exists e. split.
  - unfold SessionDashboard.aggregatedStats, Js.values.
    apply list_elem_of_fmap. exists (Js.toLowerCase (SessionDashboard.sessionName s), e).
    split; [done | by apply get_elem_of].
  - by destruct (Hrows _ _ He) as ((-> & _) & _).
Qed.

Lemma aggregatedStats_represents_sessions_witness :
  ∃ e, e ∈ SessionDashboard.aggregatedStats {["99"]} (SessionDashboard.FProgram) "CP-0001"
             1706000000000 [] Props.annLeeSessions
       ∧ Js.toLowerCase (SessionDashboard.name e)
         = Js.toLowerCase (SessionDashboard.sessionName Props.februaryScheduled).
Proof.
  apply aggregatedStats_represents_sessions.
  - repeat constructor.
  - right; left.
  - reflexivity.
Defined.

Section RowFilter.
Import SessionDashboard Props.

Lemma sum_list_filter_le {A} (f : A → nat) (P : A → Prop) `{∀ x, Decision (P x)}
      (l : list A) :
  (sum_list (map f (filter P l)) ≤ sum_list (map f l))%nat.
Proof.
  induction l as [|x l IH]; simpl; [done|].
  rewrite filter_cons. destruct (decide (P x)); simpl; lia.
Qed.

Lemma sum_list_filter_eq {A} (f : A → nat) (P : A → Prop) `{∀ x, Decision (P x)}
      (l : list A) :
  Forall (λ x, ¬ P x → f x = 0%nat) l →
  sum_list (map f (filter P l)) = sum_list (map f l).
Proof.
  induction 1 as [|x l Hx _ IH]; simpl; [done|].
  rewrite filter_cons. destruct (decide (P x)); simpl; [lia|].
  rewrite Hx by done. lia.
Qed.

Lemma sum_list_le {A} (f g : A → nat) (l : list A) :
  Forall (λ x, f x ≤ g x)%nat l → (sum_list (map f l) ≤ sum_list (map g l))%nat.
Proof. induction 1; simpl; lia. Qed.

Lemma includes_empty s : Js.includes s "" = true.
Proof. by destruct s. Qed.

End RowFilter.

Section RollupSums.
Import SessionDashboard Props.
Variable hiddenEmployees : gset string.
Variable filterType : FilterType.
Variable filterValue : string.
Variable now : Z.
Variable employees : list Employee.t.
Variable sessions : list Session.t.

Local Abbreviation all :=
  (aggregatedStats hiddenEmployees filterType filterValue now employees sessions).
Local Abbreviation counted :=
  (filter (λ s, suppressed s = false ∧ includeSession filterType filterValue s = true)
          sessions).

Lemma counted_sum (δ : Session.t → nat) (P : Session.t → Prop) `{∀ s, Decision (P s)} :
  (∀ s, δ s = if decide (P s) then 1 else 0)%nat →
  sum_list (map (λ s, if negb (suppressed s) && includeSession filterType filterValue s
                      then δ s else 0)%nat sessions)
  = length (filter P counted).
Proof.
  intros Hδ. rewrite list_filter_filter, length_filter_sum.
  f_equal. apply map_ext. intros s. rewrite Hδ.
  destruct (suppressed s), (includeSession _ _ s); simpl;
    repeat case_decide; (done || tauto || (exfalso; intuition congruence)).
Qed.

Lemma filter_True_counted : filter (λ _ : Session.t, True) counted = counted.
Proof.
  generalize counted. intros l. induction l as [|x l IH]; [done|].
  rewrite filter_cons. simpl. by rewrite IH.
Qed.

Lemma rollup_total_sum :
  (sum_list (map total all) ≤ length counted)%nat
  ∧ (nobodyHidden hiddenEmployees sessions → sum_list (map total all) = length counted).
Proof.
  destruct (statsMap_sum hiddenEmployees filterType filterValue now
              total (λ _, 1%nat) employees sessions) as [Hle Heq].
  - intros s e. by destruct (backfill_counts s e) as (_ & _ & _ & ->).
  - intros s e. by destruct (countSession_counts now s e) as (-> & _).
  - by intros e (-> & _).
  - cbv zeta in *. rewrite (counted_sum (λ _, 1%nat) (λ _, True)) in * by done.
    by rewrite filter_True_counted in *.
Qed.

Lemma rollup_completed_sum :
  nobodyHidden hiddenEmployees sessions →
  sum_list (map completed all) = length (filter (isCompleted now) counted).
Proof.
  destruct (statsMap_sum hiddenEmployees filterType filterValue now completed
              (λ s, if decide (isCompleted now s) then 1%nat else 0%nat)
              employees sessions) as [_ Heq].
  - intros s e. by destruct (backfill_counts s e) as (-> & _).
  - intros s e. destruct (countSession_counts now s e) as (_ & Hb). cbv zeta in Hb.
    unfold isCompleted.
    repeat case_decide; injection Hb as -> _ _; (lia || (exfalso; tauto)).
  - by intros e (_ & _ & -> & _).
  - cbv zeta in Heq. intros Hhid. rewrite Heq by done. by apply counted_sum.
Qed.

(** With an empty search box the row filter keeps every row that counts a
    session. *)
Lemma empty_search_sum (f : Stat → nat) :
  (∀ e, partitioned e → total e = 0%nat → f e = 0%nat) →
  sum_list (map f (filteredData filterType filterValue "" all)) = sum_list (map f all).
Proof.
  intros Hf.
  pose proof (statsMap_partitioned hiddenEmployees filterType filterValue now
                                   employees sessions) as Hp.
  unfold filteredData. apply sum_list_filter_eq.
  eapply Forall_impl; [exact Hp|]. intros e He Hdrop. apply Hf; [done|].
  change (Js.toLowerCase "") with "" in Hdrop. rewrite includes_empty in Hdrop.
  simpl in Hdrop. unfold matchesContext in Hdrop.
  destruct (0 <? total e)%nat eqn:Et; [done|]. apply Nat.ltb_ge in Et. lia.
Qed.

End RollupSums.

(** X6. When nobody behind a session is hidden, the session totals over all
    rows lose and invent nothing: the sum of [total] is the number of
    sessions that pass the filter and do not carry the suppressed name, and
    the sum of [completed] is the number of those counted as completed. *)
Theorem aggregatedStats_totals_conserved
    (hiddenEmployees : gset string) (filterType : SessionDashboard.FilterType)
    (filterValue : string) (now : Z)
    (employees : list Employee.t) (sessions : list Session.t) :
  Props.nobodyHidden hiddenEmployees sessions →
  let rows := SessionDashboard.aggregatedStats hiddenEmployees filterType filterValue now
                                               employees sessions in
  let counted :=
    filter (λ s, Props.suppressed s = false
                 ∧ SessionDashboard.includeSession filterType filterValue s = true)
           sessions in
  SessionDashboard.totalSessions rows = length counted
  ∧ SessionDashboard.totalCompleted rows = length (filter (Props.isCompleted now) counted).
Proof.
  intros Hhid. cbv zeta.
  unfold SessionDashboard.totalSessions, SessionDashboard.totalCompleted.
  rewrite !fold_left_sum. simpl. split.
  - by apply rollup_total_sum.
  - by apply rollup_completed_sum.
Qed.

Lemma aggregatedStats_totals_conserved_witness :
  let rows := SessionDashboard.aggregatedStats {["99"]} SessionDashboard.FAll ""
                1706000000000 [Props.annLee] Props.annLeeSessions in
  let counted :=
    filter (λ s, Props.suppressed s = false
                 ∧ SessionDashboard.includeSession SessionDashboard.FAll "" s = true)
           Props.annLeeSessions in
  SessionDashboard.totalSessions rows = length counted
  ∧ SessionDashboard.totalCompleted rows
    = length (filter (Props.isCompleted 1706000000000) counted).
Proof.
  apply aggregatedStats_totals_conserved. repeat constructor.
Defined.

(** X7. The KPI cards never overstate: whatever the search term, the hidden
    set and the filter, Completed is at most Total Sessions over the
    displayed rows, and Total Sessions is at most the number of sessions
    that pass the filter without carrying the suppressed name. *)
Theorem kpi_totals_bounded
    (hiddenEmployees : gset string) (filterType : SessionDashboard.FilterType)
    (filterValue : string) (now : Z) (searchTerm : string)
    (employees : list Employee.t) (sessions : list Session.t) :
  let rows := SessionDashboard.filteredData filterType filterValue searchTerm
                (SessionDashboard.aggregatedStats hiddenEmployees filterType filterValue
                                                  now employees sessions) in
  (SessionDashboard.totalCompleted rows ≤ SessionDashboard.totalSessions rows)%nat
  ∧ (SessionDashboard.totalSessions rows
     ≤ length (filter (λ s, Props.suppressed s = false
                            ∧ SessionDashboard.includeSession filterType filterValue s
                              = true) sessions))%nat.
Proof.
  cbv zeta. unfold SessionDashboard.totalSessions, SessionDashboard.totalCompleted.
  rewrite !fold_left_sum. simpl. split.
  - apply sum_list_le. unfold SessionDashboard.filteredData.
    apply Forall_forall. intros e [_ He]%list_elem_of_filter.
    pose proof (statsMap_partitioned hiddenEmployees filterType filterValue now
                                     employees sessions) as Hp.
    rewrite Forall_forall in Hp. specialize (Hp e He). unfold Props.partitioned in Hp.
    lia.
  - unfold SessionDashboard.filteredData.
    etrans; [apply sum_list_filter_le|]. apply rollup_total_sum.
Qed.

(** X8. With an empty search box the row filter loses no session: the rows
    it drops are those outside the selected program or cohort that count no
    session, so Total Sessions and Completed over the displayed rows equal
    the sums over all rows. *)
Theorem kpi_totals_empty_search
    (hiddenEmployees : gset string) (filterType : SessionDashboard.FilterType)
    (filterValue : string) (now : Z)
    (employees : list Employee.t) (sessions : list Session.t) :
  let all := SessionDashboard.aggregatedStats hiddenEmployees filterType filterValue
                                              now employees sessions in
  let rows := SessionDashboard.filteredData filterType filterValue "" all in
  SessionDashboard.totalSessions rows = SessionDashboard.totalSessions all
  ∧ SessionDashboard.totalCompleted rows = SessionDashboard.totalCompleted all.
Proof.
  cbv zeta. unfold SessionDashboard.totalSessions, SessionDashboard.totalCompleted.
  rewrite !fold_left_sum. simpl.
  split; apply empty_search_sum; intros e He Ht; [done|].
  unfold Props.partitioned in He. lia.
Qed.

(** ** Further properties of the trend chart *)

Section TrendTotal.
Import SimpleTrendChart.
Variable filterType : SessionDashboard.FilterType.
Variable filterValue : string.
Variable now : Z.

Lemma sum_snd_insert (counts : gmap string nat) key n :
  (sum_list (snd <$> map_to_list (<[key := n]> counts)) + default 0 (counts !! key)
   = sum_list (snd <$> map_to_list counts) + n)%nat.
Proof.
  destruct (counts !! key) as [old|] eqn:E; simpl.
  - rewrite <- (insert_delete_eq counts), map_to_list_insert by apply lookup_delete_eq.
    rewrite <- (map_to_list_delete counts key old E).
    rewrite !fmap_cons. cbn [sum_list sum_list_with snd id]. lia.
  - rewrite map_to_list_insert by done.
    rewrite !fmap_cons. cbn [sum_list sum_list_with snd id]. lia.
Qed.

Lemma bump_total counts s :
  sum_list (snd <$> map_to_list (bump now counts s))
  = (sum_list (snd <$> map_to_list counts)
     + if countsAsCompleted now s then 1 else 0)%nat.
Proof.
  unfold bump. destruct (countsAsCompleted now s); [|lia].
  pose proof (sum_snd_insert counts (Js.monthKey (Session.session_date s))
                (default 0 (counts !! Js.monthKey (Session.session_date s)) + 1)) as H.
  lia.
Qed.

Lemma fold_bump_total l counts :
  sum_list (snd <$> map_to_list (fold_left (bump now) l counts))
  = (sum_list (snd <$> map_to_list counts)
     + length (filter (λ s, countsAsCompleted now s = true) l))%nat.
Proof.
  revert counts. induction l as [|s l IH]; intros counts; simpl; [lia|].
  rewrite IH, bump_total, filter_cons.
  destruct (countsAsCompleted now s); simpl; lia.
Qed.

Lemma chart_values (counts : gmap string nat) (f : string → string) :
  sum_list (map value (map (λ key, {| label := f key;
                                      value := default 0 (counts !! key) |})
                           (sortedKeys counts)))
  = sum_list (snd <$> map_to_list counts).
Proof.
  rewrite map_map. simpl. unfold sortedKeys.
  change (map (λ key, default 0 (counts !! key)))
    with (fmap (M := list) (λ key, default 0 (counts !! key))).
  rewrite merge_sort_Permutation.
  change (map fst (map_to_list counts)) with (fst <$> map_to_list counts).
  rewrite <- list_fmap_compose. f_equal.
  apply list_fmap_ext. intros i [k v] Hin. simpl.
  apply list_elem_of_lookup_2, elem_of_map_to_list in Hin. by rewrite Hin.
Qed.

Lemma chart_total fmt sessions :
  sum_list (map value (chartData filterType filterValue now fmt sessions))
  = length (filter (λ s, passesFilter filterType filterValue s = true
                         ∧ countsAsCompleted now s = true) sessions).
Proof.
  unfold chartData. destruct sessions as [|s0 sessions]; [done|].
  change (length (s0 :: sessions) =? 0)%nat with false. cbv iota.
  rewrite chart_values. unfold monthlyCounts.
  rewrite fold_bump_total, map_to_list_empty. simpl sum_list.
  rewrite list_filter_filter. simpl. f_equal.
  apply list_filter_iff. intros s. tauto.
Qed.

End TrendTotal.

(** X9. The points of the trend chart add up to the number of sessions that
    pass the chart's filter and count as completed: no such session is left
    out of its month or counted twice. *)
Theorem chartData_total
    (filterType : SessionDashboard.FilterType) (filterValue : string) (now : Z)
    (monthYearLabel : option Z → option Z → string) (sessions : list Session.t) :
  sum_list (map SimpleTrendChart.value
                (SimpleTrendChart.chartData filterType filterValue now monthYearLabel
                                            sessions))
  = length (filter (λ s, SimpleTrendChart.passesFilter filterType filterValue s = true
                         ∧ SimpleTrendChart.countsAsCompleted now s = true) sessions).
Proof. apply chart_total. Qed.

Section CardAndChart.
Import SessionDashboard Props.



End CardAndChart.



(** ** Further properties of the home view *)

Section CohortList.
Import HomeDashboard.

Lemma cohortLabel_truthy s c : cohortLabel s = Some c → c ≠ "".
Proof.
  unfold cohortLabel. cbv zeta.
  set (v := Js.or (Js.or _ _) _). destruct (Js.truthy v) eqn:E; [|done].
  intros H. rewrite H in E. simpl in E. intros ->. done.
Qed.

(** The label of a session is one of its three fields, so the session
    belongs to the cohort selected by its label. *)
Lemma cohortLabel_inCohort s c : cohortLabel s = Some c → inCohort c s = true.
Proof.
  intros Hl. pose proof (cohortLabel_truthy s c Hl) as Hne.
  unfold inCohort. destruct (isAll c); [done|].
  revert Hl. unfold cohortLabel. cbv zeta.
  set (v := Js.or (Js.or _ _) _). destruct (Js.truthy v) eqn:E; [|done]. clear E.
  subst v.
  unfold selNorm. rewrite !orb_true_iff, !String.eqb_eq.
  unfold Js.or.
  destruct (Js.truthy (Session.program_name s)) eqn:E1; simpl; rewrite ?E1.
  - intros Hl. left; left. by rewrite Hl.
  - destruct (Js.truthy (Session.cohort s)) eqn:E2; simpl; rewrite ?E2.
    + intros Hl. left; right. by rewrite Hl.
    + intros Hl. right. by rewrite Hl.
Qed.

Lemma cohorts_tail sessions c :
  c ∈ merge_sort String.le (remove_dups (omap cohortLabel sessions))
  ↔ ∃ s, s ∈ sessions ∧ cohortLabel s = Some c.
Proof.
  rewrite merge_sort_Permutation, elem_of_remove_dups, list_elem_of_omap. done.
Qed.

End CohortList.

(** X11. The cohort selector offers "All Cohorts" first and then the
    labels of the sessions, each once and in ascending order; a text is
    among them exactly when it is the first non-empty one of the program
    name, cohort and program code of some session. *)
Theorem cohorts_sorted_distinct (sessions : list Session.t) :
  ∃ rest,
    HomeDashboard.cohorts sessions = "All Cohorts" :: rest
    ∧ Sorted String.le rest ∧ NoDup rest
    ∧ ∀ c, c ∈ rest ↔ ∃ s, s ∈ sessions ∧ HomeDashboard.cohortLabel s = Some c.
Proof.
  eexists. split; [reflexivity|]. split_and!.
  - apply (Sorted_merge_sort String.le).
  - rewrite merge_sort_Permutation. apply NoDup_remove_dups.
  - apply cohorts_tail.
Qed.

(** X12. No entry of the cohort selector is a dead end: whenever there are
    sessions at all, selecting any offered entry retains at least one
    session. *)
Theorem cohorts_select_sessions (sessions : list Session.t) (c : string) :
  sessions ≠ [] →
  c ∈ HomeDashboard.cohorts sessions →
  HomeDashboard.cohortSessions sessions c ≠ [].
Proof.
  intros Hne Hc. unfold HomeDashboard.cohorts in Hc.
  assert (Hs : ∃ s, s ∈ sessions ∧ HomeDashboard.inCohort c s = true).
  { apply elem_of_cons in Hc as [->|Hc].
    - destruct sessions as [|s l]; [done|]. exists s. split; [left | done].
    - apply cohorts_tail in Hc as (s & Hs & Hl). exists s. split; [done|].
      by apply cohortLabel_inCohort. }
  destruct Hs as (s & Hs & Hin). unfold HomeDashboard.cohortSessions.
  intros Hnil. assert (H : s ∈ filter (λ s, HomeDashboard.inCohort c s = true) sessions)
    by (by apply list_elem_of_filter).
  rewrite Hnil in H. by apply elem_of_nil in H.
Qed.

Lemma cohorts_select_sessions_witness :
  HomeDashboard.cohortSessions Props.annLeeSessions "CP-0028" ≠ [].
Proof.
  apply cohorts_select_sessions.
  - discriminate.
  - vm_compute. right. left.
Defined.

Section QuoteRanking.
Import HomeDashboard.



End QuoteRanking.


Section RecentActivity.
Import HomeDashboard.
Variable now : Z.

Local Abbreviation notLater :=
  (λ a b : Session.t, Js.date_ltb (Session.session_date a) (Session.session_date b) = false).

Lemma insertByDate_Permutation x sorted : insertByDate x sorted ≡ₚ x :: sorted.
Proof.
  induction sorted as [|y rest IH]; simpl; [done|].
  destruct (Js.date_ltb _ _); [done|]. rewrite IH. apply Permutation_swap.
Qed.

Lemma sortByDate_Permutation l : sortByDate l ≡ₚ l.
Proof.
  unfold sortByDate.
  assert (H : ∀ acc, fold_left (λ acc x, insertByDate x acc) l acc ≡ₚ acc ++ l).
  { induction l as [|x l IH]; simpl; intros acc; [by rewrite app_nil_r|].
    rewrite IH, insertByDate_Permutation. simpl. apply Permutation_middle. }
  by rewrite H.
Qed.

Lemma date_ltb_asym a b : Js.date_ltb a b = true → Js.date_ltb b a = false.
Proof. destruct a, b; simpl; try done. lia. Qed.

Lemma insertByDate_sorted x sorted :
  StronglySorted notLater sorted → StronglySorted notLater (insertByDate x sorted).
Proof.
  induction 1 as [|y rest Hrest IH Hy]; simpl.
  - by repeat constructor.
  - destruct (Js.date_ltb _ _) eqn:E.
    + constructor; [by constructor|].
      constructor; [by apply date_ltb_asym|].
      eapply Forall_impl; [exact Hy|]. simpl. intros r Hr.
      by eapply date_ltb_later.
    + constructor; [done|].
      rewrite insertByDate_Permutation. by constructor.
Qed.

Lemma sortByDate_sorted l : StronglySorted notLater (sortByDate l).
Proof.
  unfold sortByDate.
  assert (H : ∀ acc, StronglySorted notLater acc →
                     StronglySorted notLater
                       (fold_left (λ acc x, insertByDate x acc) l acc)).
  { induction l as [|x l IH]; simpl; intros acc Hacc; [done|].
    by apply IH, insertByDate_sorted. }
  apply H. constructor.
Qed.

Lemma dedupe_cases seen n s l :
  (Js.id_truthy (participantKey s) = true ∧ (participantKey s ∉ seen)
   ∧ dedupe seen n (s :: l)
     = s :: (if (5 <=? n + 1)%nat then []
             else dedupe (participantKey s :: seen) (n + 1) l))
  ∨ ((Js.id_truthy (participantKey s) = false ∨ participantKey s ∈ seen)
     ∧ dedupe seen n (s :: l) = dedupe seen n l).
Proof.
  cbn [dedupe]. destruct (Js.id_truthy (participantKey s)); cbn [andb].
  - destruct (bool_decide (participantKey s ∈ seen)) eqn:Es; cbn [negb].
    + apply bool_decide_eq_true in Es. right. split; [by right | done].
    + apply bool_decide_eq_false in Es. left. done.
  - right. split; [by left | done].
Qed.

Lemma dedupe_length seen n l : (n < 5 → length (dedupe seen n l) + n ≤ 5)%nat.
Proof.
  revert seen n. induction l as [|s l IH]; intros seen n Hn; [simpl; lia|].
  destruct (dedupe_cases seen n s l) as [(_ & _ & ->)|(_ & ->)]; [|by apply IH].
  destruct (5 <=? n + 1)%nat eqn:E; cbn [length]; [lia|].
  apply Nat.leb_gt in E. specialize (IH (participantKey s :: seen) (n + 1)%nat). lia.
Qed.

Lemma dedupe_elem seen n l r :
  r ∈ dedupe seen n l →
  Js.id_truthy (participantKey r) = true ∧ (participantKey r ∉ seen)
  ∧ ∃ pre post, l = pre ++ r :: post
                ∧ ∀ x, x ∈ pre → participantKey x ≠ participantKey r.
Proof.
  revert seen n. induction l as [|s l IH]; intros seen n Hr.
  - by apply elem_of_nil in Hr.
  - destruct (dedupe_cases seen n s l) as [(Ht & Hns & Heq)|(Hskip & Heq)];
      rewrite Heq in Hr; clear Heq.
    + apply elem_of_cons in Hr as [->|Hr].
      * split_and!; [done..|]. exists [], l. split; [done|].
        intros x Hx. by apply elem_of_nil in Hx.
      * destruct (5 <=? n + 1)%nat; [by apply elem_of_nil in Hr|].
        destruct (IH _ _ Hr) as (Ht' & Hns' & pre & post & -> & Hpre).
        apply not_elem_of_cons in Hns' as [Hne Hns'].
        split_and!; [done..|]. exists (s :: pre), post. split; [done|].
        intros x [->|Hx]%elem_of_cons; [done | by apply Hpre].
    + destruct (IH _ _ Hr) as (Ht & Hns & pre & post & -> & Hpre).
      split_and!; [done..|]. exists (s :: pre), post. split; [done|].
      intros x [->|Hx]%elem_of_cons; [|by apply Hpre]. intros Heq.
      destruct Hskip as [Hf|Hin]; [congruence | by rewrite Heq in Hin].
Qed.

Lemma dedupe_NoDup seen n l : NoDup (map participantKey (dedupe seen n l)).
Proof.
  revert seen n. induction l as [|s l IH]; intros seen n; [constructor|].
  destruct (dedupe_cases seen n s l) as [(_ & _ & ->)|(_ & ->)]; [|by apply IH].
  destruct (5 <=? n + 1)%nat; simpl; [apply NoDup_singleton|].
  apply NoDup_cons. split; [|by apply IH].
  intros Hin. apply list_elem_of_fmap in Hin as (r & Heq & Hr).
  apply dedupe_elem in Hr as (_ & Hns & _). apply Hns. rewrite <- Heq. left.
Qed.

Lemma dedupe_complete seen n l s :
  (length (dedupe seen n l) + n < 5)%nat →
  s ∈ l → Js.id_truthy (participantKey s) = true →
  participantKey s ∈ seen
  ∨ ∃ r, r ∈ dedupe seen n l ∧ participantKey r = participantKey s.
Proof.
  revert seen n. induction l as [|x l IH]; intros seen n Hlen Hs Ht.
  - by apply elem_of_nil in Hs.
  - destruct (dedupe_cases seen n x l) as [(Htx & Hns & Heq)|(Hskip & Heq)];
      rewrite Heq in *; clear Heq.
    + destruct (5 <=? n + 1)%nat eqn:E; cbn [length] in Hlen;
        [apply Nat.leb_le in E; lia|].
      apply elem_of_cons in Hs as [->|Hs].
      * right. exists x. split; [left | done].
      * destruct (IH (participantKey x :: seen) (n + 1)%nat) as [Hin|(r & Hr & Hk)];
          [lia | done.. | |].
        -- apply elem_of_cons in Hin as [Heq|Hin]; [|by left].
           right. exists x. split; [left | done].
        -- right. exists r. split; [by right | done].
    + apply elem_of_cons in Hs as [->|Hs]; [|by apply IH].
      destruct Hskip as [Hf|Hin]; [congruence | by left].
Qed.

End RecentActivity.

(** X14. The recent-activity list shows at most five sessions, no two of
    the same person, and each of them is a session of the input that is
    completed (or has no status and lies in the past) and has a person to
    attribute it to. *)
Theorem getRecentActivity_shape (now : Z) (l : list Session.t) :
  let recent := HomeDashboard.getRecentActivity now l in
  (length recent ≤ 5)%nat
  ∧ NoDup (map HomeDashboard.participantKey recent)
  ∧ Forall (λ s, s ∈ l ∧ Props.eligible now s) recent.
Proof.
  cbv zeta. unfold HomeDashboard.getRecentActivity. split_and!.
  - pose proof (dedupe_length [] 0
                  (HomeDashboard.sortByDate
                     (filter (λ s, HomeDashboard.recentlyCompleted now s = true) l))).
    lia.
  - apply dedupe_NoDup.
  - apply Forall_forall. intros r Hr.
    apply dedupe_elem in Hr as (Ht & _ & pre & post & Heq & _).
    assert (Hin : r ∈ HomeDashboard.sortByDate
                        (filter (λ s, HomeDashboard.recentlyCompleted now s = true) l)).
    { rewrite Heq. apply elem_of_app. right. left. }
    rewrite sortByDate_Permutation in Hin.
    apply list_elem_of_filter in Hin as [Hc Hin]. by repeat split.
Qed.

(** X15. When all session dates are valid, the session shown for a person
    in the recent-activity list is that person's most recent completed one:
    its time is at least the time of every completed session of the same
    person in the input. *)
Theorem getRecentActivity_most_recent (now : Z) (l : list Session.t)
    (r s : Session.t) :
  Forall Props.dated l →
  r ∈ HomeDashboard.getRecentActivity now l →
  s ∈ l →
  HomeDashboard.recentlyCompleted now s = true →
  HomeDashboard.participantKey s = HomeDashboard.participantKey r →
  ∃ tr ts, Js.getTime (Session.session_date r) = Js.of_Z tr
           ∧ Js.getTime (Session.session_date s) = Js.of_Z ts
           ∧ (ts ≤ tr)%Z.
Proof.
  intros Hdated Hr Hs Hc Hk. unfold HomeDashboard.getRecentActivity in Hr.
  pose proof (sortByDate_sorted
                (filter (λ s, HomeDashboard.recentlyCompleted now s = true) l)) as Hsorted.
  apply dedupe_elem in Hr as (_ & _ & pre & post & Heq & Hpre).
  assert (Hin : s ∈ HomeDashboard.sortByDate
                      (filter (λ s, HomeDashboard.recentlyCompleted now s = true) l)).
  { rewrite sortByDate_Permutation. by apply list_elem_of_filter. }
  assert (Hrl : r ∈ l).
  { assert (Hr' : r ∈ HomeDashboard.sortByDate
                        (filter (λ s, HomeDashboard.recentlyCompleted now s = true) l))
      by (rewrite Heq; apply elem_of_app; right; left).
    rewrite sortByDate_Permutation in Hr'. by apply list_elem_of_filter in Hr' as [_ ?]. }
  assert (Hlater : Js.date_ltb (Session.session_date r) (Session.session_date s) = false).
  { rewrite Heq in Hin, Hsorted.
    apply elem_of_app in Hin as [Hin|Hin]; [by destruct (Hpre s Hin)|].
    apply StronglySorted_app_1_r in Hsorted.
    apply StronglySorted_inv in Hsorted as [_ Hpost].
    apply elem_of_cons in Hin as [->|Hin]; [apply date_ltb_irrefl|].
    rewrite Forall_forall in Hpost. by apply Hpost. }
  rewrite Forall_forall in Hdated.
  pose proof (Hdated r Hrl) as Hdr. pose proof (Hdated s Hs) as Hds.
  unfold Props.dated in Hdr, Hds.
  destruct (Session.session_date r) as [|tr yr mr]; [done|].
  destruct (Session.session_date s) as [|ts ys ms]; [done|].
  exists tr, ts. simpl in Hlater. split_and!; [done..|]. lia.
Qed.

Lemma getRecentActivity_most_recent_witness :
  HomeDashboard.getRecentActivity 1706000000000 Props.twoPeopleSessions
  = [Props.januaryTwelfthCompleted; Props.januaryNinthCompleted]
  ∧ Props.januaryFifthCompleted ∈ Props.twoPeopleSessions
  ∧ HomeDashboard.participantKey Props.januaryFifthCompleted
    = HomeDashboard.participantKey Props.januaryTwelfthCompleted
  ∧ ∃ tr ts,
      Js.getTime (Session.session_date Props.januaryTwelfthCompleted) = Js.of_Z tr
      ∧ Js.getTime (Session.session_date Props.januaryFifthCompleted) = Js.of_Z ts
      ∧ (ts ≤ tr)%Z.
Proof.
  split; [vm_compute; reflexivity|]. split; [left|]. split; [reflexivity|].
  apply (getRecentActivity_most_recent 1706000000000 Props.twoPeopleSessions).
  - repeat constructor; discriminate.
  - vm_compute. left.
  - left.
  - reflexivity.
  - reflexivity.
Defined.

(** X16. The recent-activity list leaves nobody out while it has room:
    when it shows fewer than five sessions, every person with a completed
    session in the input appears in it. *)
Theorem getRecentActivity_complete (now : Z) (l : list Session.t) (s : Session.t) :
  (length (HomeDashboard.getRecentActivity now l) < 5)%nat →
  s ∈ l →
  Props.eligible now s →
  ∃ r, r ∈ HomeDashboard.getRecentActivity now l
       ∧ HomeDashboard.participantKey r = HomeDashboard.participantKey s.
Proof.
  intros Hlen Hs [Hc Ht]. unfold HomeDashboard.getRecentActivity in *.
  destruct (dedupe_complete [] 0
              (HomeDashboard.sortByDate
                 (filter (λ s, HomeDashboard.recentlyCompleted now s = true) l)) s)
    as [Hin|Hr]; [lia | | done | by apply elem_of_nil in Hin | done].
  rewrite sortByDate_Permutation. by apply list_elem_of_filter.
Qed.

Lemma getRecentActivity_complete_witness :
  ∃ r, r ∈ HomeDashboard.getRecentActivity 1706000000000 Props.annLeeSessions
       ∧ HomeDashboard.participantKey r
         = HomeDashboard.participantKey Props.januaryFifthCompleted.
Proof.
  apply getRecentActivity_complete.
  - vm_compute. lia.
  - left.
  - split; reflexivity.
Defined.

(** ** Further properties of the impact view *)

Section ImpactOrder.
Import ImpactDashboard Props.

Lemma ltb_asym x y : Js.ltb x y = true → Js.ltb y x = false.
Proof.
  destruct x as [|s|a], y as [|t|b]; simpl; try done.
  - by destruct s, t.
  - by destruct s.
  - by destruct t.
  - intros H%bool_decide_eq_true. apply bool_decide_eq_false.
    intros H'. exact (Qclt_not_eq _ _ (Qclt_trans _ _ _ H H') eq_refl).
Qed.

Lemma ltb_later a x b :
  Js.ltb a x = true → Js.ltb a b = false → Js.ltb x b = false.
Proof.
  destruct a as [|sa|qa], x as [|sx|qx], b as [|sb|qb]; simpl; try done;
    try (by destruct sa, sx, sb); try (by destruct sa, sx); try (by destruct sx, sb);
    try (by destruct sa, sb); try (by destruct sa); try (by destruct sx);
    try (by destruct sb).
  intros H1%bool_decide_eq_true H2%bool_decide_eq_false. apply bool_decide_eq_false.
  intros H3. apply H2. exact (Qclt_trans _ _ _ H1 H3).
Qed.

Lemma insertByGrowth_sorted x sorted :
  StronglySorted (λ a b, Js.ltb (pctGrowth a) (pctGrowth b) = false) sorted →
  StronglySorted (λ a b, Js.ltb (pctGrowth a) (pctGrowth b) = false)
                 (insertByGrowth x sorted).
Proof.
  induction 1 as [|y rest Hrest IH Hy]; simpl.
  - by repeat constructor.
  - destruct (Js.ltb _ _) eqn:E.
    + constructor; [by constructor|].
      constructor; [by apply ltb_asym|].
      eapply Forall_impl; [exact Hy|]. simpl. intros r Hr.
      by eapply ltb_later.
    + constructor; [done|].
      rewrite insertByGrowth_Permutation. by constructor.
Qed.

Lemma competencyStats_sorted sel scores :
  StronglySorted (λ a b, Js.ltb (pctGrowth a) (pctGrowth b) = false)
                 (competencyStats sel scores).
Proof.
  unfold competencyStats. generalize (map summarize (Js.values
                                        (compMap (filteredScores sel scores)))).
  intros l.
  assert (H : ∀ acc,
    StronglySorted (λ a b, Js.ltb (pctGrowth a) (pctGrowth b) = false) acc →
    StronglySorted (λ a b, Js.ltb (pctGrowth a) (pctGrowth b) = false)
                   (fold_left (λ acc x, insertByGrowth x acc) l acc)).
  { induction l as [|x l IH]; simpl; intros acc Hacc; [done|].
    by apply IH, insertByGrowth_sorted. }
  apply H. constructor.
Qed.

Lemma sumOf_finite (f : CompetencyScore.t → Js.JsNum) records :
  Forall (λ s, finite (f s)) records → finite (sumOf f records).
Proof.
  unfold sumOf. assert (H0 : finite (Js.of_Z 0)) by (by eexists).
  revert H0. generalize (Js.of_Z 0). intros acc Hacc Hall. revert acc Hacc.
  induction Hall as [|s records [q Hs] _ IH]; simpl; intros acc [a ->]; [by eexists|].
  apply IH. rewrite Hs. by eexists.
Qed.

Lemma filteredScores_subseteq sel scores s :
  s ∈ filteredScores sel scores → s ∈ scores.
Proof.
  unfold filteredScores. destruct (String.eqb _ _); [done|].
  by intros [_ H]%list_elem_of_filter.
Qed.

Lemma competencyStats_finite sel scores :
  finiteScores scores →
  Forall (λ c, finite (pctGrowth c)) (competencyStats sel scores).
Proof.
  intros Hfin. apply Forall_forall. intros c Hc.
  destruct (competencyStats_pairs_only sel scores) as (_ & Hstat & _).
  destruct (Hstat c Hc) as (Hne & Hpre & Hpost & Hpct). cbv zeta in *.
  set (records := validRecords (name c) (filteredScores sel scores)) in *.
  assert (Hrec : Forall (λ s, finite (CompetencyScore.pre s)
                              ∧ finite (CompetencyScore.post s)) records).
  { apply Forall_forall. intros s [_ Hs]%list_elem_of_filter.
    apply filteredScores_subseteq in Hs.
    unfold finiteScores in Hfin. rewrite Forall_forall in Hfin. by apply Hfin. }
  assert (Hn : Qc_of_Z (Z.of_nat (length records)) ≠ 0%Qc).
  { apply Qc_of_Z_neq_0. destruct records; [done | simpl; lia]. }
  destruct (sumOf_finite CompetencyScore.pre records) as [p Hp].
  { eapply Forall_impl; [exact Hrec|]. by intros s [? _]. }
  destruct (sumOf_finite CompetencyScore.post records) as [q Hq].
  { eapply Forall_impl; [exact Hrec|]. by intros s [_ ?]. }
  rewrite Hp in Hpre. rewrite Hq in Hpost.
  unfold Js.of_nat, Js.of_Z in Hpre, Hpost.
  rewrite div_Fin in Hpre, Hpost by done.
  rewrite Hpct, Hpre, Hpost. clear Hpct Hstat.
  destruct (Js.gtb _ _) eqn:Egt; [|eexists; reflexivity].
  assert (Hp0 : (p / Qc_of_Z (Z.of_nat (length records)))%Qc ≠ 0%Qc).
  { intros H0. rewrite H0 in Egt. unfold Js.gtb, Js.of_Z in Egt. simpl in Egt.
    discriminate Egt. }
  unfold Js.sub. cbn [Js.neg Js.add]. rewrite div_Fin by done.
  eexists; reflexivity.
Qed.

Lemma StronglySorted_impl_Forall {A} (R R' : A → A → Prop) (P : A → Prop) l :
  (∀ a b, P a → P b → R a b → R' a b) →
  Forall P l → StronglySorted R l → StronglySorted R' l.
Proof.
  intros Himpl Hall Hsorted. induction Hsorted as [|x l Hl IH Hx]; [constructor|].
  apply Forall_cons in Hall as [Hpx Hall]. constructor; [by apply IH|].
  rewrite Forall_forall in Hx, Hall. apply Forall_forall. intros y Hy.
  apply Himpl; auto.
Qed.

Lemma getInterpretation_blank tops : getInterpretation tops = "" ↔ tops = [].
Proof.
  split; [|by intros ->]. destruct tops as [|first rest]; [done|].
  unfold getInterpretation. cbv zeta.
  repeat match goal with |- context [if ?b then _ else _] => destruct b end;
    discriminate.
Qed.

Lemma competencyStats_nil sel scores :
  competencyStats sel scores = []
  ↔ Forall (λ s, valid s = false) (filteredScores sel scores).
Proof.
  destruct (competencyStats_pairs_only sel scores) as (_ & Hstat & Hall).
  cbv zeta in *. split.
  - intros Hnil. apply Forall_forall. intros s Hs.
    destruct (valid s) eqn:Hv; [|done]. exfalso.
    destruct (Hall (CompetencyScore.competency s)) as (c & Hc & _).
    + intros Hrecs.
      assert (Hin : s ∈ validRecords (CompetencyScore.competency s)
                                      (filteredScores sel scores))
        by (by apply list_elem_of_filter).
      rewrite Hrecs in Hin. by apply elem_of_nil in Hin.
    + rewrite Hnil in Hc. by apply elem_of_nil in Hc.
  - intros Hnone. destruct (competencyStats sel scores) as [|c rest] eqn:E; [done|].
    exfalso. destruct (Hstat c) as (Hne & _); [left|].
    destruct (validRecords (name c) (filteredScores sel scores)) as [|r records] eqn:Er;
      [done|].
    assert (Hin : r ∈ validRecords (name c) (filteredScores sel scores))
      by (rewrite Er; left).
    apply list_elem_of_filter in Hin as [[Hv _] Hin].
    rewrite Forall_forall in Hnone. specialize (Hnone r Hin). congruence.
Qed.

End ImpactOrder.

(** X17. In the impact view every competency with at least one record
    whose pre and post scores are both positive numbers has a statistic,
    every statistic averages exactly those records of its competency, and
    no competency is listed twice. *)
Theorem competencyStats_exact (selectedProgram : string)
    (scores : list CompetencyScore.t) :
  let shown := ImpactDashboard.filteredScores selectedProgram scores in
  let stats := ImpactDashboard.competencyStats selectedProgram scores in
  (∀ c, c ∈ stats →
     let records := Props.validRecords (ImpactDashboard.name c) shown in
     let n := Js.of_nat (length records) in
     records ≠ []
     ∧ ImpactDashboard.avgPre c = Js.div (Props.sumOf CompetencyScore.pre records) n
     ∧ ImpactDashboard.avgPost c = Js.div (Props.sumOf CompetencyScore.post records) n)
  ∧ (∀ key, Props.validRecords key shown ≠ [] →
            ∃ c, c ∈ stats ∧ ImpactDashboard.name c = key)
  ∧ NoDup (map ImpactDashboard.name stats).
Proof.
  cbv zeta.
  destruct (competencyStats_pairs_only selectedProgram scores) as (_ & Hstat & Hall).
  cbv zeta in *. split_and!.
  - intros c Hc. destruct (Hstat c Hc) as (? & ? & ? & _). done.
  - exact Hall.
  - rewrite competencyStats_Permutation.
    destruct (compMap_spec (ImpactDashboard.filteredScores selectedProgram scores))
      as [Hnd Hget].
    unfold Js.values. rewrite !map_map.
    erewrite map_ext_Forall; [exact Hnd|].
    apply Forall_forall. intros [k acc] Hin. simpl.
    apply elem_of_get in Hin; [|done]. rewrite Hget in Hin.
    by rewrite (expectedAcc_name _ _ _ Hin).
Qed.

(** X18. The impact view lists the competencies by the growth rates it
    computed, highest first: when those rates are finite numbers, no
    statistic is followed by one with a higher rate. *)
Theorem competencyStats_descending (selectedProgram : string)
    (scores : list CompetencyScore.t) :
  Forall (λ c, Props.finite (ImpactDashboard.pctGrowth c))
         (ImpactDashboard.competencyStats selectedProgram scores) →
  StronglySorted Props.growsAtLeast
                 (ImpactDashboard.competencyStats selectedProgram scores).
Proof.
  intros Hfin.
  eapply (StronglySorted_impl_Forall _ _ (λ c, Props.finite (ImpactDashboard.pctGrowth c)));
    [| exact Hfin | apply competencyStats_sorted].
  intros a b [qa Ha] [qb Hb] Hlt. exists qa, qb. split_and!; [done..|].
  rewrite Ha, Hb in Hlt. simpl in Hlt. apply bool_decide_eq_false in Hlt.
  by apply Qcnot_lt_le.
Qed.

Lemma competencyStats_descending_witness :
  map ImpactDashboard.name
      (ImpactDashboard.competencyStats "All Programs" Props.threeCompetencies)
  = ["Communication"; "Strategic Thinking"; "Delegation"]
  ∧ map (λ c, Props.asFraction (ImpactDashboard.pctGrowth c))
        (ImpactDashboard.competencyStats "All Programs" Props.threeCompetencies)
    = [Some 100%Q; Some 25%Q; Some 20%Q]
  ∧ StronglySorted Props.growsAtLeast
      (ImpactDashboard.competencyStats "All Programs" Props.threeCompetencies).
Proof.
  split; [vm_compute; reflexivity|]. split; [vm_compute; reflexivity|].
  apply competencyStats_descending.
  vm_compute. repeat constructor; eexists; reflexivity.
Defined.

(** X19. The impact view has data, and its interpretation sentence is not
    blank, exactly when some record of the selected program has a pre and a
    post score that are both positive numbers. *)
Theorem interpretationText_blank (selectedProgram : string)
    (scores : list CompetencyScore.t) :
  let stats := ImpactDashboard.competencyStats selectedProgram scores in
  let noValidRecord :=
    Forall (λ s, ImpactDashboard.valid s = false)
           (ImpactDashboard.filteredScores selectedProgram scores) in
  (ImpactDashboard.interpretationText selectedProgram scores = "" ↔ noValidRecord)
  ∧ (ImpactDashboard.hasImpactData stats = false ↔ noValidRecord).
Proof.
  cbv zeta. rewrite <- competencyStats_nil.
  unfold ImpactDashboard.interpretationText, ImpactDashboard.hasImpactData.
  rewrite getInterpretation_blank. unfold ImpactDashboard.topCompetencies.
  destruct (ImpactDashboard.competencyStats selectedProgram scores) as [|c rest];
    simpl; split; split; (done || discriminate).
Qed.

(** ** Further properties of the fetcher *)

Section Fetcher.
Import DataFetcher.

Lemma filter_disjoint_length {A} (P Q : A → Prop)
      `{∀ x, Decision (P x)} `{∀ x, Decision (Q x)} (l : list A) :
  (∀ x, P x → Q x → False) →
  (length (filter P l) + length (filter Q l) ≤ length l)%nat.
Proof.
  intros Hdis. induction l as [|x l IH]; simpl; [done|].
  rewrite !filter_cons.
  destruct (decide (P x)), (decide (Q x)); simpl; try lia.
  exfalso. eauto.
Qed.

Lemma filter_impl_length {A} (P Q : A → Prop)
      `{∀ x, Decision (P x)} `{∀ x, Decision (Q x)} (l : list A) :
  Forall (λ x, P x → Q x) l → (length (filter P l) ≤ length (filter Q l))%nat.
Proof.
  induction 1 as [|x l Hx _ IH]; simpl; [done|].
  rewrite !filter_cons.
  destruct (decide (P x)), (decide (Q x)); simpl; try lia.
  exfalso. eauto.
Qed.

Lemma statsUpcoming_status now s :
  statsUpcoming now s = true → SessionDashboard.statusRaw s = "scheduled".
Proof.
  unfold statsUpcoming, SessionDashboard.statusRaw.
  intros [H _]%andb_true_iff. by apply String.eqb_eq.
Qed.

End Fetcher.

(** X20. The basic session statistics never count a session twice: a
    session is not both completed and upcoming, so the two counts together
    stay within the total; and every upcoming session is one that the
    rollup puts in its scheduled bucket. *)
Theorem calculateStats_bounds (now : Z) (sessions : list Session.t) :
  let stats := DataFetcher.calculateStats now sessions in
  (DataFetcher.completedSessions stats + DataFetcher.upcomingSessions stats
   ≤ DataFetcher.totalSessions stats)%nat
  ∧ (DataFetcher.upcomingSessions stats
     ≤ length (filter (Props.isScheduled now) sessions))%nat.
Proof.
  cbv zeta. simpl. split.
  - apply filter_disjoint_length. intros s Hc Hu.
    apply statsUpcoming_status in Hu. unfold DataFetcher.statsCompleted in Hc.
    unfold SessionDashboard.statusRaw in Hu. rewrite Hu in Hc. discriminate Hc.
  - apply filter_impl_length. apply Forall_forall. intros s _ Hu.
    apply statsUpcoming_status in Hu. unfold Props.isScheduled.
    rewrite Hu. unfold Props.saysNoShow, Props.saysCompleted.
    split; intros H; simpl in H; intuition discriminate.
Qed.

(** X21. A session joined to a roster record lands on that record's row:
    when the record has a first and a last name and the full name carries
    no surrounding white space, the rollup resolves the session to the name
    under which the fetched roster seeds the row. *)
Theorem joined_session_roster_row (d : Employee.t) (s : Session.t) (f l : string) :
  Employee.first_name d = Some f →
  Employee.last_name d = Some l →
  f ≠ "" → l ≠ "" →
  Js.trim (f +:+ " " +:+ l) = f +:+ " " +:+ l →
  Props.joinedTo d s →
  SessionDashboard.sessionName s
  = SessionDashboard.rosterName (DataFetcher.withDerivedNames d)
  ∧ SessionDashboard.rosterName (DataFetcher.withDerivedNames d) = f +:+ " " +:+ l.
Proof.
  intros Hf Hl Hfne Hlne Htrim Hjoin. unfold Props.joinedTo in Hjoin.
  apply String.eqb_neq in Hfne, Hlne.
  assert (Hname : DataFetcher.derivedName d = Some (f +:+ " " +:+ l)).
  { unfold DataFetcher.derivedName. by rewrite Hf, Hl, Hfne, Hlne. }
  assert (Hroster : SessionDashboard.rosterName (DataFetcher.withDerivedNames d)
                    = f +:+ " " +:+ l).
  { unfold SessionDashboard.rosterName. simpl. rewrite Hname.
    destruct f; [done|]. reflexivity. }
  split; [|done]. rewrite Hroster.
  unfold SessionDashboard.sessionName. rewrite Hjoin. simpl.
  rewrite Hname, Hf, Hl. destruct f as [|c f']; [done|].
  cbn [Js.or Js.truthy String.eqb negb]. cbn [SessionDashboard.interpolate Js.or_lit].
  rewrite Hlne. exact Htrim.
Qed.

Lemma joined_session_roster_row_witness :
  SessionDashboard.sessionName Props.joinedSession
  = SessionDashboard.rosterName (DataFetcher.withDerivedNames Props.annLee)
  ∧ SessionDashboard.rosterName (DataFetcher.withDerivedNames Props.annLee)
    = "Ann" +:+ " " +:+ "Lee".
Proof.
  apply (joined_session_roster_row Props.annLee Props.joinedSession "Ann" "Lee");
    (reflexivity || discriminate).
Defined.

(** X22. The detail modal of a row lists at least the sessions the row
    counts: when nobody behind a session is hidden and the modal resolves
    every session to the same name as the rollup, the row's [total] does
    not exceed the number of sessions handed to the modal. *)
Theorem modalSessions_cover_total
    (hiddenEmployees : gset string) (filterType : SessionDashboard.FilterType)
    (filterValue : string) (now : Z)
    (employees : list Employee.t) (sessions : list Session.t) :
  Props.nobodyHidden hiddenEmployees sessions →
  Forall Props.sameNameInModal sessions →
  Forall (λ e, (SessionDashboard.total e
                ≤ length (SessionDashboard.modalSessions filterType filterValue e
                                                         sessions))%nat)
         (SessionDashboard.aggregatedStats hiddenEmployees filterType filterValue now
                                           employees sessions).
Proof.
  intros Hhid Hsame. apply Forall_forall. intros e He.
  apply aggregatedStats_get in He.
  destruct (statsMap_rollupInvariant hiddenEmployees filterType filterValue now
                                     employees sessions Hhid) as [_ Hrows].
  destruct (Hrows _ _ He) as (_ & (Ht & _) & _). rewrite Ht.
  unfold Props.countedFor, SessionDashboard.modalSessions.
  apply filter_impl_length. eapply Forall_impl; [exact Hsame|].
  intros s Hs [Hk Hi]. unfold Props.sameNameInModal in Hs.
  rewrite Hi, andb_true_r. apply orb_true_iff. left.
  unfold SessionDashboard.nameMatch. apply String.eqb_eq.
  by rewrite <- Hs, Hk.
Qed.

Lemma modalSessions_cover_total_witness :
  Forall (λ e, (SessionDashboard.total e
                ≤ length (SessionDashboard.modalSessions SessionDashboard.FAll "" e
                                                         Props.annLeeSessions))%nat)
         (SessionDashboard.aggregatedStats {["99"]} SessionDashboard.FAll ""
            1706000000000 [Props.annLee] Props.annLeeSessions).
Proof.
  apply modalSessions_cover_total; repeat constructor.
Defined.

(** ** Properties of the program phase *)

Section Phase.
Import ExecutiveSignals.

Section Timeline.
Local Open Scope Q_scope.
(** The elapsed share of the timeline in percent, after the four roundings
    of its evaluation: relatively accurate to [2 ^ -50]. *)
Lemma share_error (el tot : Z) :
  (Z.abs el < 2 ^ 53)%Z → (0 < tot < 2 ^ 53)%Z →
  ∃ p : Qc,
    Js.mul64 (Js.div64 (Js.div64 (Js.of_Z el) (Js.of_Z 86400000))
                       (Js.div64 (Js.of_Z tot) (Js.of_Z 86400000)))
             (Js.of_Z 100) = Js.Fin p
    ∧ Qabs (p * inject_Z tot - 100 * inject_Z el) * 1125899906842624
      <= 100 * Qabs (inject_Z el).
Proof.
  intros Hel [Htot Htot53].
  assert (∀ a, Js.div64 (Js.of_Z a) (Js.of_Z 86400000)
               = Js.round64 (Qc_of_Z a / Qc_of_Z 86400000)) as Hdiv.
  { intros a. unfold Js.div64, Js.of_Z. by rewrite div_Fin. }
  rewrite !Hdiv.
  pose proof (this_Qcdiv_Z el 86400000 ltac:(done)) as HX.
  pose proof (this_Qcdiv_Z tot 86400000 ltac:(done)) as HH.
  change (inject_Z 86400000) with 86400000 in HX, HH.
  set (X := (Qc_of_Z el / Qc_of_Z 86400000)%Qc) in *.
  set (H := (Qc_of_Z tot / Qc_of_Z 86400000)%Qc) in *.
  assert (1 <= inject_Z tot) as HT1 by (rewrite <- (Zle_Qle 1); lia).
  assert (inject_Z tot <= 9007199254740992) as HT2.
  { change 9007199254740992 with (inject_Z (2 ^ 53)). rewrite <- Zle_Qle. lia. }
  set (T := inject_Z tot) in *.
  assert (H * 86400000 == T) as HH' by (rewrite HH; field).
  assert (X * 86400000 == inject_Z el) as HX' by (rewrite HX; field).
  assert (inject_Z (Z.abs el) == Qabs (inject_Z el)) as HabsE by reflexivity.
  assert (Qabs (inject_Z el) <= 9007199254740992) as HE2.
  { rewrite <- HabsE. change 9007199254740992 with (inject_Z (2 ^ 53)).
    rewrite <- Zle_Qle. lia. }
  assert (Qabs X * 86400000 == Qabs (inject_Z el)) as HgX.
  { rewrite HX. unfold Qdiv. rewrite Qabs_Qmult.
    change (Qabs (/ 86400000)) with (/ 86400000). field. }
  assert (2 ^ (-1022) <= 1 # 1000000000000000000000000000000000000) as Hsmall.
  { apply Qle_trans with (2 ^ (-120)); [by apply pow2_le | by vm_compute]. }
  assert (1000000000000000000000000000000000000 <= 2 ^ 1023) as Hlarge.
  { apply Qle_trans with (2 ^ 120); [by vm_compute | by apply pow2_le]. }
  assert (2 ^ 53 == 9007199254740992) as H53 by reflexivity.
  set (lo := 2 ^ (-1022)) in *. set (hi := 2 ^ 1023) in *.
  assert (0 < H) as HHpos by lra.
  assert (Qabs H == H) as HabsH by (apply Qabs_pos; lra).
  (* the total in days *)
  destruct (round64_near H) as (t & Et & Ht);
    [rewrite HabsH; lra | rewrite HabsH; lra |].
  rewrite HabsH, H53 in Ht.
  destruct (Qabs_split (t - H)) as (d2 & Hd2 & Hd2pos & Hd2a & Hd2b).
  rewrite <- Hd2 in Ht. clear Hd2.
  assert (0 < t) as Htpos by lra.
  rewrite Et. clear Et.
  destruct (Z.eq_dec el 0%Z) as [Hel0|Hel0].
  { subst el. change (inject_Z 0) with 0 in *.
    destruct (round64_bounded X 0) as (x & -> & Hx & _); [done| |].
    { change (inject_Z 0) with 0. rewrite HX. by vm_compute. }
    apply Qabs_Qle_condition in Hx. change (inject_Z 0) with 0 in Hx.
    unfold Js.div64. rewrite div_Fin by (by apply Qc_neq_0). cbn [Js.to_double].
    pose proof (this_Qcdiv x t) as HV. set (V := (x / t)%Qc) in *.
    assert (V == 0) as HV0 by (rewrite HV; assert (x == 0) as -> by lra; field; lra).
    destruct (round64_bounded V 0) as (r & -> & Hr & _); [done| |].
    { change (inject_Z 0) with 0. rewrite HV0. by vm_compute. }
    apply Qabs_Qle_condition in Hr. change (inject_Z 0) with 0 in Hr.
    change (Js.mul64 (Js.Fin r) (Js.of_Z 100)) with (Js.round64 (r * Qc_of_Z 100)).
    pose proof (this_Qcmult_Z r 100) as Hw. change (inject_Z 100) with 100 in Hw.
    destruct (round64_bounded (r * Qc_of_Z 100) 0) as (p & -> & Hp & _); [done| |].
    { apply Qabs_Qle_condition. change (inject_Z 0) with 0. rewrite Hw. lra. }
    apply Qabs_Qle_condition in Hp. change (inject_Z 0) with 0 in Hp.
    exists p. split; [done|].
    assert (p == 0) as Hp0 by lra.
    assert (p * T - 100 * 0 == 0) as -> by (rewrite Hp0; ring). by vm_compute. }
  assert (1 <= Qabs (inject_Z el)) as HE1.
  { rewrite <- HabsE, <- (Zle_Qle 1). lia. }
  set (gE := Qabs (inject_Z el)) in *.
  destruct (Qabs_split X) as (gX & HgX' & HgXpos & HgXa & HgXb).
  rewrite <- HgX' in HgX.
  (* the elapsed time in days *)
  destruct (round64_near X) as (x & -> & Hx);
    [rewrite <- HgX'; lra | rewrite <- HgX'; lra |].
  rewrite <- HgX', H53 in Hx.
  destruct (Qabs_split (x - X)) as (d1 & Hd1 & Hd1pos & Hd1a & Hd1b).
  rewrite <- Hd1 in Hx. clear Hd1.
  (* their quotient *)
  unfold Js.div64. rewrite div_Fin by (by apply Qc_neq_0). cbn [Js.to_double].
  pose proof (this_Qcdiv x t) as HV. set (V := (x / t)%Qc) in *.
  assert (V * t == x) as HVt by (rewrite HV; field; lra).
  destruct (Qabs_split V) as (gV & HgV & HgVpos & HgVa & HgVb).
  destruct (Qabs_split x) as (gx & Hgx & Hgxpos & Hgxa & Hgxb).
  assert (gV * t == gx) as HgVt.
  { rewrite HgV, Hgx, <- HVt, Qabs_Qmult, (Qabs_pos t) by lra. reflexivity. }
  assert (gX - d1 <= gx ∧ gx <= gX + d1) as [Hgx1 Hgx2].
  { rewrite Hgx, HgX'. split.
    - apply Qabs_case; intros; apply Qabs_case; intros; lra.
    - apply Qabs_case; intros; apply Qabs_case; intros; lra. }
  clear Hgx HgX'.
  pose proof (Qmult_le_0_compat gV (t - H + d2) ltac:(lra) ltac:(lra)) as F1.
  pose proof (Qmult_le_0_compat gV (H - d2 * 9007199254740992)
                ltac:(lra) ltac:(lra)) as F2.
  pose proof (Qmult_le_0_compat gV (18014398509481984 - t) ltac:(lra) ltac:(lra)) as F3.
  pose proof (Qmult_le_0_compat gV (t - (1 # 200000000)) ltac:(lra) ltac:(lra)) as F4.
  assert (gV * H * 9007199254740991 <= gX * 9007199254740993) as HQ1 by lra.
  assert (gV * d2 * 9007199254740992 <= gV * H) as HQ2 by lra.
  assert ((1 # 100000000000000000000000000) <= gV) as HgVlo by lra.
  assert (gV <= 10000000000000000000000000) as HgVhi by lra.
  clear F1 F2 F3 F4.
  destruct (round64_near V) as (r & -> & Hr);
    [rewrite <- HgV; lra | rewrite <- HgV; lra |].
  rewrite <- HgV, H53 in Hr.
  destruct (Qabs_split (r - V)) as (d3 & Hd3 & Hd3pos & Hd3a & Hd3b).
  rewrite <- Hd3 in Hr. clear Hd3.
  pose proof (Qmult_le_0_compat (gV - d3 * 9007199254740992) H
                ltac:(lra) ltac:(lra)) as F5.
  assert (d3 * H * 9007199254740992 <= gV * H) as HQ3 by lra.
  clear F5.
  (* times one hundred *)
  change (Js.mul64 (Js.Fin r) (Js.of_Z 100)) with (Js.round64 (r * Qc_of_Z 100)).
  pose proof (this_Qcmult_Z r 100) as Hw. change (inject_Z 100) with 100 in Hw.
  set (w := (r * Qc_of_Z 100)%Qc) in *.
  destruct (Qabs_split w) as (gw & Hgw & Hgwpos & Hgwa & Hgwb).
  assert (100 * (gV - d3) <= gw ∧ gw <= 100 * (gV + d3)) as [Hgw1 Hgw2].
  { rewrite Hgw, Hw, HgV.
    assert (Qabs (r * 100) == 100 * Qabs r) as ->.
    { rewrite Qabs_Qmult. change (Qabs 100) with 100. lra. }
    split.
    - apply Qabs_case; intros; apply Qabs_case; intros; lra.
    - apply Qabs_case; intros; apply Qabs_case; intros; lra. }
  destruct (round64_near w) as (p & -> & Hp);
    [rewrite <- Hgw; lra | rewrite <- Hgw; lra |].
  rewrite <- Hgw, H53 in Hp. clear Hgw.
  destruct (Qabs_split (p - w)) as (d4 & Hd4 & Hd4pos & Hd4a & Hd4b).
  rewrite <- Hd4 in Hp. clear Hd4.
  pose proof (Qmult_le_0_compat (100 * (gV + d3) - d4 * 9007199254740992) H
                ltac:(lra) ltac:(lra)) as F6.
  assert (d4 * H * 9007199254740992 <= 100 * (gV * H + d3 * H)) as HQ4 by lra.
  clear F6.
  exists p. split; [done|].
  assert (this p * T - 100 * inject_Z el
          == ((p - w) * H + 100 * ((r - V) * H) + 100 * (V * (H - t)) + 100 * (x - X))
             * 86400000) as ->.
  { rewrite Hw, <- HX', <- HH', <- HVt. ring. }
  rewrite Qabs_Qmult. change (Qabs 86400000) with 86400000. rewrite <- HgX.
  assert (Qabs ((p - w) * H + 100 * ((r - V) * H) + 100 * (V * (H - t)) + 100 * (x - X))
          <= d4 * H + 100 * (d3 * H) + 100 * (gV * d2) + 100 * d1) as Hsum.
  { apply Qabs_Qle_condition.
    pose proof (Qmult_le_0_compat (d4 - (p - w)) H ltac:(lra) ltac:(lra)).
    pose proof (Qmult_le_0_compat (d4 + (p - w)) H ltac:(lra) ltac:(lra)).
    pose proof (Qmult_le_0_compat (d3 - (r - V)) H ltac:(lra) ltac:(lra)).
    pose proof (Qmult_le_0_compat (d3 + (r - V)) H ltac:(lra) ltac:(lra)).
    pose proof (Qmult_le_0_compat (gV - V) (d2 - (H - t)) ltac:(lra) ltac:(lra)).
    pose proof (Qmult_le_0_compat (gV + V) (d2 + (H - t)) ltac:(lra) ltac:(lra)).
    pose proof (Qmult_le_0_compat (gV - V) (d2 + (H - t)) ltac:(lra) ltac:(lra)).
    pose proof (Qmult_le_0_compat (gV + V) (d2 - (H - t)) ltac:(lra) ltac:(lra)).
    split; lra. }
  set (S := Qabs _) in *.
  set (Q1 := gV * H) in *. set (Q2 := gV * d2) in *. set (Q3 := d3 * H) in *.
  set (Q4 := d4 * H) in *.
  lra.
Qed.

(** What the accuracy of the share says about a whole percentage [c]. *)
Lemma share_at_most (p : Qc) (c el tot : Z) :
  (0 ≤ c)%Z → (0 < tot)%Z →
  Qabs (p * inject_Z tot - 100 * inject_Z el) * 1125899906842624
  <= 100 * Qabs (inject_Z el) →
  Props.shareAtMost c el tot → (p ≤ Qc_of_Z c)%Qc.
Proof.
  intros Hc Htot Herr Hshare. unfold Qcle.
  change (this (Qc_of_Z c)) with (inject_Z c).
  unfold Props.shareAtMost in Hshare.
  rewrite Zle_Qle, !inject_Z_mult in Hshare.
  change (inject_Z (2 ^ 50 + 1)) with 1125899906842625 in Hshare.
  change (inject_Z (2 ^ 50)) with 1125899906842624 in Hshare.
  change (inject_Z 100) with 100 in Hshare.
  assert (0 <= inject_Z c) as HC by (by rewrite <- (Zle_Qle 0)).
  assert (0 < inject_Z tot) as HT by (by rewrite <- (Zlt_Qlt 0)).
  set (E := inject_Z el) in *. set (T := inject_Z tot) in *. set (C := inject_Z c) in *.
  destruct (Qabs_split (p * T - 100 * E)) as (g & Hg & _ & _ & Hg2).
  rewrite <- Hg in Herr. clear Hg.
  apply Qnot_lt_le. intros Hlt.
  pose proof (Qmult_lt_0_compat (p - C) T ltac:(lra) HT) as Hprod.
  pose proof (Qmult_le_0_compat C T HC ltac:(lra)) as HCT.
  destruct (Qlt_le_dec E 0) as [HE|HE].
  - rewrite Qabs_neg in Herr by lra. lra.
  - rewrite Qabs_pos in Herr by lra. lra.
Qed.

Lemma share_above (p : Qc) (c el tot : Z) :
  (0 ≤ c)%Z → (0 < tot)%Z →
  Qabs (p * inject_Z tot - 100 * inject_Z el) * 1125899906842624
  <= 100 * Qabs (inject_Z el) →
  Props.shareAbove c el tot → ¬ (p ≤ Qc_of_Z c)%Qc.
Proof.
  intros Hc Htot Herr Hshare. unfold Qcle.
  change (this (Qc_of_Z c)) with (inject_Z c).
  unfold Props.shareAbove in Hshare.
  rewrite Zlt_Qlt, !inject_Z_mult in Hshare.
  change (inject_Z (2 ^ 50 - 1)) with 1125899906842623 in Hshare.
  change (inject_Z (2 ^ 50)) with 1125899906842624 in Hshare.
  change (inject_Z 100) with 100 in Hshare.
  assert (0 <= inject_Z c) as HC by (by rewrite <- (Zle_Qle 0)).
  assert (0 < inject_Z tot) as HT by (by rewrite <- (Zlt_Qlt 0)).
  set (E := inject_Z el) in *. set (T := inject_Z tot) in *. set (C := inject_Z c) in *.
  destruct (Qabs_split (p * T - 100 * E)) as (g & Hg & _ & Hg1 & _).
  rewrite <- Hg in Herr. clear Hg.
  intros Hle.
  pose proof (Qmult_le_0_compat (C - p) T ltac:(lra) ltac:(lra)) as Hprod.
  pose proof (Qmult_le_0_compat C T HC ltac:(lra)) as HCT.
  destruct (Qlt_le_dec E 0) as [HE|HE].
  - rewrite Qabs_neg in Herr by lra. lra.
  - rewrite Qabs_pos in Herr by lra. lra.
Qed.
End Timeline.

Lemma Math_max_Fin (z : Z) (x : Qc) :
  Js.Math_max (Js.of_Z z) (Js.Fin x)
  = if bool_decide (Qc_of_Z z < x)%Qc then Js.Fin x else Js.of_Z z.
Proof. reflexivity. Qed.

Lemma Math_min_Fin (z : Z) (x : Qc) :
  Js.Math_min (Js.of_Z z) (Js.Fin x)
  = if bool_decide (x < Qc_of_Z z)%Qc then Js.Fin x else Js.of_Z z.
Proof. reflexivity. Qed.

Lemma clamp_le (x : Qc) (k : Z) :
  (0 ≤ k < 100)%Z →
  Js.leb (Js.Math_min (Js.of_Z 100) (Js.Math_max (Js.of_Z 0) (Js.Fin x))) (Js.of_Z k)
  = true
  ↔ (x ≤ Qc_of_Z k)%Qc.
Proof.
  intros Hk. rewrite Math_max_Fin.
  destruct (bool_decide (Qc_of_Z 0 < x)%Qc) eqn:E0.
  - apply bool_decide_eq_true in E0. rewrite Math_min_Fin.
    destruct (bool_decide (x < Qc_of_Z 100)%Qc) eqn:E1.
    + apply leb_Fin.
    + apply bool_decide_eq_false in E1. apply Qcnot_lt_le in E1.
      split.
      * intros H. apply (leb_Fin (Qc_of_Z 100) k) in H.
        apply (proj1 (Qc_of_Z_le _ _)) in H. lia.
      * intros H. pose proof (Qcle_trans _ _ _ E1 H) as H'.
        apply (proj1 (Qc_of_Z_le _ _)) in H'. lia.
  - apply bool_decide_eq_false in E0. apply Qcnot_lt_le in E0.
    unfold Js.of_Z at 2. rewrite Math_min_Fin.
    rewrite bool_decide_eq_true_2 by (apply Qc_of_Z_lt; lia).
    split.
    + intros _. eapply Qcle_trans; [exact E0|]. apply Qc_of_Z_le. lia.
    + intros _. apply (leb_Fin (Qc_of_Z 0) k), Qc_of_Z_le. lia.
Qed.

(** The percentage of the timeline that has elapsed, as compared with a
    whole percentage below 100, and its accuracy. *)
Lemma progressPercent_share (today ts ys ms te ye me : Z) :
  (ts < te)%Z → (te - ts < 2 ^ 53)%Z → (Z.abs (today - ts) < 2 ^ 53)%Z →
  ∃ p : Qc,
    (∀ k, (0 ≤ k < 100)%Z →
          Js.leb (progressPercent today (Js.Date ts ys ms) (Js.Date te ye me)) (Js.of_Z k)
          = true ↔ (p ≤ Qc_of_Z k)%Qc)
    ∧ (Qabs (p * inject_Z (te - ts) - 100 * inject_Z (today - ts)) * 1125899906842624
       <= 100 * Qabs (inject_Z (today - ts)))%Q.
Proof.
  intros Hlt Htot Hel. unfold progressPercent. cbv zeta. cbn [Js.getTime].
  rewrite !sub64_of_Z by lia. unfold msPerDay.
  change (1000 * 60 * 60 * 24)%Z with 86400000%Z.
  destruct (share_error (today - ts) (te - ts)) as (p & -> & Herr); [done | lia |].
  exists p. split; [|exact Herr]. intros k Hk. by apply clamp_le.
Qed.

Lemma div_NaN_r x : Js.div x Js.NaN = Js.NaN.
Proof. by destruct x. Qed.

End Phase.

(** X23. For a program with valid dates, a start before its end and time
    values whose differences are whole doubles, the phase follows the share
    of the timeline that has elapsed: Early up to 33 percent, Mid above 33
    and up to 66 percent, Late above 66 percent, in particular Early before
    the start and Late after the end.  The share is evaluated in binary64
    with four roundings, so a share within 2^-50 of itself of a threshold
    can fall on either side: a program at exactly 33 percent of its
    timeline is reported as Mid. *)
Theorem programPhase_thresholds (today ts ys ms te ye me : Z) :
  (ts < te)%Z → (te - ts < 2 ^ 53)%Z → (Z.abs (today - ts) < 2 ^ 53)%Z →
  let phase := ExecutiveSignals.programPhase today (Some (Js.Date ts ys ms))
                                             (Some (Js.Date te ye me)) in
  let elapsed := (today - ts)%Z in
  let total := (te - ts)%Z in
  (Props.shareAtMost 33 elapsed total → phase = ExecutiveSignals.Early)
  ∧ (Props.shareAbove 33 elapsed total → Props.shareAtMost 66 elapsed total →
     phase = ExecutiveSignals.Mid)
  ∧ (Props.shareAbove 66 elapsed total → phase = ExecutiveSignals.Late)
  ∧ (phase = ExecutiveSignals.Early → ¬ Props.shareAbove 33 elapsed total)
  ∧ (phase = ExecutiveSignals.Mid →
     ¬ Props.shareAtMost 33 elapsed total ∧ ¬ Props.shareAbove 66 elapsed total)
  ∧ (phase = ExecutiveSignals.Late → ¬ Props.shareAtMost 66 elapsed total)
  ∧ ((today ≤ ts)%Z → phase = ExecutiveSignals.Early)
  ∧ ((te ≤ today)%Z → phase = ExecutiveSignals.Late)
  ∧ (100 * (1717518288486 - 1704067200000) = 33 * (1744828074200 - 1704067200000))%Z
  ∧ ExecutiveSignals.programPhase 1717518288486
      (Some (Js.Date 1704067200000 2024 0)) (Some (Js.Date 1744828074200 2025 3))
    = ExecutiveSignals.Mid.
Proof.
  intros Hlt Htot Hel phase elapsed total.
  assert (Hgeneral :
    (Props.shareAtMost 33 elapsed total → phase = ExecutiveSignals.Early)
    ∧ (Props.shareAbove 33 elapsed total → Props.shareAtMost 66 elapsed total →
       phase = ExecutiveSignals.Mid)
    ∧ (Props.shareAbove 66 elapsed total → phase = ExecutiveSignals.Late)
    ∧ (phase = ExecutiveSignals.Early → ¬ Props.shareAbove 33 elapsed total)
    ∧ (phase = ExecutiveSignals.Mid →
       ¬ Props.shareAtMost 33 elapsed total ∧ ¬ Props.shareAbove 66 elapsed total)
    ∧ (phase = ExecutiveSignals.Late → ¬ Props.shareAtMost 66 elapsed total)
    ∧ ((today ≤ ts)%Z → phase = ExecutiveSignals.Early)
    ∧ ((te ≤ today)%Z → phase = ExecutiveSignals.Late)).
  { destruct (progressPercent_share today ts ys ms te ye me Hlt Htot Hel)
      as (p & Hp & Herr).
    pose proof (Hp 33%Z ltac:(lia)) as H33. pose proof (Hp 66%Z ltac:(lia)) as H66.
    fold elapsed total in Herr.
    assert (L33 : Props.shareAtMost 33 elapsed total → (p ≤ Qc_of_Z 33)%Qc).
    { apply share_at_most; [done | unfold total; lia | done]. }
    assert (L66 : Props.shareAtMost 66 elapsed total → (p ≤ Qc_of_Z 66)%Qc).
    { apply share_at_most; [done | unfold total; lia | done]. }
    assert (G33 : Props.shareAbove 33 elapsed total → ¬ (p ≤ Qc_of_Z 33)%Qc).
    { apply share_above; [done | unfold total; lia | done]. }
    assert (G66 : Props.shareAbove 66 elapsed total → ¬ (p ≤ Qc_of_Z 66)%Qc).
    { apply share_above; [done | unfold total; lia | done]. }
    assert (Hmono : (p ≤ Qc_of_Z 33)%Qc → (p ≤ Qc_of_Z 66)%Qc).
    { intros H. eapply Qcle_trans; [exact H|]. by apply Qc_of_Z_le. }
    assert (Hbefore : (today ≤ ts)%Z → Props.shareAtMost 33 elapsed total)
      by (unfold Props.shareAtMost, elapsed, total; lia).
    assert (Hafter : (te ≤ today)%Z → Props.shareAbove 66 elapsed total)
      by (unfold Props.shareAbove, elapsed, total; lia).
    assert (Hphase :
      phase = if Js.leb (ExecutiveSignals.progressPercent today
                           (Js.Date ts ys ms) (Js.Date te ye me)) (Js.of_Z 33)
              then ExecutiveSignals.Early
              else if Js.leb (ExecutiveSignals.progressPercent today
                                (Js.Date ts ys ms) (Js.Date te ye me)) (Js.of_Z 66)
                   then ExecutiveSignals.Mid else ExecutiveSignals.Late)
      by reflexivity.
    clearbody phase. clear Hp Herr Hlt Htot Hel.
    destruct (Js.leb _ (Js.of_Z 33)) eqn:E33.
    - assert (p ≤ Qc_of_Z 33)%Qc as P33 by (by apply H33).
      subst phase. clear H33 H66.
      split_and!; try done; intros; try tauto; exfalso; tauto.
    - assert (¬ (p ≤ Qc_of_Z 33)%Qc) as P33 by (rewrite <- H33; congruence).
      destruct (Js.leb _ (Js.of_Z 66)) eqn:E66.
      + assert (p ≤ Qc_of_Z 66)%Qc as P66 by (by apply H66).
        subst phase. clear H33 H66.
        split_and!; try done; intros; try tauto; exfalso; tauto.
      + assert (¬ (p ≤ Qc_of_Z 66)%Qc) as P66 by (rewrite <- H66; congruence).
        subst phase. clear H33 H66.
        split_and!; try done; intros; try tauto; exfalso; tauto. }
  destruct Hgeneral as (H1 & H2 & H3 & H4 & H5 & H6 & H7 & H8).
  split; [exact H1|]. split; [exact H2|]. split; [exact H3|]. split; [exact H4|].
  split; [exact H5|]. split; [exact H6|]. split; [exact H7|]. split; [exact H8|].
  clear. split; [reflexivity | vm_compute; reflexivity].
Qed.

Lemma programPhase_thresholds_witness :
  (1704412800000 < 1707091200000)%Z
  ∧ (1707091200000 - 1704412800000 < 2 ^ 53)%Z
  ∧ (Z.abs (1706000000000 - 1704412800000) < 2 ^ 53)%Z
  ∧ Props.shareAbove 33 (1706000000000 - 1704412800000) (1707091200000 - 1704412800000)
  ∧ Props.shareAtMost 66 (1706000000000 - 1704412800000) (1707091200000 - 1704412800000)
  ∧ ExecutiveSignals.programPhase 1706000000000
      (Some (Js.Date 1704412800000 2024 0)) (Some (Js.Date 1707091200000 2024 1))
    = ExecutiveSignals.Mid.
Proof.
  assert (Props.shareAbove 33 (1706000000000 - 1704412800000)
                              (1707091200000 - 1704412800000)) as Habove
    by (unfold Props.shareAbove; lia).
  assert (Props.shareAtMost 66 (1706000000000 - 1704412800000)
                               (1707091200000 - 1704412800000)) as Hbelow
    by (unfold Props.shareAtMost; lia).
  split; [lia|]. split; [lia|]. split; [lia|]. split; [exact Habove|].
  split; [exact Hbelow|].
  apply (programPhase_thresholds 1706000000000 1704412800000 2024 0
                                 1707091200000 2024 1); (lia || assumption).
Defined.

(** X24. A start or end date that is present but cannot be parsed does not
    leave the phase unknown: the percentage is not a number, both
    comparisons fail, and the phase is reported as Late. *)
Theorem programPhase_invalid_date (today : Z) (d : Js.JsDate) :
  ExecutiveSignals.programPhase today (Some Js.InvalidDate) (Some d) = ExecutiveSignals.Late
  ∧ ExecutiveSignals.programPhase today (Some d) (Some Js.InvalidDate)
    = ExecutiveSignals.Late.
Proof.
  split; [by destruct d|].
  unfold ExecutiveSignals.programPhase, ExecutiveSignals.progressPercent. cbv zeta.
  cbn [Js.getTime].
  change (Js.div64 (Js.sub64 Js.NaN (Js.getTime d)) ExecutiveSignals.msPerDay)
    with Js.NaN.
  generalize (Js.div64 (Js.sub64 (Js.of_Z today) (Js.getTime d))
                       ExecutiveSignals.msPerDay).
  intros x. unfold Js.div64. by rewrite div_NaN_r.
Qed.

(** ** Numeric text in the fetched scores *)

Section NumericText.
Import Props.

Lemma rev_app_rev_app s t u :
  String.rev_app (String.rev_app s t) u = String.rev_app t (s +:+ u).
Proof.
  revert t u. induction s as [|a s IH]; intros t u; simpl; [done|].
  by rewrite IH.
Qed.

Lemma append_nil_r s : s +:+ "" = s.
Proof.
  induction s as [|a s IH]; [done|].
  change (String a s +:+ "") with (String a (s +:+ "")). by rewrite IH.
Qed.

Lemma rev_involutive s : String.rev (String.rev s) = s.
Proof. unfold String.rev. rewrite rev_app_rev_app. exact (append_nil_r s). Qed.

Lemma trimStart_noSpace s : noSpace s = true → Js.trimStart s = s.
Proof.
  destruct s as [|c s]; simpl; [done|].
  intros [Hc _]%andb_true_iff. by destruct (Ascii.is_space c).
Qed.

Lemma noSpace_rev_app s t :
  noSpace s = true → noSpace t = true → noSpace (String.rev_app s t) = true.
Proof.
  revert t. induction s as [|a s IH]; simpl; intros t Hs Ht; [done|].
  apply andb_true_iff in Hs as [Ha Hs]. apply IH; [done|]. simpl. by rewrite Ha.
Qed.

Lemma trim_noSpace s : noSpace s = true → Js.trim s = s.
Proof.
  intros Hs. unfold Js.trim, Js.trimEnd.
  rewrite (trimStart_noSpace s Hs).
  rewrite trimStart_noSpace by (by apply noSpace_rev_app).
  apply rev_involutive.
Qed.

Lemma noSpace_uint (d : Decimal.uint) : noSpace (NilEmpty.string_of_uint d) = true.
Proof. induction d; simpl; done. Qed.

Lemma span_uint (d : Decimal.uint) :
  ∃ ds, Js.span_digits 10 (NilEmpty.string_of_uint d) = (ds, "")
        ∧ (d ≠ Decimal.Nil → ds ≠ []).
Proof.
  induction d as [|d [ds [IH _]]|d [ds [IH _]]|d [ds [IH _]]|d [ds [IH _]]|d [ds [IH _]]
                  |d [ds [IH _]]|d [ds [IH _]]|d [ds [IH _]]|d [ds [IH _]]|d [ds [IH _]]];
    [by exists []|..];
    simpl NilEmpty.string_of_uint; cbn [Js.span_digits];
    match goal with
    | |- context [Js.digit_val 10 ?c] =>
        let v := eval vm_compute in (Js.digit_val 10 c) in
        change (Js.digit_val 10 c) with v
    end; cbv iota beta; rewrite IH; eexists; (split; [reflexivity | done]).
Qed.

Lemma span_parse s ds acc :
  Js.span_digits 10 s = (ds, "") →
  Js.parse_digits 10 (Some acc) s = Some (fold_left (λ a d, (a * 10 + d)%Z) ds acc).
Proof.
  revert ds acc. induction s as [|c s IH]; simpl; intros ds acc.
  - by intros [= <-].
  - destruct (Js.digit_val 10 c) as [d|]; [|done].
    destruct (Js.span_digits 10 s) as [ds' rest] eqn:E.
    intros [= <- ->]. simpl. rewrite (IH ds') by done. do 2 f_equal. lia.
Qed.

Lemma digits_uint (d : Decimal.uint) :
  d ≠ Decimal.Nil →
  ∃ ds, Js.span_digits 10 (NilEmpty.string_of_uint d) = (ds, "") ∧ ds ≠ []
        ∧ Js.digits_value 10 ds = Z.of_N (Pos.of_uint d).
Proof.
  intros Hd. destruct (span_uint d) as (ds & Hspan & Hne).
  exists ds. split_and!; [done | by apply Hne|].
  pose proof (span_parse _ _ 0%Z Hspan) as Hp. rewrite parse_uint_zero in Hp.
  unfold Js.digits_value. by injection Hp as ->.
Qed.

Lemma unsignedDecimal_uint (d : Decimal.uint) :
  d ≠ Decimal.Nil →
  Js.unsignedDecimal (NilEmpty.string_of_uint d) = Js.of_Z (Z.of_N (Pos.of_uint d)).
Proof.
  intros Hd. destruct (digits_uint d Hd) as (ds & Hspan & Hne & Hval).
  unfold Js.unsignedDecimal.
  assert (Hinf : String.eqb (NilEmpty.string_of_uint d) "Infinity" = false)
    by (by destruct d).
  rewrite Hinf, Hspan. destruct ds as [|x ds]; [done|].
  cbn [Js.exponentPart length]. rewrite Hval. unfold Js.of_Z. f_equal.
  change (Js.digits_value 10 []) with 0%Z.
  change (Js.pow10 (- Z.of_nat 0)) with (Qc_of_Z 1).
  change (Js.pow10 0) with (Qc_of_Z 1).
  rewrite !Qc_of_Z_mult, Qc_of_Z_plus, Qc_of_Z_mult. f_equal. lia.
Qed.

Lemma StringToNumber_uint (d : Decimal.uint) :
  d ≠ Decimal.Nil →
  Js.StringToNumber (NilEmpty.string_of_uint d) = Js.of_Z (Z.of_N (Pos.of_uint d)).
Proof.
  intros Hd. rewrite <- unsignedDecimal_uint by done.
  unfold Js.StringToNumber. rewrite trim_noSpace by apply noSpace_uint.
  destruct d as [|d|d|d|d|d|d|d|d|d|d]; [done|..]; try reflexivity.
  destruct d; reflexivity.
Qed.

End NumericText.

(** X25. Numeric text is read as the number it spells: for every integer
    in the range that a JavaScript number holds exactly, a pre or post
    value that arrives as the decimal text of that integer is ingested as
    that integer. *)
Theorem coerce_decimal_text (n : Z) :
  (- 2 ^ 53 ≤ n ≤ 2 ^ 53)%Z →
  DataFetcher.coerce (Js.VStr (Js.Z_to_string n)) = Js.of_Z n.
Proof.
  intros _. unfold DataFetcher.coerce, Js.Number, Js.Z_to_string.
  destruct n as [|p|p]; [apply (f_equal Js.Fin), Qc_is_canon; reflexivity|..]; simpl.
  - pose proof (Unsigned.to_uint_nonnil p) as Hnil.
    rewrite string_of_uint_nonnil, StringToNumber_uint by done.
    by rewrite DecimalPos.Unsigned.of_to.
  - pose proof (Unsigned.to_uint_nonnil p) as Hnil.
    rewrite string_of_uint_nonnil by done.
    unfold Js.StringToNumber.
    rewrite trim_noSpace by (simpl; apply noSpace_uint).
    rewrite unsignedDecimal_uint by done.
    rewrite DecimalPos.Unsigned.of_to. unfold Js.of_Z. simpl.
    by rewrite Qc_of_Z_opp.
Qed.

Lemma coerce_decimal_text_witness :
  DataFetcher.coerce (Js.VStr (Js.Z_to_string (-37))) = Js.of_Z (-37).
Proof. apply coerce_decimal_text. lia. Defined.

(** ** The home view and the trend chart *)

Section Substrings.






End Substrings.



(** ** The filter and the people of the rollup *)

Section RollupPeople.
Import SessionDashboard Props.
Variable hiddenEmployees : gset string.

Local Abbreviation alike :=
  (Forall2 (λ kv kv' : string * Stat, kv.1 = kv'.1 ∧ identity kv.2 = identity kv'.2)).

Lemma alike_get k m m' :
  alike m m' →
  match Js.get k m, Js.get k m' with
  | Some e, Some e' => identity e = identity e'
  | None, None => True
  | _, _ => False
  end.
Proof.
  induction 1 as [|[k1 e1] [k2 e2] m m' [Hk He] _ IH]; simpl in *; [done|].
  subst k2. by destruct (String.eqb k k1).
Qed.

Lemma alike_has k m m' : alike m m' → Js.has k m = Js.has k m'.
Proof.
  intros H. pose proof (alike_get k m m' H) as Hg. unfold Js.has.
  by destruct (Js.get k m), (Js.get k m').
Qed.

Lemma alike_set k e e' m m' :
  identity e = identity e' → alike m m' → alike (Js.set k e m) (Js.set k e' m').
Proof.
  intros He. induction 1 as [|[k1 e1] [k2 e2] m m' [Hk He12] Hm IH]; simpl in *.
  - by repeat constructor.
  - subst k2. destruct (String.eqb k k1); constructor; auto.
Qed.

Lemma backfill_identity_eq s e e' :
  identity e = identity e' → identity (backfill s e) = identity (backfill s e').
Proof.
  destruct e, e'. unfold identity. simpl. intros [= -> -> -> -> -> ->].
  unfold backfill. simpl.
  repeat (match goal with
          | |- context [if ?b then _ else _] =>
              lazymatch b with
              | context [if _ then _ else _] => fail
              | _ => destruct b
              end
          end; simpl);
    reflexivity.
Qed.

Lemma countSession_identity_eq now s e : identity (countSession now s e) = identity e.
Proof.
  unfold countSession. cbv zeta.
  destruct (_ || _ || _); [|destruct (_ || _)]; simpl;
    (destruct (latestSession e) as [latest|];
     [destruct (Js.date_ltb _ _)|]; reflexivity).
Qed.

Lemma processSession_alike ft fv now ft' fv' now' m m' s :
  alike m m' →
  alike (processSession hiddenEmployees ft fv now m s)
        (processSession hiddenEmployees ft' fv' now' m' s).
Proof.
  intros Hm. unfold processSession. cbv zeta.
  destruct (String.eqb _ _); [done|].
  destruct (_ && _); [done|].
  rewrite <- (alike_has _ m m' Hm).
  destruct (negb _ && _); [done|].
  match goal with
  | |- alike (match Js.get ?k ?m1 with _ => _ end) (match Js.get ?k ?m1' with _ => _ end) =>
      assert (Hm1 : alike m1 m1');
      [| pose proof (alike_get k m1 m1' Hm1) as Hg;
         destruct (Js.get k m1) as [e|], (Js.get k m1') as [e'|]; try done ]
  end.
  { destruct (Js.has _ m); [done|]. by apply alike_set. }
  apply alike_set; [|done].
  apply (backfill_identity_eq s) in Hg.
  destruct (includeSession ft fv s), (includeSession ft' fv' s);
    by rewrite ?countSession_identity_eq.
Qed.

Lemma alike_refl m : alike m m.
Proof. induction m; constructor; auto. Qed.

Lemma statsMap_alike ft fv now ft' fv' now' employees sessions :
  alike (statsMap hiddenEmployees ft fv now employees sessions)
        (statsMap hiddenEmployees ft' fv' now' employees sessions).
Proof.
  unfold statsMap.
  generalize (alike_refl (fold_left (seedEmployee hiddenEmployees) employees [])).
  generalize (fold_left (seedEmployee hiddenEmployees) employees []) at 1 3.
  generalize (fold_left (seedEmployee hiddenEmployees) employees []).
  intros m' m Hm. revert m m' Hm.
  induction sessions as [|s sessions IH]; simpl; intros m m' Hm; [done|].
  by apply IH, processSession_alike.
Qed.

End RollupPeople.

(** X27. The program or cohort filter and the clock never change who is in
    the rollup: for any two filters the rollup has the same rows in the same
    order with the same id, name, program, cohort, avatar and e-mail; only
    the counters and the last-session date depend on the filter. *)
Theorem aggregatedStats_people_independent_of_filter
    (hiddenEmployees : gset string)
    (filterType filterType' : SessionDashboard.FilterType)
    (filterValue filterValue' : string) (now now' : Z)
    (employees : list Employee.t) (sessions : list Session.t) :
  map Props.identity
      (SessionDashboard.aggregatedStats hiddenEmployees filterType filterValue now
                                        employees sessions)
  = map Props.identity
        (SessionDashboard.aggregatedStats hiddenEmployees filterType' filterValue' now'
                                          employees sessions).
Proof.
  unfold SessionDashboard.aggregatedStats, Js.values.
  pose proof (statsMap_alike hiddenEmployees filterType filterValue now
                             filterType' filterValue' now' employees sessions) as H.
  induction H as [|[k e] [k' e'] m m' [_ He] _ IH]; simpl; [done|].
  simpl in He. by rewrite He, IH.
Qed.

(** ** The programs of the navigation *)

(** X28. The programs offered in the navigation are exactly the distinct
    program names of the sessions that are not blank, in ascending order,
    and none of them is a dead end: the program filter that a click sets
    retains at least one session in the session dashboard. *)
Theorem uniquePrograms_select_sessions (sessions : list Session.t) :
  let programs := App.uniquePrograms (map Session.program_name sessions) in
  Sorted String.le programs ∧ NoDup programs
  ∧ (∀ p, p ∈ programs
          ↔ ∃ s, s ∈ sessions ∧ Session.program_name s = Some p ∧ Js.trim p ≠ "")
  ∧ Forall (λ p, Js.trim p ≠ ""
                 ∧ ∃ s, s ∈ sessions
                        ∧ SessionDashboard.includeSession SessionDashboard.FProgram p s
                          = true) programs.
Proof.
  cbv zeta. unfold App.uniquePrograms.
  assert (Hkeeps : ∀ o p, (if App.keepsProgram o then o else None) = Some p
                          ↔ o = Some p ∧ Js.trim p ≠ "").
  { intros o p. unfold App.keepsProgram. destruct o as [q|]; simpl; [|by split; [|intros []]].
    destruct (String.eqb q "") eqn:Eq; simpl.
    - apply String.eqb_eq in Eq. subst q. split; [done|].
      intros [[= <-] Ht]. by exfalso.
    - destruct (Js.trim q) as [|c t] eqn:Et; simpl.
      + split; [done|]. intros [[= ->] Ht]. by rewrite Et in Ht.
      + split.
        * intros [= ->]. split; [done|]. by rewrite Et.
        * by intros [[= ->] _]. }
  assert (Hmem : ∀ p, p ∈ remove_dups
                        (omap (λ p, if App.keepsProgram p then p else None)
                              (map Session.program_name sessions))
                      ↔ ∃ s, s ∈ sessions ∧ Session.program_name s = Some p
                             ∧ Js.trim p ≠ "").
  { intros p. rewrite elem_of_remove_dups, list_elem_of_omap. split.
    - intros (o & Ho & Hkeep). apply list_elem_of_fmap in Ho as (s & -> & Hs).
      apply Hkeeps in Hkeep as [Hp Ht]. by exists s.
    - intros (s & Hs & Hp & Ht). exists (Some p). split.
      + apply list_elem_of_fmap. by exists s.
      + by apply Hkeeps. }
  split_and!.
  - apply (Sorted_merge_sort String.le).
  - rewrite merge_sort_Permutation. apply NoDup_remove_dups.
  - intros p. rewrite merge_sort_Permutation. apply Hmem.
  - apply Forall_forall. intros p Hp.
    rewrite merge_sort_Permutation in Hp. apply Hmem in Hp as (s & Hs & Hp & Ht).
    split; [done|]. exists s. split; [done|]. simpl.
    unfold SessionDashboard.sessionProgram, Js.or. rewrite Hp. simpl.
    assert (String.eqb p "" = false) as Ep.
    { apply String.eqb_neq. intros ->. by apply Ht. }
    rewrite Ep. simpl. rewrite Ep. apply String.eqb_refl.
Qed.

(** ** Order of the recent activity; the two cohort filters *)

Section RecentOrder.
Import HomeDashboard.

Lemma dedupe_sublist seen n l : dedupe seen n l `sublist_of` l.
Proof.
  revert seen n. induction l as [|s l IH]; intros seen n; [constructor|].
  destruct (dedupe_cases seen n s l) as [(_ & _ & ->)|(_ & ->)].
  - apply sublist_skip. destruct (5 <=? n + 1)%nat; [apply sublist_nil_l | apply IH].
  - apply sublist_cons, IH.
Qed.

Lemma StronglySorted_sublist {A} (R : A → A → Prop) (l1 l2 : list A) :
  l1 `sublist_of` l2 → StronglySorted R l2 → StronglySorted R l1.
Proof.
  induction 1 as [|x l1 l2 Hsub IH|x l1 l2 Hsub IH]; intros Hsorted; [done|..];
    apply StronglySorted_inv in Hsorted as [Hl2 Hx].
  - constructor; [by apply IH|].
    rewrite Forall_forall in Hx. apply Forall_forall. intros y Hy.
    apply Hx. by eapply elem_of_sublist.
  - by apply IH.
Qed.

End RecentOrder.

(** X29. When all session dates are valid, the recent-activity list is in
    order of recency: no session of the list is earlier than one that
    follows it. *)
Theorem getRecentActivity_newest_first (now : Z) (l : list Session.t) :
  Forall Props.dated l →
  StronglySorted Props.notEarlier (HomeDashboard.getRecentActivity now l).
Proof.
  intros Hdated. unfold HomeDashboard.getRecentActivity.
  set (sorted := HomeDashboard.sortByDate _).
  assert (Hall : Forall Props.dated (HomeDashboard.dedupe [] 0 sorted)).
  { apply Forall_forall. intros r Hr.
    apply (λ H, elem_of_sublist _ _ _ H (dedupe_sublist [] 0 sorted)) in Hr.
    unfold sorted in Hr. rewrite sortByDate_Permutation in Hr.
    apply list_elem_of_filter in Hr as [_ Hr].
    rewrite Forall_forall in Hdated. by apply Hdated. }
  eapply (StronglySorted_impl_Forall
            (λ a b, Js.date_ltb (Session.session_date a) (Session.session_date b) = false)
            _ Props.dated); [| exact Hall |].
  - intros a b Ha Hb Hlt. unfold Props.dated, Props.notEarlier in *.
    destruct (Session.session_date a) as [|ta ya ma]; [done|].
    destruct (Session.session_date b) as [|tb yb mb]; [done|].
    exists ta, tb. simpl in Hlt. apply Z.ltb_ge in Hlt. by split_and!.
  - eapply StronglySorted_sublist; [apply dedupe_sublist | apply sortByDate_sorted].
Qed.

Lemma getRecentActivity_newest_first_witness :
  HomeDashboard.getRecentActivity 1706000000000 Props.twoPeopleSessions
  = [Props.januaryTwelfthCompleted; Props.januaryNinthCompleted]
  ∧ StronglySorted Props.notEarlier
      (HomeDashboard.getRecentActivity 1706000000000 Props.twoPeopleSessions).
Proof.
  split; [vm_compute; reflexivity|].
  apply getRecentActivity_newest_first.
  repeat constructor; discriminate.
Defined.

(** X30. The home view's cohort filter is at least as permissive as the
    session dashboard's: a session that passes a program or cohort filter
    of the session dashboard belongs to the home view's cohort of the same
    name. *)
Theorem includeSession_inCohort
    (filterType : SessionDashboard.FilterType) (value : string) (s : Session.t) :
  filterType ≠ SessionDashboard.FAll →
  SessionDashboard.includeSession filterType value s = true →
  HomeDashboard.inCohort value s = true.
Proof.
  intros Hft Hinc. unfold HomeDashboard.inCohort.
  destruct (HomeDashboard.isAll value); [done|].
  unfold HomeDashboard.selNorm, HomeDashboard.normalize.
  rewrite !orb_true_iff, !String.eqb_eq.
  assert (Hfield : ∀ a b,
    Js.or_lit (Js.or a b) "" = value →
    Js.or_lit a "" = value ∨ Js.or_lit b "" = value).
  { intros a b. unfold Js.or.
    destruct (Js.truthy a) eqn:Ea; [by left|]. by right. }
  assert (Hsame : ∀ o, Js.or_lit o "" = value →
    Js.trim (Js.toLowerCase (Js.or_lit o ""))
    = Js.trim (Js.toLowerCase (Js.or_lit (Some value) ""))).
  { intros o Ho. rewrite Ho. f_equal. f_equal. simpl.
    destruct (String.eqb value "") eqn:E; [by apply String.eqb_eq in E | done]. }
  destruct filterType; [| |done]; simpl in Hinc; apply String.eqb_eq in Hinc.
  - apply Hfield in Hinc as [H|H]; apply Hsame in H; auto.
  - apply Hfield in Hinc as [H|H]; apply Hsame in H; auto.
Qed.

Lemma includeSession_inCohort_witness :
  HomeDashboard.inCohort "CP-0028" Props.januaryFifthCompleted = true.
Proof.
  apply (includeSession_inCohort SessionDashboard.FCohort); [discriminate | reflexivity].
Defined.
